(** * RediSearch: document ingestion (document.c) and the legacy garbage
      collector (legacy_gc.c)

    A shallow embedding of [AddDocumentCtx::SetDocument], the field
    preprocessors, [Document::AddToIndexes] and the [GarbageCollector]
    passes, followed by the properties of the specification that concern
    them (C1 to C10), and by further properties of the same code and of
    the constructor, [ReplaceMerge], [IndexBulkData::Add] and
    [Document::GetField] (X1 and on).

    Conventions.
    - A C flag word is a [Z]; [x & m], [x |= m] and [x &= ~m] are [Z.land],
      [Z.lor] and [Z.land _ (Z.lnot _)].
    - Constants that live in headers outside the sources at hand
      (document.h, spec.h, gc.h ...) are the fields of the class [Headers];
      nothing is assumed of them beyond [HeadersOk].
    - What the Redis host and the collaborating classes compute (number
      parsing, tokenising, tag splitting, schema lookup) is the class
      [Host] or a field of the record that stands for the collaborator.
    - A dereference of a null pointer is the outcome [Crash]; a C++ [throw]
      is the outcome [Throw].
    - The answers of the host to a loop that yields are a finite script; the
      outcome [Starved] is a loop that asks beyond the end of the script. *)

From Stdlib Require Import ZArith Lia QArith Ascii.
From Stdlib Require Floats.SpecFloat.
From stdpp Require Import base gmap list strings.

Set Warnings "-clear-no-such-hyp".

Local Open Scope Z_scope.

(* ===================================================================== *)
(** * Part I: definitions                                                 *)
(* ===================================================================== *)

(** ** Flag words *)

(** The mask with the single bit [b] set. *)
Definition bit (b : Z) : Z := Z.shiftl 1 b.

(** The truth value C gives to [flags & mask]. *)
Definition c_test (flags mask : Z) : bool := negb (Z.land flags mask =? 0).

(** [flags |= mask]. *)
Definition c_set (flags mask : Z) : Z := Z.lor flags mask.

(** [flags &= ~mask]. *)
Definition c_clear (flags mask : Z) : Z := Z.land flags (Z.lnot mask).

(** ** Outcomes of code that may crash or throw *)

Inductive Outcome (A : Type) : Type :=
| Ret (a : A)
| Throw (what : string)
| Crash
| Starved.
Arguments Ret {A} a.
Arguments Throw {A} what.
Arguments Crash {A}.
Arguments Starved {A}.

Definition bindO {A B} (x : Outcome A) (k : A -> Outcome B) : Outcome B :=
  match x with
  | Ret a => k a
  | Throw w => Throw w
  | Crash => Crash
  | Starved => Starved
  end.

Notation "x ← y ;;; z" := (bindO y (fun x => z))
  (at level 20, y at level 100, z at level 200, only parsing).
Notation "' p ← y ;;; z" := (bindO y (fun p => z))
  (at level 20, p pattern, y at level 100, z at level 200, only parsing).

(** ** Constants of the headers *)

Class Headers := {
  (** document.h: the positions of the single-bit [ACTX_F_] state flags *)
  ACTX_B_SORTABLES : Z;
  ACTX_B_TEXTINDEXED : Z;
  ACTX_B_OTHERINDEXED : Z;
  ACTX_B_INDEXABLES : Z;
  ACTX_B_EMPTY : Z;
  ACTX_F_NOBLOCK : Z;
  (** field_spec.h: the [FieldType] masks *)
  INDEXFLD_T_FULLTEXT : Z;
  INDEXFLD_T_NUMERIC : Z;
  INDEXFLD_T_GEO : Z;
  INDEXFLD_T_TAG : Z;
  (** document.h, spec.h *)
  Document_HasOnDemandDeletable : Z;
  DOCUMENT_ADD_NOSAVE : Z;
  Index_StoreByteOffsets : Z;
  (** tokenize.h *)
  TOKENIZE_DEFAULT_OPTIONS : Z;
  TOKENIZE_NOSTEM : Z;
  TOKENIZE_PHONETICS : Z;
}.

Definition ACTX_F_SORTABLES `{Headers} : Z := bit ACTX_B_SORTABLES.
Definition ACTX_F_TEXTINDEXED `{Headers} : Z := bit ACTX_B_TEXTINDEXED.
Definition ACTX_F_OTHERINDEXED `{Headers} : Z := bit ACTX_B_OTHERINDEXED.
Definition ACTX_F_INDEXABLES `{Headers} : Z := bit ACTX_B_INDEXABLES.
Definition ACTX_F_EMPTY `{Headers} : Z := bit ACTX_B_EMPTY.

(** The bit positions the five flags written by [SetDocument] occupy. *)
Definition actx_bits `{Headers} : list Z :=
  [ACTX_B_SORTABLES; ACTX_B_TEXTINDEXED; ACTX_B_OTHERINDEXED;
   ACTX_B_INDEXABLES; ACTX_B_EMPTY].

(** The five state flags are distinct single bits. *)
Class HeadersOk `{Headers} : Prop := {
  actx_bits_nonneg : Forall (Z.le 0) actx_bits;
  actx_bits_distinct : NoDup actx_bits;
}.

(** ** The host *)

Class Host := {
  (** the C type [double] *)
  double : Type;
  (** [RedisModule_StringToDouble]: [None] is [REDISMODULE_ERR] *)
  RedisModule_StringToDouble : string -> option double;
  Token : Type;
  (** the document tokenizer run to the end of one text under the given
      options: the tokens in order and the tokenizer's [lastOffset] *)
  tokenize : string -> Z -> list Token * Z;
  (** [TagIndex::Tags(tagSep, tagFlags, field)] *)
  TagIndex_Tags : Ascii.ascii -> Z -> option string -> list string;
}.

(** ** query_error.h *)

Inductive QueryErrorCode : Set :=
| QUERY_OK
| QUERY_EGENERIC
| QUERY_EDUPFIELD
| QUERY_EUNSUPPTYPE
| QUERY_ENOTNUMERIC
| QUERY_EGEOFORMAT
| QUERY_ENODOC
| QUERY_EINVAL.

#[global] Instance QueryErrorCode_eq_dec : EqDecision QueryErrorCode.
Proof. solve_decision. Defined.

Record QueryError := mkQueryError {
  code : QueryErrorCode;
  detail : option string;
}.

Definition HasError (st : QueryError) : bool :=
  negb (bool_decide (code st = QUERY_OK)).

(** Modelled from the spec: [QueryError::ClearError] is not in the sources
    at hand; it leaves the status without an error. *)
Definition ClearError (st : QueryError) : QueryError :=
  mkQueryError QUERY_OK None.

(** Modelled from the spec: [QueryError::SetCode] is not in the sources at
    hand.  The spec has the setters check and skip when a code is already
    set, so that a specific code survives a later, more generic one. *)
Definition SetCode (st : QueryError) (c : QueryErrorCode) : QueryError :=
  if HasError st then st else mkQueryError c (detail st).

(** Modelled from the spec: [QueryError::SetError], same discipline as
    [SetCode], with the message stored as the detail. *)
Definition SetError (st : QueryError) (c : QueryErrorCode) (msg : string) : QueryError :=
  if HasError st then st else mkQueryError c (Some msg).

(** Modelled from the spec: [QueryError::SetErrorFmt] at a format with one
    [%s]: [pre] and [post] are the text around the directive. *)
Definition SetErrorFmt (st : QueryError) (c : QueryErrorCode)
    (pre arg post : string) : QueryError :=
  SetError st c (pre +:+ arg +:+ post).

(** ** Schema and documents *)

Record FieldSpec := mkFieldSpec {
  fs_name : string;
  fs_index : nat;
  fs_types : Z;
  (** what [IsSortable()], [IsIndexable()], [IsNoStem()], [IsPhonetics()]
      answer *)
  fs_sortable : bool;
  fs_indexable : bool;
  fs_nostem : bool;
  fs_phonetics : bool;
  fs_ftId : Z;
  fs_ftWeight : Z;
  fs_tagSep : Ascii.ascii;
  fs_tagFlags : Z;
  fs_sortIdx : nat;
}.

Definition IsSortable (fs : FieldSpec) : bool := fs_sortable fs.
Definition IsIndexable (fs : FieldSpec) : bool := fs_indexable fs.
Definition IsNoStem (fs : FieldSpec) : bool := fs_nostem fs.
Definition IsPhonetics (fs : FieldSpec) : bool := fs_phonetics fs.

(** [FieldSpec(0)], what [fspecs.emplace_back(0)] stores for a field that is
    skipped: the name is empty. *)
Definition FieldSpec_none : FieldSpec :=
  mkFieldSpec EmptyString 0 0 false false false false 0 0 Ascii.zero 0 0.

Record DocumentField := mkDocumentField {
  f_name : string;
  (** [None] is a null [text] *)
  f_text : option string;
  f_indexAs : Z;
}.

Definition with_indexAs (f : DocumentField) (m : Z) : DocumentField :=
  mkDocumentField (f_name f) (f_text f) m.

Definition with_text (f : DocumentField) (t : string) : DocumentField :=
  mkDocumentField (f_name f) (Some t) (f_indexAs f).

(** Modelled from the spec: [DocumentField::CheckIdx] is not in the sources
    at hand; a type is checked when its bit is set in [indexAs]. *)
Definition CheckIdx `{Headers} (f : DocumentField) (t : Z) : bool :=
  c_test (f_indexAs f) t.

Record Document := mkDocument {
  docKey : string;
  docId : Z;
  fields : list DocumentField;
}.

Definition NumFields (d : Document) : nat := length (fields d).

Definition with_fields (d : Document) (fl : list DocumentField) : Document :=
  mkDocument (docKey d) (docId d) fl.

Record IndexSpec := mkIndexSpec {
  (** [IndexSpec::GetField]: the schema looked up by field name *)
  GetField : string -> option FieldSpec;
  sp_flags : Z;
  (** [sortables->len] *)
  sortables_len : nat;
  uniqueId : Z;
}.

(** ** Per-document indexing state *)

Section WithHost.
Context {hdr : Headers} {host : Host}.

(** A slot of the sorting vector. *)
Inductive RSValue : Type :=
| RS_NULL
| RS_STR (s : string)
| RS_NUM (d : double).

Inductive RSSortableType : Set := RS_SORTABLE_NUM | RS_SORTABLE_STR.

(** Modelled from the spec: [RSSortingVector] is not in the sources at
    hand: a fixed-length array indexed by [sortIdx], created with every
    slot empty. *)
Definition RSSortingVector_new (len : nat) : list RSValue := replicate len RS_NULL.

(** Modelled from the spec: [RSSortingVector::Put] writes the tagged value
    into the slot; no slot exists beyond the length. *)
Definition RSSortingVector_Put (v : list RSValue) (idx : nat) (x : RSValue) : list RSValue :=
  <[idx := x]> v.

(** [FieldIndexerData]: what the preprocessors leave for the indexers. *)
Record FieldIndexerData := mkFieldIndexerData {
  fd_numeric : option double;
  (** [geoSlon], [geoSlat]: views into the text buffer of the field, kept
      as the offset at which the view starts *)
  fd_geoSlon : option nat;
  fd_geoSlat : option nat;
  fd_tags : list string;
}.

Definition FieldIndexerData_raw : FieldIndexerData :=
  mkFieldIndexerData None None None [].

(** What leaves the context: the calls made on the indexer queue, on the
    completion callback and on the host. *)
Inductive Event : Set :=
| EvIndexerAdd
| EvDoneCb
| EvDelete
| EvUnblockClient.

Record AddDocumentCtx := mkAddDocumentCtx {
  stateFlags : Z;
  status : QueryError;
  fspecs : list FieldSpec;
  (** the reserved storage of the vector, by slot *)
  fdatas : gmap nat FieldIndexerData;
  (** [None] is a null [sv] *)
  sv : option (list RSValue);
  docFlags : Z;
  options : Z;
  (** [byteOffsets]: the capacity asked for and the regions added *)
  byteOffsets : option (nat * list (Z * Z * Z));
  doc : Document;
  totalTokens : Z;
  (** the forward index: the tokens taken, with the field id and weight *)
  fwIdx : list (Token * Z * Z);
  events : list Event;
}.

Definition set_stateFlags (c : AddDocumentCtx) (x : Z) : AddDocumentCtx :=
  mkAddDocumentCtx x (status c) (fspecs c) (fdatas c) (sv c) (docFlags c)
    (options c) (byteOffsets c) (doc c) (totalTokens c) (fwIdx c) (events c).
Definition set_status (c : AddDocumentCtx) (x : QueryError) : AddDocumentCtx :=
  mkAddDocumentCtx (stateFlags c) x (fspecs c) (fdatas c) (sv c) (docFlags c)
    (options c) (byteOffsets c) (doc c) (totalTokens c) (fwIdx c) (events c).
Definition set_fspecs (c : AddDocumentCtx) (x : list FieldSpec) : AddDocumentCtx :=
  mkAddDocumentCtx (stateFlags c) (status c) x (fdatas c) (sv c) (docFlags c)
    (options c) (byteOffsets c) (doc c) (totalTokens c) (fwIdx c) (events c).
Definition set_fdatas (c : AddDocumentCtx) (x : gmap nat FieldIndexerData) : AddDocumentCtx :=
  mkAddDocumentCtx (stateFlags c) (status c) (fspecs c) x (sv c) (docFlags c)
    (options c) (byteOffsets c) (doc c) (totalTokens c) (fwIdx c) (events c).
Definition set_sv (c : AddDocumentCtx) (x : option (list RSValue)) : AddDocumentCtx :=
  mkAddDocumentCtx (stateFlags c) (status c) (fspecs c) (fdatas c) x (docFlags c)
    (options c) (byteOffsets c) (doc c) (totalTokens c) (fwIdx c) (events c).
Definition set_docFlags (c : AddDocumentCtx) (x : Z) : AddDocumentCtx :=
  mkAddDocumentCtx (stateFlags c) (status c) (fspecs c) (fdatas c) (sv c) x
    (options c) (byteOffsets c) (doc c) (totalTokens c) (fwIdx c) (events c).
Definition set_byteOffsets (c : AddDocumentCtx) (x : option (nat * list (Z * Z * Z))) : AddDocumentCtx :=
  mkAddDocumentCtx (stateFlags c) (status c) (fspecs c) (fdatas c) (sv c) (docFlags c)
    (options c) x (doc c) (totalTokens c) (fwIdx c) (events c).
Definition set_doc (c : AddDocumentCtx) (x : Document) : AddDocumentCtx :=
  mkAddDocumentCtx (stateFlags c) (status c) (fspecs c) (fdatas c) (sv c) (docFlags c)
    (options c) (byteOffsets c) x (totalTokens c) (fwIdx c) (events c).
Definition set_totalTokens (c : AddDocumentCtx) (x : Z) : AddDocumentCtx :=
  mkAddDocumentCtx (stateFlags c) (status c) (fspecs c) (fdatas c) (sv c) (docFlags c)
    (options c) (byteOffsets c) (doc c) x (fwIdx c) (events c).
Definition set_fwIdx (c : AddDocumentCtx) (x : list (Token * Z * Z)) : AddDocumentCtx :=
  mkAddDocumentCtx (stateFlags c) (status c) (fspecs c) (fdatas c) (sv c) (docFlags c)
    (options c) (byteOffsets c) (doc c) (totalTokens c) x (events c).
Definition emit (c : AddDocumentCtx) (e : list Event) : AddDocumentCtx :=
  mkAddDocumentCtx (stateFlags c) (status c) (fspecs c) (fdatas c) (sv c) (docFlags c)
    (options c) (byteOffsets c) (doc c) (totalTokens c) (fwIdx c) (events c ++ e).

(** The slot [i] of [fdatas], as it is in the reserved storage. *)
Definition fdata_at (m : gmap nat FieldIndexerData) (i : nat) : FieldIndexerData :=
  default FieldIndexerData_raw (m !! i).

(** [fdatas.reserve(n)] on the storage [m].  No slot of [fdatas] is ever
    constructed ([reserve] is the only call that sizes the vector), so
    when the vector takes new storage every slot holds what the allocator
    left there.  What [reserve] leaves in the slots is the answer of the
    allocator, of which nothing is assumed. *)
Class Allocator := {
  fdatas_reserve : nat -> gmap nat FieldIndexerData -> gmap nat FieldIndexerData;
}.
Context {alloc : Allocator}.

(** ** [AddDocumentCtx::SetDocument] *)

(** The locals of [SetDocument] that live across the field loop. *)
Record SetDocLocals := mkSetDocLocals {
  numTextIndexable : nat;
  dedupe : gset nat;
  hasTextFields : bool;
  hasOtherFields : bool;
}.

(** [fdatas[i].tags = TagIndex::Tags()] for every [i < n]. *)
Fixpoint zero_tags (n : nat) (m : gmap nat FieldIndexerData) : gmap nat FieldIndexerData :=
  match n with
  | O => m
  | S k =>
      let m' := zero_tags k m in
      let old := fdata_at m' k in
      <[k := mkFieldIndexerData (fd_numeric old) (fd_geoSlon old) (fd_geoSlat old) []]> m'
  end.

(** The part of the loop body that classifies a field of an indexable
    spec once [indexAs] is resolved. *)
Definition classify (fs : FieldSpec) (f : DocumentField)
    (c : AddDocumentCtx) (l : SetDocLocals) : AddDocumentCtx * SetDocLocals :=
  if IsIndexable fs then
    let l1 :=
      if c_test (f_indexAs f) INDEXFLD_T_FULLTEXT
      then mkSetDocLocals (S (numTextIndexable l)) (dedupe l) true (hasOtherFields l)
      else l in
    let l2 :=
      if negb (f_indexAs f =? INDEXFLD_T_FULLTEXT)
      then mkSetDocLocals (numTextIndexable l1) (dedupe l1) (hasTextFields l1) true
      else l1 in
    let c1 :=
      if CheckIdx f INDEXFLD_T_GEO
      then set_docFlags c Document_HasOnDemandDeletable
      else c in
    (c1, l2)
  else (c, l).

(** One turn of the field loop.  The boolean is [false] when the turn
    returns [false] from [SetDocument]; the field is returned as the turn
    leaves it in the caller's document. *)
Definition SetDocument_field (sp : IndexSpec) (f : DocumentField)
    (c : AddDocumentCtx) (l : SetDocLocals)
    : bool * AddDocumentCtx * SetDocLocals * DocumentField :=
  match GetField sp (f_name f), f_text f with
  | Some fs, Some _ =>
      let c1 := set_fspecs c (fspecs c ++ [fs]) in
      if bool_decide (fs_index fs ∈ dedupe l) then
        (false,
         set_status c1 (SetErrorFmt (status c1) QUERY_EDUPFIELD
                          "Tried to insert `" (fs_name fs) "` twice"),
         l, f)
      else
        let l1 := mkSetDocLocals (numTextIndexable l) ({[fs_index fs]} ∪ dedupe l)
                    (hasTextFields l) (hasOtherFields l) in
        let c2 := if IsSortable fs
                  then set_stateFlags c1 (c_set (stateFlags c1) ACTX_F_SORTABLES)
                  else c1 in
        if f_indexAs f =? 0 then
          let f' := with_indexAs f (fs_types fs) in
          let '(c3, l3) := classify fs f' c2 l1 in
          (true, c3, l3, f')
        else if negb (Z.land (f_indexAs f) (fs_types fs) =? f_indexAs f) then
          (false,
           set_status c2 (SetErrorFmt (status c2) QUERY_EUNSUPPTYPE
                            "Tried to index field " (fs_name fs)
                            " as type not specified in schema"),
           l1, f)
        else
          let '(c3, l3) := classify fs f c2 l1 in
          (true, c3, l3, f)
  | _, _ => (true, set_fspecs c (fspecs c ++ [FieldSpec_none]), l, f)
  end.

(** The field loop, over the fields that are left. *)
Fixpoint SetDocument_loop (sp : IndexSpec) (fl : list DocumentField)
    (c : AddDocumentCtx) (l : SetDocLocals)
    : bool * AddDocumentCtx * SetDocLocals * list DocumentField :=
  match fl with
  | [] => (true, c, l, [])
  | f :: rest =>
      match SetDocument_field sp f c l with
      | (false, c', l', f') => (false, c', l', f' :: rest)
      | (true, c', l', f') =>
          let '(ok, c'', l'', rest') := SetDocument_loop sp rest c' l' in
          (ok, c'', l'', f' :: rest')
      end
  end.

(** [if (v) stateFlags |= mask; else stateFlags &= ~mask;] *)
Definition flag_if (c : AddDocumentCtx) (mask : Z) (v : bool) : AddDocumentCtx :=
  if v then set_stateFlags c (c_set (stateFlags c) mask)
  else set_stateFlags c (c_clear (stateFlags c) mask).

(** What follows the loop, statement by statement: the three derived
    flags ... *)
Definition SetDocument_derive (c : AddDocumentCtx) (l : SetDocLocals) : AddDocumentCtx :=
  let c := flag_if c ACTX_F_INDEXABLES (hasTextFields l || hasOtherFields l) in
  let c := flag_if c ACTX_F_TEXTINDEXED (negb (hasTextFields l)) in
  flag_if c ACTX_F_OTHERINDEXED (negb (hasOtherFields l)).

(** ... the sorting vector ... *)
Definition SetDocument_sv (sp : IndexSpec) (c : AddDocumentCtx) : AddDocumentCtx :=
  if c_test (stateFlags c) ACTX_F_SORTABLES && bool_decide (sv c = None)
  then set_sv c (Some (RSSortingVector_new (sortables_len sp)))
  else c.

(** ... [EMPTY] ... *)
Definition SetDocument_empty (c : AddDocumentCtx) (l : SetDocLocals) : AddDocumentCtx :=
  let empty := bool_decide (sv c = None) && negb (hasTextFields l)
               && negb (hasOtherFields l) in
  if empty then set_stateFlags c (c_set (stateFlags c) ACTX_F_EMPTY) else c.

(** ... the byte offsets ... *)
Definition SetDocument_offsets (sp : IndexSpec) (c : AddDocumentCtx) (l : SetDocLocals)
    : AddDocumentCtx :=
  if (Z.land (options c) DOCUMENT_ADD_NOSAVE =? 0)
     && negb (bool_decide (numTextIndexable l = O))
     && c_test (sp_flags sp) Index_StoreByteOffsets
  then set_byteOffsets c (Some (numTextIndexable l, []))
  else c.

(** ... and the move of the document into the context. *)
Definition SetDocument_finish (sp : IndexSpec) (d : Document)
    (c : AddDocumentCtx) (l : SetDocLocals) : AddDocumentCtx :=
  let c := SetDocument_derive c l in
  let c := SetDocument_sv sp c in
  let c := SetDocument_empty c l in
  let c := SetDocument_offsets sp c l in
  set_doc c d.

(** [if (oldFieldCount < d->NumFields()) { fspecs.reserve(...);
    fdatas.reserve(...); }]: the elements of [fspecs] stay as they are. *)
Definition SetDocument_reserve (c : AddDocumentCtx) (d : Document)
    (oldFieldCount : nat) : AddDocumentCtx :=
  if (oldFieldCount <? NumFields d)%nat
  then set_fdatas c (fdatas_reserve (NumFields d) (fdatas c))
  else c.

(** [SetDocument(sp, d, oldFieldCount)] on the context [c].  The result is
    the returned boolean, the context and the caller's document [d] as the
    call leaves them ([indexAs] is resolved in place). *)
Definition SetDocument (c : AddDocumentCtx) (sp : IndexSpec) (d : Document)
    (oldFieldCount : nat) : bool * AddDocumentCtx * Document :=
  let c1 := set_stateFlags c (c_clear (stateFlags c) ACTX_F_INDEXABLES) in
  let c2 := set_stateFlags c1 (c_clear (stateFlags c1) ACTX_F_TEXTINDEXED) in
  let c3 := set_stateFlags c2 (c_clear (stateFlags c2) ACTX_F_OTHERINDEXED) in
  let c3 := SetDocument_reserve c3 d oldFieldCount in
  let c4 := set_fdatas c3 (zero_tags (NumFields d) (fdatas c3)) in
  let '(ok, c5, l, fl) :=
    SetDocument_loop sp (fields d) c4 (mkSetDocLocals O ∅ false false) in
  let d' := with_fields d fl in
  if ok then (true, SetDocument_finish sp d' c5 l, d')
  else (false, c5, d').

(** ** C strings *)

Definition NUL : Ascii.ascii := Ascii.zero.

(** The C string that starts at the head of the buffer: the characters
    before the first [NUL]. *)
Fixpoint cstr (s : string) : string :=
  match s with
  | EmptyString => EmptyString
  | String a r => if Ascii.eqb a NUL then EmptyString else String a (cstr r)
  end.

Fixpoint str_drop (n : nat) (s : string) : string :=
  match n, s with
  | O, _ => s
  | S k, EmptyString => EmptyString
  | S k, String _ r => str_drop k r
  end.

(** [s[n] = a]. *)
Fixpoint str_poke (n : nat) (a : Ascii.ascii) (s : string) : string :=
  match s, n with
  | EmptyString, _ => EmptyString
  | String _ r, O => String a r
  | String b r, S k => String b (str_poke k a r)
  end.

(** The C string a pointer at offset [off] of the buffer views. *)
Definition cstr_at (buf : string) (off : nat) : string := cstr (str_drop off buf).

Fixpoint str_mem (a : Ascii.ascii) (s : string) : bool :=
  match s with
  | EmptyString => false
  | String b r => Ascii.eqb a b || str_mem a r
  end.

(** [strpbrk(s, accept)] of the C library: the offset of the first
    character of the C string [s] that occurs in [accept]. *)
Fixpoint strpbrk (s accept : string) : option nat :=
  match s with
  | EmptyString => None
  | String a r =>
      if Ascii.eqb a NUL then None
      else if str_mem a accept then Some O
      else S <$> strpbrk r accept
  end.

(** ** The field preprocessors *)

(** What a preprocessor is handed: the context, the field, and the two
    pointers [fdata] and [status]. *)
Record PreEnv := mkPreEnv {
  p_ctx : AddDocumentCtx;
  p_field : DocumentField;
  p_fdata : FieldIndexerData;
  p_status : QueryError;
}.

(** [aCtx->sv->Put(sortIdx, p, type)]. *)
Definition sv_Put (c : AddDocumentCtx) (idx : nat) (x : RSValue) : Outcome AddDocumentCtx :=
  match sv c with
  | None => Crash
  | Some v => Ret (set_sv c (Some (RSSortingVector_Put v idx x)))
  end.

Definition tokenize_options (fs : FieldSpec) : Z :=
  let o := TOKENIZE_DEFAULT_OPTIONS in
  let o := if IsNoStem fs then Z.lor o TOKENIZE_NOSTEM else o in
  if IsPhonetics fs then Z.lor o TOKENIZE_PHONETICS else o.

Definition FulltextPreprocessor (fs : FieldSpec) (e : PreEnv) : Outcome (bool * PreEnv) :=
  match f_text (p_field e) with
  | None => Crash
  | Some c =>
      c1 ← (if IsSortable fs then sv_Put (p_ctx e) (fs_sortIdx fs) (RS_STR c)
            else Ret (p_ctx e)) ;;;
      let c2 :=
        if IsIndexable fs then
          let '(toks, lastTokPos) := tokenize c (tokenize_options fs) in
          let c' := set_fwIdx c1
                      (fwIdx c1 ++ map (fun t => (t, fs_ftId fs, fs_ftWeight fs)) toks) in
          let c'' :=
            match byteOffsets c' with
            | Some (cap, regions) =>
                set_byteOffsets c'
                  (Some (cap, regions ++ [(fs_ftId fs, totalTokens c' + 1, lastTokPos)]))
            | None => c'
            end in
          set_totalTokens c'' lastTokPos
        else c1 in
      Ret (true, mkPreEnv c2 (p_field e) (p_fdata e) (p_status e))
  end.

Definition NumericPreprocessor (fs : FieldSpec) (e : PreEnv) : Outcome (bool * PreEnv) :=
  match f_text (p_field e) with
  | None => Crash
  | Some t =>
      match RedisModule_StringToDouble t with
      | None =>
          Ret (false, mkPreEnv (p_ctx e) (p_field e) (p_fdata e)
                        (SetCode (p_status e) QUERY_ENOTNUMERIC))
      | Some x =>
          let fd := p_fdata e in
          let fd' := mkFieldIndexerData (Some x) (fd_geoSlon fd) (fd_geoSlat fd) (fd_tags fd) in
          c1 ← (if IsSortable fs then sv_Put (p_ctx e) (fs_sortIdx fs) (RS_NUM x)
                else Ret (p_ctx e)) ;;;
          Ret (true, mkPreEnv c1 (p_field e) fd' (p_status e))
      end
  end.

Definition GeoPreprocessor (fs : FieldSpec) (e : PreEnv) : Outcome (bool * PreEnv) :=
  match f_text (p_field e) with
  | None => Crash
  | Some c =>
      match strpbrk c " ," with
      | None =>
          Ret (false, mkPreEnv (p_ctx e) (p_field e) (p_fdata e)
                        (SetCode (p_status e) QUERY_EGEOFORMAT))
      | Some pos =>
          let buf := str_poke pos NUL c in
          let fd := p_fdata e in
          let fd' := mkFieldIndexerData (fd_numeric fd) (Some O) (Some (S pos)) (fd_tags fd) in
          Ret (true, mkPreEnv (p_ctx e) (with_text (p_field e) buf) fd' (p_status e))
      end
  end.

Definition TagPreprocessor (fs : FieldSpec) (e : PreEnv) : Outcome (bool * PreEnv) :=
  let fd := p_fdata e in
  let tags := TagIndex_Tags (fs_tagSep fs) (fs_tagFlags fs) (f_text (p_field e)) in
  let fd' := mkFieldIndexerData (fd_numeric fd) (fd_geoSlon fd) (fd_geoSlat fd) tags in
  let e' := mkPreEnv (p_ctx e) (p_field e) fd' (p_status e) in
  match tags with
  | [] => Ret (true, e')
  | _ :: _ =>
      if IsSortable fs then
        match f_text (p_field e) with
        | None => Crash
        | Some c =>
            c1 ← sv_Put (p_ctx e) (fs_sortIdx fs) (RS_STR c) ;;;
            Ret (true, mkPreEnv c1 (p_field e) fd' (p_status e))
        end
      else Ret (true, e')
  end.

(** The longitude and latitude a geo field leaves for the indexer: the C
    strings its two views point at. *)
Definition geo_lon (e : PreEnv) : option string :=
  off ← fd_geoSlon (p_fdata e); buf ← f_text (p_field e); Some (cstr_at buf off).
Definition geo_lat (e : PreEnv) : option string :=
  off ← fd_geoSlat (p_fdata e); buf ← f_text (p_field e); Some (cstr_at buf off).

(** ** [AddDocumentCtx::Finish] and [Document::AddToIndexes] *)

Inductive RedisModuleStatus : Set := REDISMODULE_OK | REDISMODULE_ERR.

(** [doReplyFinish]: the completion callback, then the context is deleted. *)
Definition doReplyFinish (c : AddDocumentCtx) : AddDocumentCtx :=
  emit c [EvDoneCb; EvDelete].

Definition Finish (c : AddDocumentCtx) : AddDocumentCtx :=
  if c_test (stateFlags c) ACTX_F_NOBLOCK then doReplyFinish c
  else emit c [EvUnblockClient].

(** The handler of one type, run when the field is indexed as that type. *)
Definition when_idx (t : Z)
    (pre : FieldSpec -> PreEnv -> Outcome (bool * PreEnv))
    (fs : FieldSpec) (e : PreEnv) : Outcome (bool * PreEnv) :=
  if CheckIdx (p_field e) t then pre fs e else Ret (true, e).

(** The four handlers in the order of the loop body; the first that
    returns [false] ends the turn. *)
Definition preprocess (fs : FieldSpec) (e : PreEnv) : Outcome (bool * PreEnv) :=
  '(ok, e1) ← when_idx INDEXFLD_T_FULLTEXT FulltextPreprocessor fs e ;;;
  if negb ok then Ret (false, e1) else
  '(ok, e2) ← when_idx INDEXFLD_T_NUMERIC NumericPreprocessor fs e1 ;;;
  if negb ok then Ret (false, e2) else
  '(ok, e3) ← when_idx INDEXFLD_T_GEO GeoPreprocessor fs e2 ;;;
  if negb ok then Ret (false, e3) else
  when_idx INDEXFLD_T_TAG TagPreprocessor fs e3.

(** The writes made through [ff], [fdata] and [&aCtx->status] during the
    turn [i], seen from the context. *)
Definition commit (i : nat) (e : PreEnv) : AddDocumentCtx :=
  let c := p_ctx e in
  let c := set_fdatas c (<[i := p_fdata e]> (fdatas c)) in
  let c := set_status c (p_status e) in
  set_doc c (with_fields (doc c) (<[i := p_field e]> (fields (doc c)))).

(** One turn of the loop of [AddToIndexes] for the field [ff] at position
    [i]; [false] is the jump to [cleanup]. *)
Definition AddToIndexes_field (i : nat) (ff : DocumentField) (c : AddDocumentCtx)
    : Outcome (bool * AddDocumentCtx) :=
  match fspecs c !! i with
  | None => Crash
  | Some fs =>
      if bool_decide (fs_name fs = EmptyString) || (f_indexAs ff =? 0) then Ret (true, c)
      else
        '(ok, e) ← preprocess fs (mkPreEnv c ff (fdata_at (fdatas c) i) (status c)) ;;;
        Ret (ok, commit i e)
  end.

Fixpoint AddToIndexes_loop (i : nat) (fl : list DocumentField) (c : AddDocumentCtx)
    : Outcome (bool * AddDocumentCtx) :=
  match fl with
  | [] => Ret (true, c)
  | ff :: rest =>
      '(ok, c') ← AddToIndexes_field i ff c ;;;
      if ok then AddToIndexes_loop (S i) rest c' else Ret (false, c')
  end.

(** The [cleanup] label. *)
Definition AddToIndexes_cleanup (c : AddDocumentCtx) : AddDocumentCtx :=
  Finish (set_status c (SetCode (status c) QUERY_EGENERIC)).

Definition AddToIndexes (c : AddDocumentCtx) : Outcome (RedisModuleStatus * AddDocumentCtx) :=
  '(ok, c') ← AddToIndexes_loop O (fields (doc c)) c ;;;
  if ok then Ret (REDISMODULE_OK, emit c' [EvIndexerAdd])
  else Ret (REDISMODULE_ERR, AddToIndexes_cleanup c').

(** ** The constructor and [ReplaceMerge] *)

(** [AddDocumentCtx::AddDocumentCtx(sp, b, status_)] over the storage [raw]
    of the new object: the members the constructor does not assign keep
    what [raw] holds.  [has_indexer] is [sp->indexer != NULL].  On the
    failure of [SetDocument] the status is handed to the caller. *)
Definition AddDocumentCtx_new (raw : AddDocumentCtx) (sp : IndexSpec)
    (has_indexer : bool) (b : Document) : Outcome AddDocumentCtx + QueryError :=
  let c := set_stateFlags raw 0 in
  let c := set_status c (ClearError (status c)) in
  let c := set_totalTokens c 0 in
  let c := set_docFlags c 0 in
  if negb has_indexer then inl (Throw "No indexer")
  else
    match SetDocument c sp b (NumFields (doc c)) with
    | (false, c', _) => inr (status c')
    | (true, c', _) =>
        let c' := set_fwIdx c' [] in
        inl (Ret (set_doc c' (mkDocument (docKey (doc c')) 0 (fields (doc c')))))
    end.

(** [AddDocumentCtx::ReplaceMerge]; [loaded] is what [LoadSchemaFields]
    makes of the cleared document, [None] when it fails.  The result of the
    call of [SetDocument] is dropped, as in the source.  The document
    handed to [SetDocument] is the one of the context, so what the call
    writes into its fields is written into the context. *)
Definition ReplaceMerge (c : AddDocumentCtx) (sp : IndexSpec)
    (loaded : option (list DocumentField)) : bool * AddDocumentCtx :=
  let oldFieldCount := NumFields (doc c) in
  let c := set_doc c (with_fields (doc c) []) in
  match loaded with
  | None =>
      let c := set_status c (SetError (status c) QUERY_ENODOC
                               "Could not load existing document") in
      (true, emit c [EvDoneCb; EvDelete])
  | Some fl =>
      let c := set_doc c (with_fields (doc c) fl) in
      let '(_, c', d') := SetDocument c sp (doc c) oldFieldCount in
      (false, set_doc c' d')
  end.

(** [AddDocumentCtx::handlePartialUpdate], on the branch that reindexes. *)
Definition handlePartialUpdate_reindexes (c : AddDocumentCtx) : bool :=
  c_test (stateFlags c) ACTX_F_INDEXABLES.

End WithHost.

(** ** Vocabulary of the properties of [SetDocument] *)

Section Vocabulary.
Context {hdr : Headers}.

(** The spec a field is matched to: the schema knows its name and its text
    is present. *)
Definition live (sp : IndexSpec) (f : DocumentField) : option FieldSpec :=
  match GetField sp (f_name f), f_text f with
  | Some fs, Some _ => Some fs
  | _, _ => None
  end.

(** The types a matched field is indexed as once [indexAs] is resolved. *)
Definition resolved (fs : FieldSpec) (f : DocumentField) : Z :=
  if f_indexAs f =? 0 then fs_types fs else f_indexAs f.

Definition resolve (sp : IndexSpec) (f : DocumentField) : DocumentField :=
  match live sp f with
  | Some fs => with_indexAs f (resolved fs f)
  | None => f
  end.

(** [m1 ⊆ m2] on type masks. *)
Definition mask_subset (m1 m2 : Z) : Prop := Z.land m1 m2 = m1.

(** The caller's [indexAs] is unspecified or within the types of the
    schema. *)
Definition conforms (sp : IndexSpec) (f : DocumentField) : Prop :=
  forall fs, live sp f = Some fs ->
    f_indexAs f = 0 \/ mask_subset (f_indexAs f) (fs_types fs).

(** A text field: matched, indexable, indexed as full text. *)
Definition text_field (sp : IndexSpec) (f : DocumentField) : bool :=
  match live sp f with
  | Some fs => IsIndexable fs && c_test (resolved fs f) INDEXFLD_T_FULLTEXT
  | None => false
  end.

(** An other field: matched, indexable, not indexed as full text alone. *)
Definition other_field (sp : IndexSpec) (f : DocumentField) : bool :=
  match live sp f with
  | Some fs => IsIndexable fs && negb (resolved fs f =? INDEXFLD_T_FULLTEXT)
  | None => false
  end.

Definition sortable_field (sp : IndexSpec) (f : DocumentField) : bool :=
  match live sp f with
  | Some fs => IsSortable fs
  | None => false
  end.

(** The [FieldSpec.index] of the matched fields, in document order. *)
Definition live_indexes (sp : IndexSpec) (fl : list DocumentField) : list nat :=
  omap (fun f => fs_index <$> live sp f) fl.

(** What [fspecs] receives for a field. *)
Definition spec_of (sp : IndexSpec) (f : DocumentField) : FieldSpec :=
  default FieldSpec_none (live sp f).

(** No field of [fl] is rejected by the loop when it starts from the
    dedupe set [seen]. *)
Definition accepted (sp : IndexSpec) (seen : gset nat) (fl : list DocumentField) : Prop :=
  NoDup (live_indexes sp fl) /\
  (forall i, i ∈ live_indexes sp fl -> i ∉ seen) /\
  Forall (conforms sp) fl.

Definition msg_dupfield (name : string) : string :=
  "Tried to insert `" +:+ name +:+ "` twice".

Definition msg_unsupptype (name : string) : string :=
  "Tried to index field " +:+ name +:+ " as type not specified in schema".

End Vocabulary.

(* --------------------------------------------------------------------- *)
(** ** legacy_gc.c: the garbage collector *)

Definition SPEC_STATUS_OK : Z := 1.
Definition SPEC_STATUS_INVALID : Z := 2.

(** Arithmetic in [size_t]. *)
Definition size_t (x : Z) : Z := x mod 2 ^ 64.

(** The arithmetic of the frequency.  [hz] is a C [float]; [hz * 1.2] is
    computed in [double], compared by the macros [MIN] and [MAX] with the
    bounds of gc.h, and the result is stored back into the [float].
    Nothing is assumed of these operations beyond [GcNumOk]. *)
Class GcNum := {
  float : Type;
  wide : Type;
  widen : float -> wide;
  narrow : wide -> float;
  wmul : wide -> wide -> wide;
  wlt : wide -> wide -> bool;
  lit_1_2 : wide;
  lit_0_99 : wide;
  lit_1_5 : wide;
  (** gc.h *)
  GC_MIN_HZ : wide;
  GC_MAX_HZ : wide;
}.

(** [<] on [double] is asymmetric, at every value a [double] takes, the
    infinities and NaN among them. *)
Class GcNumOk `{GcNum} : Prop := {
  wlt_asym : forall a b, wlt a b = true -> wlt b a = false;
}.

(** The macros of sys/param.h. *)
Definition MIN `{GcNum} (a b : wide) : wide := if wlt a b then a else b.
Definition MAX `{GcNum} (a b : wide) : wide := if wlt b a then a else b.

(** [m] is the lesser of [a] and [b] in the order of [<]: it is one of
    the two, and neither of them is below it. *)
Definition lesser_of `{GcNum} (m a b : wide) : Prop :=
  (m = a \/ m = b) /\ wlt a m = false /\ wlt b m = false.

(** [m] is the greater of [a] and [b]: it is one of the two, and it is
    below neither of them. *)
Definition greater_of `{GcNum} (m a b : wide) : Prop :=
  (m = a \/ m = b) /\ wlt m a = false /\ wlt m b = false.

Record GCStats := mkGCStats {
  totalCollected : Z;
  numCycles : Z;
  effectiveCycles : Z;
}.

(** A node of a numeric range tree; [None] is a null [range], otherwise
    the handle of the inverted index of the range. *)
Record NumericRangeNode := mkNumericRangeNode {
  node_id : Z;
  node_range : option Z;
}.

(** A numeric range tree, with the nodes in the order a new
    [NumericRangeTreeIterator] yields them. *)
Record NumericRangeTree := mkNumericRangeTree {
  rt_revisionId : Z;
  rt_numEntries : Z;
  rt_nodes : list NumericRangeNode;
}.

(** [NumericFieldGC]: the address of the tree, the revision captured, and
    what is left of the iterator. *)
Record NumericFieldGC := mkNumericFieldGC {
  ngc_rt : Z;
  ngc_revisionId : Z;
  gcIterator : list NumericRangeNode;
}.

Section Collector.
Context {num : GcNum}.

Record GarbageCollector := mkGarbageCollector {
  hz : float;
  keyName : string;
  stats : GCStats;
  rdbPossiblyLoading : bool;
  noLockMode : bool;
  specUniqueId : Z;
  numericGC : list NumericFieldGC;
}.

(** [GarbageCollector::GarbageCollector(k, initialHZ, specUniqueId)] over
    the storage [raw] of the new object.  The parameter [specUniqueId]
    hides the member of the same name, so [specUniqueId = specUniqueId]
    assigns the parameter to itself: the member keeps what [raw] holds. *)
Definition GarbageCollector_new (raw : GarbageCollector) (k : string)
    (initialHZ : float) (specUniqueId_param : Z) : GarbageCollector :=
  let specUniqueId_param := specUniqueId_param in
  mkGarbageCollector initialHZ k (mkGCStats 0 0 0) true false
    (specUniqueId raw) [].

Definition set_hz (g : GarbageCollector) (x : float) : GarbageCollector :=
  mkGarbageCollector x (keyName g) (stats g) (rdbPossiblyLoading g) (noLockMode g)
    (specUniqueId g) (numericGC g).
Definition set_stats (g : GarbageCollector) (x : GCStats) : GarbageCollector :=
  mkGarbageCollector (hz g) (keyName g) x (rdbPossiblyLoading g) (noLockMode g)
    (specUniqueId g) (numericGC g).
Definition set_rdbPossiblyLoading (g : GarbageCollector) (x : bool) : GarbageCollector :=
  mkGarbageCollector (hz g) (keyName g) (stats g) x (noLockMode g)
    (specUniqueId g) (numericGC g).
Definition set_numericGC (g : GarbageCollector) (x : list NumericFieldGC) : GarbageCollector :=
  mkGarbageCollector (hz g) (keyName g) (stats g) (rdbPossiblyLoading g) (noLockMode g)
    (specUniqueId g) x.

(** What the collector reaches through the search context: the counters of
    the spec, the numeric trees by address, and, as a record of what the
    collector did, the calls of [Repair] with the [uniqueId] of the spec
    they were made on and the block they started from. *)
Record SpecStats := mkSpecStats {
  numRecords : Z;
  invertedSize : Z;
}.

Record World := mkWorld {
  w_stats : SpecStats;
  w_trees : gmap Z NumericRangeTree;
  w_repairs : list (Z * Z);
}.

(** [GarbageCollector::updateStats]. *)
Definition updateStats (g : GarbageCollector) (w : World)
    (recordsRemoved bytesCollected : Z) : GarbageCollector * World :=
  let s := w_stats w in
  let w' := mkWorld (mkSpecStats (size_t (numRecords s - recordsRemoved))
                       (size_t (invertedSize s - bytesCollected)))
              (w_trees w) (w_repairs w) in
  let st := stats g in
  (set_stats g (mkGCStats (size_t (totalCollected st + bytesCollected))
                  (numCycles st) (effectiveCycles st)),
   w').

Definition log_repair (w : World) (uid blockNum : Z) : World :=
  mkWorld (w_stats w) (w_trees w) (w_repairs w ++ [(uid, blockNum)]).

(** One answer of the host to one turn of a repair loop: what [Repair]
    returns and collects, then, for the yield, the [uniqueId] of the spec
    the refreshed search context holds and whether the index is found
    again. *)
Record Round := mkRound {
  r_next : Z;
  r_docs : Z;
  r_bytes : Z;
  r_spec : Z;
  r_found : bool;
  (** numeric loop only: [num_gc->rt->revisionId] after the refresh *)
  r_revision : Z;
}.

(** The test [!sctx || sctx->spec->uniqueId != specUniqueId] on a search
    context whose spec has the [uniqueId] [seen].  [sctx] is the result of
    [new], and [Refresh] is called for its effect only, so [!sctx] is
    false wherever the test is made. *)
Definition spec_invalid (g : GarbageCollector) (seen : Z) : bool :=
  negb (seen =? specUniqueId g).

(** A turn of a repair loop after which the loop takes another turn:
    more blocks are left, the spec is the one of the member
    [specUniqueId], and the index is found again. *)
Definition goes_on (g : GarbageCollector) (r : Round) : Prop :=
  r_next r <> 0 /\ r_spec r = specUniqueId g /\ r_found r = true.

(** *** [CollectRandomTerm] *)

(** What the host answers to [CollectRandomTerm]. *)
Record TermEnv := mkTermEnv {
  te_spec : Z;
  te_term : option string;
  te_idx : bool;
  te_rounds : list Round;
}.

(** The [do ... while (idx != NULL)] loop; [uid] is the [uniqueId] of the
    spec in the search context.  The result is [totalRemoved] and the
    status. *)
Fixpoint CollectRandomTerm_loop (rounds : list Round) (uid blockNum totalRemoved status : Z)
    (g : GarbageCollector) (w : World) : Outcome (Z * Z * GarbageCollector * World) :=
  match rounds with
  | [] => Starved
  | r :: rest =>
      let w := log_repair w uid blockNum in
      let blockNum := r_next r in
      let totalRemoved := size_t (totalRemoved + r_docs r) in
      let '(g, w) := updateStats g w (r_docs r) (r_bytes r) in
      if blockNum =? 0 then Ret (totalRemoved, status, g, w)
      else if spec_invalid g (r_spec r)
      then Ret (totalRemoved, SPEC_STATUS_INVALID, g, w)
      else if r_found r
      then CollectRandomTerm_loop rest (r_spec r) blockNum totalRemoved status g w
      else Ret (totalRemoved, status, g, w)
  end.

Definition CollectRandomTerm (g : GarbageCollector) (w : World) (env : TermEnv)
    (status : Z) : Outcome (Z * Z * GarbageCollector * World) :=
  if spec_invalid g (te_spec env) then Ret (0, SPEC_STATUS_INVALID, g, w)
  else match te_term env with
       | None => Ret (0, status, g, w)
       | Some _ =>
           if te_idx env
           then CollectRandomTerm_loop (te_rounds env) (te_spec env) 0 0 status g w
           else Ret (0, status, g, w)
       end.

(** *** [NextGcNode] *)

(** [while (node = it->Next()) if (node->range) return node;]: the first
    node with a range and what is left of the iterator after it. *)
Fixpoint next_with_range (it : list NumericRangeNode)
    : option (NumericRangeNode * list NumericRangeNode) :=
  match it with
  | [] => None
  | n :: rest =>
      match node_range n with
      | Some _ => Some (n, rest)
      | None => next_with_range rest
      end
  end.

(** The [for (;;)] of [NextGcNode], with [fuel] turns at most; the number
    returned with the outcome counts the iterators made from the root. *)
Fixpoint NextGcNode_loop (fuel : nat) (trees : gmap Z NumericRangeTree)
    (ngc : NumericFieldGC) (runFromStart : bool) (made : nat)
    : Outcome (NumericRangeNode * NumericFieldGC) * nat :=
  match fuel with
  | O => (Starved, made)
  | S fuel' =>
      match next_with_range (gcIterator ngc) with
      | Some (n, rest) =>
          (Ret (n, mkNumericFieldGC (ngc_rt ngc) (ngc_revisionId ngc) rest), made)
      | None =>
          if runFromStart then (Throw "Second iterator should return result", made)
          else match trees !! ngc_rt ngc with
               | None => (Crash, made)
               | Some t =>
                   NextGcNode_loop fuel' trees
                     (mkNumericFieldGC (ngc_rt ngc) (ngc_revisionId ngc) (rt_nodes t))
                     true (S made)
               end
      end
  end.

(** Two turns are all the loop can take. *)
Definition NextGcNode (trees : gmap Z NumericRangeTree) (ngc : NumericFieldGC)
    : Outcome (NumericRangeNode * NumericFieldGC) :=
  (NextGcNode_loop 2 trees ngc false O).1.

(** *** [CollectNumericIndex] *)

(** [NumericFieldGC::NumericFieldGC(rt)] for the tree at the address. *)
Definition NumericFieldGC_new (trees : gmap Z NumericRangeTree) (addr : Z)
    : Outcome NumericFieldGC :=
  match trees !! addr with
  | None => Crash
  | Some t => Ret (mkNumericFieldGC addr (rt_revisionId t) (rt_nodes t))
  end.

(** The entry of the array is new for the field whose index opens at [o]:
    it views the tree at that address, with the revision the tree has and
    an iterator at the root. *)
Definition fresh_for (trees : gmap Z NumericRangeTree) (o : option Z)
    (ngc : NumericFieldGC) : Prop :=
  exists addr t, o = Some addr /\ trees !! addr = Some t /\
    ngc = mkNumericFieldGC addr (rt_revisionId t) (rt_nodes t).

(** What the host answers to [CollectNumericIndex]: the spec found, for
    each numeric field of the spec the address [OpenNumericIndex] returns
    ([None]: null), the value of [rand()], and the turns of the loop. *)
Record NumericEnv := mkNumericEnv {
  ne_spec : Z;
  ne_fields : list (option Z);
  ne_rand : Z;
  ne_rounds : list Round;
}.

(** The loop that fills the array again after [FreeNumericGCArray]. *)
Fixpoint rebuild_numericGC (trees : gmap Z NumericRangeTree) (opened : list (option Z))
    (acc : list NumericFieldGC) : Outcome (list NumericFieldGC) :=
  match opened with
  | [] => Ret acc
  | None :: _ => Throw "numeric index failed to open"
  | Some addr :: rest =>
      ngc ← NumericFieldGC_new trees addr ;;;
      rebuild_numericGC trees rest (acc ++ [ngc])
  end.

(** [if (numericFields.size() != array_len(numericGC)) { ... }] *)
Definition sync_numericGC (g : GarbageCollector) (w : World) (env : NumericEnv)
    : Outcome GarbageCollector :=
  if bool_decide (length (ne_fields env) <> length (numericGC g)) then
    if bool_decide (length (ne_fields env) <= length (numericGC g))%nat
    then Throw "it is not possible to remove fields"
    else
      arr ← rebuild_numericGC (w_trees w) (ne_fields env) [] ;;;
      Ret (set_numericGC g arr)
  else Ret g.

(** [num_gc->rt->numEntries -= docsCollected]. *)
Definition drop_entries (w : World) (addr docs : Z) : World :=
  mkWorld (w_stats w)
    (alter (fun t => mkNumericRangeTree (rt_revisionId t)
                       (size_t (rt_numEntries t - docs)) (rt_nodes t))
       addr (w_trees w))
    (w_repairs w).

(** The [for (;;)] over the blocks of the range of [nextNode]. *)
Fixpoint CollectNumericIndex_loop (rounds : list Round) (ngc : NumericFieldGC)
    (uid blockNum totalRemoved status : Z) (g : GarbageCollector) (w : World)
    : Outcome (Z * Z * GarbageCollector * World) :=
  match rounds with
  | [] => Starved
  | r :: rest =>
      let w := log_repair w uid blockNum in
      let blockNum := r_next r in
      let w := drop_entries w (ngc_rt ngc) (r_docs r) in
      let totalRemoved := size_t (totalRemoved + r_docs r) in
      let '(g, w) := updateStats g w (r_docs r) (r_bytes r) in
      if blockNum =? 0 then Ret (totalRemoved, status, g, w)
      else if spec_invalid g (r_spec r)
      then Ret (totalRemoved, SPEC_STATUS_INVALID, g, w)
      else if negb (ngc_revisionId ngc =? r_revision r)
      then Ret (totalRemoved, status, g, w)
      else CollectNumericIndex_loop rest ngc (r_spec r) blockNum
             totalRemoved status g w
  end.

(** [numericGC[randomIndex] = new NumericFieldGC(rt); delete num_gc;] *)
Definition renew_numericGC (g : GarbageCollector) (w : World) (randomIndex : nat)
    (rt : option Z) : Outcome (GarbageCollector * NumericFieldGC) :=
  match rt with
  | None => Crash
  | Some addr =>
      fresh ← NumericFieldGC_new (w_trees w) addr ;;;
      Ret (set_numericGC g (<[randomIndex := fresh]> (numericGC g)), fresh)
  end.

Definition CollectNumericIndex (g : GarbageCollector) (w : World) (env : NumericEnv)
    (status : Z) : Outcome (Z * Z * GarbageCollector * World) :=
  if spec_invalid g (ne_spec env) then Ret (0, SPEC_STATUS_INVALID, g, w)
  else if bool_decide (ne_fields env = []) then Ret (0, status, g, w)
  else
    g ← sync_numericGC g w env ;;;
    let randomIndex := Z.to_nat (ne_rand env mod Z.of_nat (length (numericGC g))) in
    match numericGC g !! randomIndex, ne_fields env !! randomIndex with
    | Some num_gc, Some rt =>
        (* [||] and [&&] do not read [num_gc->rt->revisionId] when the
           addresses differ *)
        '(g, num_gc) ←
          (if negb (bool_decide (Some (ngc_rt num_gc) = rt))
           then renew_numericGC g w randomIndex rt
           else
             match w_trees w !! ngc_rt num_gc with
             | None => Crash
             | Some t =>
                 if negb (ngc_revisionId num_gc =? rt_revisionId t) then
                   if rt_revisionId t <=? ngc_revisionId num_gc
                   then Throw "NumericRangeTree or revisionId are inncorrect"
                   else renew_numericGC g w randomIndex rt
                 else Ret (g, num_gc)
             end) ;;;
        '(nextNode, num_gc') ← NextGcNode (w_trees w) num_gc ;;;
        let g := set_numericGC g (<[randomIndex := num_gc']> (numericGC g)) in
        CollectNumericIndex_loop (ne_rounds env) num_gc' (ne_spec env)
          0 0 status g w
    | _, _ => Crash
    end.

(** *** [CollectTagIndex] *)

(** What the host answers to [CollectTagIndex]: the spec found, whether
    the spec has a tag field, whether its index opens, whether it holds a
    value, and the turns of the loop. *)
Record TagEnv := mkTagEnv {
  tg_spec : Z;
  tg_field : bool;
  tg_open : bool;
  tg_value : bool;
  tg_rounds : list Round;
}.

(** The [for (;;)] of [CollectTagIndex]; [r_found] stands for the two
    lookups after the yield, the tag index and the value in it. *)
Fixpoint CollectTagIndex_loop (rounds : list Round) (uid blockNum totalRemoved status : Z)
    (g : GarbageCollector) (w : World) : Outcome (Z * Z * GarbageCollector * World) :=
  match rounds with
  | [] => Starved
  | r :: rest =>
      let w := log_repair w uid blockNum in
      let blockNum := r_next r in
      let totalRemoved := size_t (totalRemoved + r_docs r) in
      let '(g, w) := updateStats g w (r_docs r) (r_bytes r) in
      if blockNum =? 0 then Ret (totalRemoved, status, g, w)
      else if spec_invalid g (r_spec r)
      then Ret (totalRemoved, SPEC_STATUS_INVALID, g, w)
      else if r_found r
      then CollectTagIndex_loop rest (r_spec r) blockNum totalRemoved status g w
      else Ret (totalRemoved, status, g, w)
  end.

Definition CollectTagIndex (g : GarbageCollector) (w : World) (env : TagEnv)
    (status : Z) : Outcome (Z * Z * GarbageCollector * World) :=
  if spec_invalid g (tg_spec env) then Ret (0, SPEC_STATUS_INVALID, g, w)
  else if negb (tg_field env) then Ret (0, status, g, w)
  else if negb (tg_open env) then Ret (0, status, g, w)
  else if negb (tg_value env) then Ret (0, status, g, w)
  else CollectTagIndex_loop (tg_rounds env) (tg_spec env) 0 0 status g w.

(** *** [PeriodicCallback] and [OnDelete] *)

Record PassEnv := mkPassEnv {
  isRdbLoading : bool;
  pe_term : TermEnv;
  pe_numeric : NumericEnv;
  pe_tag : TagEnv;
}.

(** The three collections of one pass: the sum of what they removed and
    the status they leave. *)
Definition collect_all (g : GarbageCollector) (w : World) (env : PassEnv)
    : Outcome (Z * Z * GarbageCollector * World) :=
  let totalRemoved := 0 in
  let status := SPEC_STATUS_OK in
  '(n1, status, g, w) ← CollectRandomTerm g w (pe_term env) status ;;;
  let totalRemoved := size_t (totalRemoved + n1) in
  '(n2, status, g, w) ← CollectNumericIndex g w (pe_numeric env) status ;;;
  let totalRemoved := size_t (totalRemoved + n2) in
  '(n3, status, g, w) ← CollectTagIndex g w (pe_tag env) status ;;;
  let totalRemoved := size_t (totalRemoved + n3) in
  Ret (totalRemoved, status, g, w).

(** The adaptation of the frequency at the end of a pass. *)
Definition adapt_hz (g : GarbageCollector) (totalRemoved : Z) : GarbageCollector :=
  if 0 <? totalRemoved
  then set_hz g (narrow (MIN (wmul (widen (hz g)) lit_1_2) GC_MAX_HZ))
  else set_hz g (narrow (MAX (wmul (widen (hz g)) lit_0_99) GC_MIN_HZ)).

Definition PeriodicCallback (g : GarbageCollector) (w : World) (env : PassEnv)
    : Outcome (bool * GarbageCollector * World) :=
  if rdbPossiblyLoading g && isRdbLoading env
  then Ret (true, g, w)
  else
    let g := if rdbPossiblyLoading g then set_rdbPossiblyLoading g false else g in
    '(totalRemoved, status, g, w) ← collect_all g w env ;;;
    let st := stats g in
    let g := set_stats g (mkGCStats (totalCollected st) (size_t (numCycles st + 1))
                            (size_t (effectiveCycles st
                                     + (if 0 <? totalRemoved then 1 else 0)))) in
    let g := adapt_hz g totalRemoved in
    Ret (status =? SPEC_STATUS_OK, g, w).

Definition OnDelete (g : GarbageCollector) : GarbageCollector :=
  set_hz g (narrow (MIN (wmul (widen (hz g)) lit_1_5) GC_MAX_HZ)).

End Collector.

(** ** A host and a schema to run the definitions on *)

Module Sample.

(** One assignment of the constants of the headers. *)
#[export] Instance headers : Headers := {|
  ACTX_B_SORTABLES := 0;
  ACTX_B_INDEXABLES := 1;
  ACTX_B_TEXTINDEXED := 2;
  ACTX_B_OTHERINDEXED := 3;
  ACTX_B_EMPTY := 6;
  ACTX_F_NOBLOCK := 32;
  INDEXFLD_T_FULLTEXT := 1;
  INDEXFLD_T_NUMERIC := 2;
  INDEXFLD_T_GEO := 4;
  INDEXFLD_T_TAG := 8;
  Document_HasOnDemandDeletable := 8;
  DOCUMENT_ADD_NOSAVE := 4;
  Index_StoreByteOffsets := 64;
  TOKENIZE_DEFAULT_OPTIONS := 0;
  TOKENIZE_NOSTEM := 1;
  TOKENIZE_PHONETICS := 2;
|}.

Definition digit (a : Ascii.ascii) : option Z :=
  let n := Z.of_nat (Ascii.nat_of_ascii a) in
  if (48 <=? n) && (n <=? 57) then Some (n - 48) else None.

(** The digits at the head of [s] appended to [acc]; [scale] is multiplied
    by ten for each of them. *)
Fixpoint take_digits (s : string) (acc : Z) (scale : positive) : Z * positive * string :=
  match s with
  | String a r =>
      match digit a with
      | Some x => take_digits r (10 * acc + x) (10 * scale)
      | None => (acc, scale, s)
      end
  | EmptyString => (acc, scale, s)
  end.

(** Decimal literals [-?digits(.digits)?] read exactly, as a rational. *)
Definition parse_decimal (s : string) : option Q :=
  let '(sign, s1) := match s with
                     | String "-"%char r => (-1, r)
                     | _ => (1, s)
                     end in
  let '(ip, sc1, s2) := take_digits s1 0 1 in
  if (sc1 =? 1)%positive then None
  else match s2 with
       | EmptyString => Some (Qmake (sign * ip) 1)
       | String "."%char r =>
           let '(m, sc, s3) := take_digits r ip 1 in
           match s3 with
           | EmptyString => if (sc =? 1)%positive then None else Some (Qmake (sign * m) sc)
           | String _ _ => None
           end
       | String _ _ => None
       end.

Fixpoint split_on (sep : Ascii.ascii) (s : string) : list string :=
  match s with
  | EmptyString => [EmptyString]
  | String a r =>
      if Ascii.eqb a sep then EmptyString :: split_on sep r
      else match split_on sep r with
           | w :: ws => String a w :: ws
           | [] => [String a EmptyString]
           end
  end.

Definition words (sep : Ascii.ascii) (s : string) : list string :=
  filter (fun w => w <> EmptyString) (split_on sep s).

#[export] Instance host : Host := {|
  double := Q;
  RedisModule_StringToDouble := parse_decimal;
  Token := string;
  tokenize := fun text _ =>
    let ws := words " "%char text in (ws, Z.of_nat (length ws));
  TagIndex_Tags := fun sep _ text =>
    match text with
    | Some t => words sep t
    | None => []
    end;
|}.

(** The schema of the first scenario of the spec:
    [title] full text and sortable, [price] numeric and sortable, [loc]
    geo, [tags] tag with separator [,]. *)
Definition fs_title : FieldSpec :=
  mkFieldSpec "title" 0 INDEXFLD_T_FULLTEXT true true false false 1 1 ","%char 0 0.
Definition fs_price : FieldSpec :=
  mkFieldSpec "price" 1 INDEXFLD_T_NUMERIC true true false false 0 0 ","%char 0 1.
Definition fs_loc : FieldSpec :=
  mkFieldSpec "loc" 2 INDEXFLD_T_GEO false true false false 0 0 ","%char 0 0.
Definition fs_tags : FieldSpec :=
  mkFieldSpec "tags" 3 INDEXFLD_T_TAG false true false false 0 0 ","%char 0 0.

Definition schema : IndexSpec :=
  mkIndexSpec
    (fun name =>
       find (fun fs => String.eqb (fs_name fs) name) [fs_title; fs_price; fs_loc; fs_tags])
    0 2 7.

(** The storage of a context before anything is assigned. *)
Definition raw : AddDocumentCtx :=
  mkAddDocumentCtx 0 (mkQueryError QUERY_OK None) [] ∅ None 0 0 None
    (mkDocument "doc1" 0 []) 0 [] [].

Definition field (name text : string) : DocumentField :=
  mkDocumentField name (Some text) 0.

Definition document (fl : list DocumentField) : Document := mkDocument "doc1" 0 fl.

(** An allocator whose new storage is never clean: after [reserve(n)] every
    one of the [n] slots holds the same leftover. *)
Definition leftover : FieldIndexerData :=
  mkFieldIndexerData (Some 7%Q) (Some 3%nat) (Some 5%nat) ["left"; "over"].

#[export] Instance allocator : Allocator := {|
  fdatas_reserve := fun n _ => list_to_map (zip (seq 0 n) (replicate n leftover));
|}.

(** Exact arithmetic on rationals for the frequency, with the bounds 1 and
    100. *)
#[export] Instance gc_num : GcNum := {|
  float := Q;
  wide := Q;
  widen := fun x => x;
  narrow := fun x => x;
  wmul := fun a b => Qred (a * b);
  wlt := fun a b => negb (Qle_bool b a);
  lit_1_2 := 1.2%Q;
  lit_0_99 := 0.99%Q;
  lit_1_5 := 1.5%Q;
  GC_MIN_HZ := 1%Q;
  GC_MAX_HZ := 100%Q;
|}.

(** The storage of a collector before it is constructed; the member
    [specUniqueId] holds 8. *)
Definition raw_gc : GarbageCollector :=
  mkGarbageCollector 0%Q EmptyString (mkGCStats 0 0 0) false false 8 [].

Definition world : World := mkWorld (mkSpecStats 100 1000) ∅ [].

(** What a caller sees of a run of [AddToIndexes]. *)
Definition observe (r : Outcome (RedisModuleStatus * AddDocumentCtx))
    : option (RedisModuleStatus * QueryErrorCode * list Event) :=
  match r with
  | Ret (st, c) => Some (st, code (status c), events c)
  | _ => None
  end.

End Sample.

(** ** The frequency in IEEE 754 arithmetic *)

Module Ieee.

(** The values of [float] (binary32) and of [double] (binary64), with the
    operations of the standard in the default rounding mode. *)
Definition binary64 (m e : Z) : SpecFloat.spec_float :=
  SpecFloat.binary_normalize 53 1024 m e false.

(** The conversions between the two formats: to [double] exactly, to
    [float] with rounding. *)
Definition to_double (x : SpecFloat.spec_float) : SpecFloat.spec_float :=
  match x with
  | SpecFloat.S754_finite s m e => SpecFloat.binary_round 53 1024 s m e
  | _ => x
  end.

Definition to_float (x : SpecFloat.spec_float) : SpecFloat.spec_float :=
  match x with
  | SpecFloat.S754_finite s m e => SpecFloat.binary_round 24 128 s m e
  | _ => x
  end.

(** The [double] nearest to the decimal literal [a / b]. *)
Definition literal (a b : Z) : SpecFloat.spec_float :=
  SpecFloat.SFdiv 53 1024 (binary64 a 0) (binary64 b 0).

(** The [float] of a whole number. *)
Definition of_Z (n : Z) : SpecFloat.spec_float := to_float (binary64 n 0).

(** The arithmetic of the frequency as C computes it, with the bounds 1
    and 100. *)
Definition gc_num : GcNum := {|
  float := SpecFloat.spec_float;
  wide := SpecFloat.spec_float;
  widen := to_double;
  narrow := to_float;
  wmul := SpecFloat.SFmul 53 1024;
  wlt := SpecFloat.SFltb;
  lit_1_2 := literal 12 10;
  lit_0_99 := literal 99 100;
  lit_1_5 := literal 3 2;
  GC_MIN_HZ := binary64 1 0;
  GC_MAX_HZ := binary64 100 0;
|}.

End Ieee.

(** ** Vocabulary of the properties of [AddToIndexes] *)

(** The members of the context a preprocessor does not write through
    [aCtx]: it writes the sort vector, the forward index, the byte offsets
    and the token count only. *)
Definition kept `{Headers} `{Host} (c c' : AddDocumentCtx) : Prop :=
  stateFlags c' = stateFlags c /\ events c' = events c /\
  fspecs c' = fspecs c /\ status c' = status c /\
  doc c' = doc c /\ fdatas c' = fdatas c.

(** The two codes a preprocessor sets. *)
Definition preprocessor_code (x : QueryErrorCode) : Prop :=
  x = QUERY_ENOTNUMERIC \/ x = QUERY_EGEOFORMAT.

(** What a handler that returns [ok] may have done to what it was handed:
    the status is untouched when it returns [true], and has received one of
    the two preprocessor codes through [SetCode] when it returns [false]. *)
Definition handled `{Headers} `{Host} (e e' : PreEnv) (ok : bool) : Prop :=
  kept (p_ctx e) (p_ctx e') /\
  f_indexAs (p_field e') = f_indexAs (p_field e) /\
  (if ok then p_status e' = p_status e
   else exists x, preprocessor_code x /\ p_status e' = SetCode (p_status e) x).

(** ** Further vocabulary of [SetDocument] *)

Section MoreVocabulary.
Context {hdr : Headers} {host : Host}.

(** A geo field: matched, indexable, indexed as geo. *)
Definition geo_field (sp : IndexSpec) (f : DocumentField) : bool :=
  match live sp f with
  | Some fs => IsIndexable fs && c_test (resolved fs f) INDEXFLD_T_GEO
  | None => false
  end.

(** The number of text fields of a document: what [numTextIndexable]
    counts. *)
Definition count_text (sp : IndexSpec) (fl : list DocumentField) : nat :=
  length (List.filter (text_field sp) fl).


End MoreVocabulary.

(** ** Further vocabulary of [AddToIndexes] *)

(** What a preprocessor needs to find in order to run without
    dereferencing a null pointer: the text of the field, and the sort
    vector when the spec is sortable. *)
Definition ready `{Headers} `{Host} (fs : FieldSpec) (e : PreEnv) : Prop :=
  is_Some (f_text (p_field e)) /\
  (IsSortable fs = true -> is_Some (sv (p_ctx e))).

(** What no handler changes of what it is handed. *)
Definition same_field (f f' : DocumentField) : Prop :=
  f_name f' = f_name f /\ f_indexAs f' = f_indexAs f /\
  (is_Some (f_text f) -> is_Some (f_text f')).

(** ** Vocabulary of the properties of the collector *)

Section CollectorVocabulary.
Context {num : GcNum}.

(** What a collection leaves of the collector as it was: all but the
    bytes collected and the array of the numeric fields. *)
Definition same_collector (g g' : GarbageCollector) : Prop :=
  hz g' = hz g /\ keyName g' = keyName g /\
  rdbPossiblyLoading g' = rdbPossiblyLoading g /\ noLockMode g' = noLockMode g /\
  specUniqueId g' = specUniqueId g /\
  numCycles (stats g') = numCycles (stats g) /\
  effectiveCycles (stats g') = effectiveCycles (stats g).

(** The books of a collection that reports [n] records removed: as
    [size_t] values, the records of the spec have gone down by [n], the
    inverted size of the spec has gone down by what the collector has
    added to its bytes collected, and every call of [Repair] was made on a
    spec whose [uniqueId] is the member [specUniqueId]. *)
Definition books (g : GarbageCollector) (w : World) (n : Z)
    (g' : GarbageCollector) (w' : World) : Prop :=
  size_t (numRecords (w_stats w) - numRecords (w_stats w')) = size_t n /\
  size_t (invertedSize (w_stats w) - invertedSize (w_stats w'))
  = size_t (totalCollected (stats g') - totalCollected (stats g)) /\
  exists new, w_repairs w' = w_repairs w ++ new /\
    Forall (fun p => p.1 = specUniqueId g) new.

(** A status is only ever moved to [INVALID]. *)
Definition status_moves (st st' : Z) : Prop :=
  st' = st \/ st' = SPEC_STATUS_INVALID.

(** The host's answers with another answer to [isRdbLoading]. *)
Definition with_loading (env : PassEnv) (loading : bool) : PassEnv :=
  mkPassEnv loading (pe_term env) (pe_numeric env) (pe_tag env).

End CollectorVocabulary.

Section CollectorVocabulary2.
Context {num : GcNum}.

(** What a collection does, from its entry to its end: on a spec that is
    not the one of the member it does nothing but set the status;
    otherwise it keeps the books. *)
Definition collects (g : GarbageCollector) (w : World) (seen : Z) (status : Z)
    (n st : Z) (g' : GarbageCollector) (w' : World) : Prop :=
  same_collector g g' /\ status_moves status st /\ books g w n g' w' /\ n = size_t n /\
  (spec_invalid g seen = true ->
   n = 0 /\ st = SPEC_STATUS_INVALID /\ g' = g /\ w' = w).

End CollectorVocabulary2.

(** ** [Document::GetField] *)

(** [tolower] of the C library, in the C locale. *)
Definition tolower (a : Ascii.ascii) : Ascii.ascii :=
  let n := Ascii.nat_of_ascii a in
  if (65 <=? n)%nat && (n <=? 90)%nat then Ascii.ascii_of_nat (n + 32) else a.

(** [*p]: the byte a pointer into the buffer points at; the buffer ends
    with the terminating [NUL]. *)
Definition byte_at (s : string) : Ascii.ascii :=
  match s with
  | EmptyString => NUL
  | String a _ => a
  end.

(** [strcasecmp(s1, s2)] of the C library: the difference of the first
    two bytes that differ once lowered, zero when the C strings agree up
    to case. *)
Fixpoint strcasecmp (s1 s2 : string) : Z :=
  let result := Z.of_nat (Ascii.nat_of_ascii (tolower (byte_at s1)))
                - Z.of_nat (Ascii.nat_of_ascii (tolower (byte_at s2))) in
  if negb (result =? 0) then result
  else match s1 with
       | EmptyString => result
       | String a r => if Ascii.eqb a NUL then result else strcasecmp r (str_drop 1 s2)
       end.

(** The loop of [Document::GetField] over the fields that are left. *)
Fixpoint Document_GetField_loop (fl : list DocumentField) (fieldName : string)
    : option DocumentField :=
  match fl with
  | [] => None
  | f :: rest =>
      if strcasecmp (f_name f) fieldName =? 0 then Some f
      else Document_GetField_loop rest fieldName
  end.

(** [Document::GetField(fieldName)]; [None] is a null [fieldName], and
    the null result. *)
Definition Document_GetField (d : Document) (fieldName : option string)
    : option DocumentField :=
  match fieldName with
  | None => None
  | Some name => Document_GetField_loop (fields d) name
  end.

(** A C string with every byte lowered. *)
Fixpoint lower (s : string) : string :=
  match s with
  | EmptyString => EmptyString
  | String a r => String (tolower a) (lower r)
  end.

(** ** [IndexBulkData]: the indexers of the field types *)

(** The constants of field_spec.h that [IndexBulkData::Add] switches on:
    the number of field types, the mask of a position, the position of a
    mask, and the four positions. *)
Class BulkHeaders := {
  INDEXFLD_NUM_TYPES : nat;
  INDEXTYPE_FROM_POS : nat -> Z;
  INDEXTYPE_TO_POS : Z -> nat;
  IXFLDPOS_FULLTEXT : nat;
  IXFLDPOS_NUMERIC : nat;
  IXFLDPOS_GEO : nat;
  IXFLDPOS_TAG : nat;
}.

(** What the host answers during one call of [Add]: the pointers
    [OpenNumericIndex] and [TagIndex::Open] return ([None] is null), the
    sizes [rt->Add] and [tidx->Index] return, and what
    [GeoIndex::AddStrings] returns.  Each is asked at most once in a call,
    for the loop visits every position once. *)
Record BulkHost := mkBulkHost {
  OpenNumericIndex : option Z;
  rt_Add : Z;
  TagIndex_Open : option Z;
  tidx_Index : Z;
  gi_AddStrings : RedisModuleStatus;
}.

Section Bulk.
Context {hdr : Headers} {bhdr : BulkHeaders} {host : Host}.

(** The calls that write into the indexes. *)
Inductive BulkCall : Type :=
| CallNumericAdd (rt docId : Z) (x : option double)
| CallTagIndex (tidx : Z) (tags : list string) (docId : Z)
| CallGeoAdd (docId : Z) (lon lat : option string).

(** [indexDatas] by position (a missing entry is a null pointer), the
    counters of the spec, the status the indexers are handed, and the
    calls made.  The key handles of [indexKeys], which the indexers only
    pass on to the host, are left out. *)
Record BulkState := mkBulkState {
  indexDatas : gmap nat Z;
  bk_stats : SpecStats;
  bk_status : QueryError;
  bk_calls : list BulkCall;
}.

(** [indexDatas[pos] = p]. *)
Definition store_data (pos : nat) (p : option Z) (m : gmap nat Z) : gmap nat Z :=
  match p with
  | Some x => <[pos := x]> m
  | None => delete pos m
  end.

(** [stats.invertedSize += sz; stats.numRecords++]. *)
Definition count_record (s : SpecStats) (sz : Z) : SpecStats :=
  mkSpecStats (size_t (numRecords s + 1)) (size_t (invertedSize s + sz)).

Definition numericIndexer (h : BulkHost) (docId : Z) (fdata : FieldIndexerData)
    (s : BulkState) : bool * BulkState :=
  let '(rt, s1) :=
    match indexDatas s !! INDEXTYPE_TO_POS INDEXFLD_T_NUMERIC with
    | Some rt => (Some rt, s)
    | None =>
        (OpenNumericIndex h,
         mkBulkState (store_data IXFLDPOS_NUMERIC (OpenNumericIndex h) (indexDatas s))
           (bk_stats s) (bk_status s) (bk_calls s))
    end in
  match rt with
  | None =>
      (false,
       mkBulkState (indexDatas s1) (bk_stats s1)
         (SetError (bk_status s1) QUERY_EGENERIC "Could not open numeric index for indexing")
         (bk_calls s1))
  | Some rt =>
      (true,
       mkBulkState (indexDatas s1) (count_record (bk_stats s1) (rt_Add h)) (bk_status s1)
         (bk_calls s1 ++ [CallNumericAdd rt docId (fd_numeric fdata)]))
  end.

Definition geoIndexer (h : BulkHost) (docId : Z) (field : DocumentField)
    (fdata : FieldIndexerData) (s : BulkState) : bool * BulkState :=
  let view off := o ← off; buf ← f_text field; Some (cstr_at buf o) in
  let s1 := mkBulkState (indexDatas s) (bk_stats s) (bk_status s)
              (bk_calls s ++ [CallGeoAdd docId (view (fd_geoSlon fdata))
                                (view (fd_geoSlat fdata))]) in
  match gi_AddStrings h with
  | REDISMODULE_ERR =>
      (false,
       mkBulkState (indexDatas s1) (bk_stats s1)
         (SetError (bk_status s1) QUERY_EGENERIC "Could not index geo value")
         (bk_calls s1))
  | REDISMODULE_OK => (true, s1)
  end.

Definition tagIndexer (h : BulkHost) (docId : Z) (fdata : FieldIndexerData)
    (s : BulkState) : bool * BulkState :=
  let '(tidx, s1) :=
    match indexDatas s !! IXFLDPOS_TAG with
    | Some tidx => (Some tidx, s)
    | None =>
        (TagIndex_Open h,
         mkBulkState (store_data IXFLDPOS_TAG (TagIndex_Open h) (indexDatas s))
           (bk_stats s) (bk_status s) (bk_calls s))
    end in
  match tidx with
  | None =>
      (false,
       mkBulkState (indexDatas s1) (bk_stats s1)
         (SetError (bk_status s1) QUERY_EGENERIC "Could not open tag index for indexing")
         (bk_calls s1))
  | Some tidx =>
      (true,
       mkBulkState (indexDatas s1) (count_record (bk_stats s1) (tidx_Index h)) (bk_status s1)
         (bk_calls s1 ++ [CallTagIndex tidx (fd_tags fdata) docId]))
  end.

(** The body of the loop of [Add] at the position [i].  The labels of a C
    [switch] are distinct, so the order in which they are tried is of no
    consequence. *)
Definition Add_turn (h : BulkHost) (docId : Z) (field : DocumentField)
    (fdata : FieldIndexerData) (i : nat) (s : BulkState) : bool * BulkState :=
  if c_test (f_indexAs field) (INDEXTYPE_FROM_POS i) then
    if bool_decide (i = IXFLDPOS_TAG) then tagIndexer h docId fdata s
    else if bool_decide (i = IXFLDPOS_NUMERIC) then numericIndexer h docId fdata s
    else if bool_decide (i = IXFLDPOS_GEO) then geoIndexer h docId field fdata s
    else if bool_decide (i = IXFLDPOS_FULLTEXT) then (true, s)
    else
      (false,
       mkBulkState (indexDatas s) (bk_stats s)
         (SetError (bk_status s) QUERY_EINVAL "BUG: invalid index type") (bk_calls s))
  else (true, s).

(** [for (i = ...; i < INDEXFLD_NUM_TYPES && rc; ++i)], with [n] positions
    left from [i] on. *)
Fixpoint Add_loop (h : BulkHost) (docId : Z) (field : DocumentField)
    (fdata : FieldIndexerData) (n i : nat) (s : BulkState) : bool * BulkState :=
  match n with
  | O => (true, s)
  | S n' =>
      let '(rc, s') := Add_turn h docId field fdata i s in
      if rc then Add_loop h docId field fdata n' (S i) s' else (false, s')
  end.

(** [IndexBulkData::Add]. *)
Definition IndexBulkData_Add (h : BulkHost) (docId : Z) (field : DocumentField)
    (fdata : FieldIndexerData) (s : BulkState) : bool * BulkState :=
  Add_loop h docId field fdata INDEXFLD_NUM_TYPES O s.

(** The calls that [numRecords] counts. *)
Definition counted (c : BulkCall) : bool :=
  match c with
  | CallNumericAdd _ _ _ | CallTagIndex _ _ _ => true
  | CallGeoAdd _ _ _ => false
  end.

(** Every position below [INDEXFLD_NUM_TYPES] is one of the four the
    switch names. *)
Definition positions_named : Prop :=
  forall i, (i < INDEXFLD_NUM_TYPES)%nat ->
    i = IXFLDPOS_TAG \/ i = IXFLDPOS_NUMERIC \/ i = IXFLDPOS_GEO \/ i = IXFLDPOS_FULLTEXT.

End Bulk.

(** ** Vocabulary of the properties of [IndexBulkData::Add] *)

Section BulkVocabulary.
Context {hdr : Headers} {bhdr : BulkHeaders} {host : Host}.

(** The status after one indexer, or after the default branch. *)
Definition bulk_status (i : nat) (s : BulkState) (ok : bool) (s' : BulkState) : Prop :=
  if ok then bk_status s' = bk_status s
  else exists c msg,
    bk_status s' = SetError (bk_status s) c msg /\
    (c = QUERY_EGENERIC \/
     c = QUERY_EINVAL /\ i <> IXFLDPOS_TAG /\ i <> IXFLDPOS_NUMERIC /\
     i <> IXFLDPOS_GEO /\ i <> IXFLDPOS_FULLTEXT).

(** The calls and the counters after one turn. *)
Definition bulk_records (s s' : BulkState) : Prop :=
  exists new,
    bk_calls s' = bk_calls s ++ new /\
    size_t (numRecords (bk_stats s') - numRecords (bk_stats s))
    = size_t (Z.of_nat (length (List.filter counted new))) /\
    (List.filter counted new = [] -> bk_stats s' = bk_stats s).

(** The numeric index that is open, and the inserts into it. *)
Definition bulk_numeric (rt : Z) (s s' : BulkState) : Prop :=
  indexDatas s' !! IXFLDPOS_NUMERIC = Some rt /\
  exists new,
    bk_calls s' = bk_calls s ++ new /\
    forall rt' d x, CallNumericAdd rt' d x ∈ new -> rt' = rt.

End BulkVocabulary.

(** One assignment of the constants of field_spec.h, in line with the
    masks of [Sample.headers], and a bulk in which nothing is open. *)
Module SampleBulk.

#[export] Instance bulk_headers : BulkHeaders := {|
  INDEXFLD_NUM_TYPES := 4;
  INDEXTYPE_FROM_POS := fun i => Z.shiftl 1 (Z.of_nat i);
  INDEXTYPE_TO_POS := fun m => Z.to_nat (Z.log2 m);
  IXFLDPOS_FULLTEXT := 0;
  IXFLDPOS_NUMERIC := 1;
  IXFLDPOS_GEO := 2;
  IXFLDPOS_TAG := 3;
|}.

Definition bulk : BulkState (host := Sample.host) :=
  mkBulkState ∅ (mkSpecStats 100 1000) (mkQueryError QUERY_OK None) [].

End SampleBulk.

(** ** Vocabulary of the byte offsets *)

(** The regions tile the token positions from [start] to [stop]: each
    begins one past the end of the one before it. *)
Fixpoint chained (start : Z) (regions : list (Z * Z * Z)) (stop : Z) : Prop :=
  match regions with
  | [] => stop = start
  | (_, a, b) :: rest => a = start + 1 /\ chained b rest stop
  end.

(** The turn of [AddToIndexes] for the field [ff] under the entry [fs] of
    [fspecs] calls [byteOffsets->AddField]. *)
Definition writes_region `{Headers} (fs : FieldSpec) (ff : DocumentField) : bool :=
  negb (bool_decide (fs_name fs = EmptyString))
  && CheckIdx ff INDEXFLD_T_FULLTEXT && IsIndexable fs.

(** The number of calls of [AddField] the loop can make from a position
    on, given the entries of [fspecs] and the fields from there. *)
Fixpoint regions_bound `{Headers} (specs : list FieldSpec) (fl : list DocumentField) : nat :=
  match specs, fl with
  | fs :: specs', ff :: fl' =>
      ((if writes_region fs ff then 1 else 0) + regions_bound specs' fl')%nat
  | _, _ => O
  end.

(** What a stretch of [AddToIndexes] does to the byte offsets: at most
    [k] regions are added behind those that are there, and they tile the
    token positions from the old token count to the new one. *)
Definition offsets_step `{Headers} `{Host} (c c' : AddDocumentCtx) (k : nat) : Prop :=
  match byteOffsets c with
  | Some (cap, regions) =>
      exists new,
        byteOffsets c' = Some (cap, regions ++ new) /\
        (length new <= k)%nat /\
        chained (totalTokens c) new (totalTokens c')
  | None => byteOffsets c' = None
  end.

(** ** What [AddToIndexes] needs in place *)

Section Prepared.
Context {hdr : Headers} {host : Host}.

(** The field [ff] can be preprocessed under the entry [fs] of [fspecs]:
    under a spec with a name its text is there, and the sort vector is
    there when the spec is sortable. *)
Definition prepared_field (c : AddDocumentCtx) (fs : FieldSpec) (ff : DocumentField)
    : bool :=
  bool_decide (fs_name fs = EmptyString)
  || (bool_decide (is_Some (f_text ff))
      && (negb (IsSortable fs) || bool_decide (is_Some (sv c)))).

Fixpoint prepared_from (c : AddDocumentCtx) (i : nat) (fl : list DocumentField) : bool :=
  match fl with
  | [] => true
  | ff :: rest =>
      match fspecs c !! i with
      | None => false
      | Some fs => prepared_field c fs ff && prepared_from c (S i) rest
      end
  end.

(** Every field of the document of the context finds its entry of
    [fspecs] and can be preprocessed under it: what a successful
    [SetDocument] on a new context leaves. *)
Definition prepared (c : AddDocumentCtx) : bool :=
  prepared_from c O (fields (doc c)).

(** The field fails in a preprocessor: it is indexed as numeric and the
    host does not parse its text, or it is indexed as geo and its text has
    neither a space nor a comma. *)
Definition fails_numeric (ff : DocumentField) (t : string) : Prop :=
  CheckIdx ff INDEXFLD_T_NUMERIC = true /\ RedisModule_StringToDouble t = None.

Definition fails_geo (ff : DocumentField) (t : string) : Prop :=
  CheckIdx ff INDEXFLD_T_GEO = true /\ strpbrk t " ," = None.

End Prepared.

(** ** The calls of [SetDocument] *)

Section Calls.
Context {hdr : Headers} {host : Host} {alloc : Allocator}.

(** The context on which the constructor calls [SetDocument]: the storage
    of the new object once [stateFlags], [status], [totalTokens] and
    [docFlags] are assigned. *)
Definition AddDocumentCtx_new_entry (raw : AddDocumentCtx) : AddDocumentCtx :=
  let c := set_stateFlags raw 0 in
  let c := set_status c (ClearError (status c)) in
  let c := set_totalTokens c 0 in
  set_docFlags c 0.

(** The context on which [ReplaceMerge] calls [SetDocument] once the
    document is loaded: the fields of its document are the loaded ones. *)
Definition ReplaceMerge_entry (c : AddDocumentCtx) (fl : list DocumentField)
    : AddDocumentCtx :=
  let c := set_doc c (with_fields (doc c) []) in
  set_doc c (with_fields (doc c) fl).

(** The context the constructor returns, when it returns one. *)
Definition returns_context (r : Outcome AddDocumentCtx + QueryError) : bool :=
  match r with
  | inl (Ret _) => true
  | _ => false
  end.

Definition constructed (r : Outcome AddDocumentCtx + QueryError)
    (otherwise : AddDocumentCtx) : AddDocumentCtx :=
  match r with
  | inl (Ret c) => c
  | _ => otherwise
  end.


End Calls.

(* ===================================================================== *)
(** * Part II: properties                                                 *)
(* ===================================================================== *)

(** ** Flag words *)

Lemma testbit_bit b n : 0 <= b -> Z.testbit (bit b) n = bool_decide (n = b).
Proof.
  intros Hb. unfold bit. rewrite Z.shiftl_1_l.
  case_bool_decide as E.
  - subst. apply Z.pow2_bits_true; lia.
  - apply Z.pow2_bits_false; lia.
Qed.

Lemma land_bit f b :
  0 <= b -> Z.land f (bit b) = if Z.testbit f b then bit b else 0.
Proof.
  intros Hb. apply Z.bits_inj'. intros n Hn.
  rewrite Z.land_spec, testbit_bit by lia.
  case_bool_decide as E.
  - subst n. destruct (Z.testbit f b).
    + rewrite testbit_bit, bool_decide_eq_true_2 by lia. reflexivity.
    + rewrite Z.bits_0. reflexivity.
  - rewrite andb_false_r. destruct (Z.testbit f b).
    + rewrite testbit_bit, bool_decide_eq_false_2 by lia. reflexivity.
    + rewrite Z.bits_0. reflexivity.
Qed.

Lemma c_test_bit f b : 0 <= b -> c_test f (bit b) = Z.testbit f b.
Proof.
  intros Hb. unfold c_test. rewrite land_bit by lia.
  destruct (Z.testbit f b); [|reflexivity].
  unfold bit. rewrite Z.shiftl_1_l.
  destruct (Z.eqb_spec (2 ^ b) 0) as [E|E]; [|reflexivity].
  pose proof (Z.pow_pos_nonneg 2 b). lia.
Qed.

Lemma testbit_c_set f b n :
  0 <= b -> Z.testbit (c_set f (bit b)) n = Z.testbit f n || bool_decide (n = b).
Proof. intros. unfold c_set. rewrite Z.lor_spec, testbit_bit by lia. reflexivity. Qed.

Lemma testbit_c_clear f b n :
  0 <= b -> 0 <= n ->
  Z.testbit (c_clear f (bit b)) n = Z.testbit f n && negb (bool_decide (n = b)).
Proof.
  intros. unfold c_clear. rewrite Z.land_spec, Z.lnot_spec, testbit_bit by lia.
  reflexivity.
Qed.

Lemma c_set_idem f m : c_set (c_set f m) m = c_set f m.
Proof. unfold c_set. rewrite <- Z.lor_assoc. f_equal. apply Z.lor_diag. Qed.

(** ** [SetDocument]: what [reserve] may change *)

Section SetDocumentReserve.
Context {hdr : Headers} {host : Host} {alloc : Allocator}.

(** [reserve] writes no member but the slots of [fdatas]. *)
Lemma SetDocument_reserve_frame c d n :
  SetDocument_reserve c d n = set_fdatas c (fdatas (SetDocument_reserve c d n)).
Proof. unfold SetDocument_reserve. destruct (n <? NumFields d)%nat; by destruct c. Qed.

(** The body of [SetDocument], with the slots [reserve] leaves named
    once. *)
Lemma SetDocument_eq c sp d n :
  SetDocument c sp d n =
  let c1 := set_stateFlags c (c_clear (stateFlags c) ACTX_F_INDEXABLES) in
  let c2 := set_stateFlags c1 (c_clear (stateFlags c1) ACTX_F_TEXTINDEXED) in
  let c3 := set_stateFlags c2 (c_clear (stateFlags c2) ACTX_F_OTHERINDEXED) in
  let c4 := set_fdatas c3
              (zero_tags (NumFields d) (fdatas (SetDocument_reserve c d n))) in
  let '(ok, c5, l, fl) :=
    SetDocument_loop sp (fields d) c4 (mkSetDocLocals O ∅ false false) in
  let d' := with_fields d fl in
  if ok then (true, SetDocument_finish sp d' c5 l, d')
  else (false, c5, d').
Proof.
  unfold SetDocument, SetDocument_reserve.
  destruct (n <? NumFields d)%nat; reflexivity.
Qed.

End SetDocumentReserve.

(** ** [SetDocument]: how the flag word moves *)

Section SetDocumentFlags.
Context {hdr : Headers} {hdr_ok : HeadersOk} {host : Host} {alloc : Allocator}.

Lemma bits_nonneg :
  0 <= ACTX_B_SORTABLES /\ 0 <= ACTX_B_TEXTINDEXED /\ 0 <= ACTX_B_OTHERINDEXED /\
  0 <= ACTX_B_INDEXABLES /\ 0 <= ACTX_B_EMPTY.
Proof.
  pose proof actx_bits_nonneg as N. unfold actx_bits in N.
  repeat (apply Forall_cons in N; destruct N as [? N]). tauto.
Qed.

Lemma bits_distinct :
  ACTX_B_SORTABLES <> ACTX_B_TEXTINDEXED /\ ACTX_B_SORTABLES <> ACTX_B_OTHERINDEXED /\
  ACTX_B_SORTABLES <> ACTX_B_INDEXABLES /\ ACTX_B_SORTABLES <> ACTX_B_EMPTY /\
  ACTX_B_TEXTINDEXED <> ACTX_B_OTHERINDEXED /\ ACTX_B_TEXTINDEXED <> ACTX_B_INDEXABLES /\
  ACTX_B_TEXTINDEXED <> ACTX_B_EMPTY /\ ACTX_B_OTHERINDEXED <> ACTX_B_INDEXABLES /\
  ACTX_B_OTHERINDEXED <> ACTX_B_EMPTY /\ ACTX_B_INDEXABLES <> ACTX_B_EMPTY.
Proof.
  pose proof actx_bits_distinct as D. unfold actx_bits in D.
  apply NoDup_cons in D as [D1 D]. apply NoDup_cons in D as [D2 D].
  apply NoDup_cons in D as [D3 D]. apply NoDup_cons in D as [D4 _].
  clear -D1 D2 D3 D4. set_solver.
Qed.

(** One turn of the field loop that goes on. *)
Lemma SetDocument_field_ok sp f c l c' l' f' :
  SetDocument_field sp f c l = (true, c', l', f') ->
  f' = resolve sp f /\
  hasTextFields l' = hasTextFields l || text_field sp f /\
  hasOtherFields l' = hasOtherFields l || other_field sp f /\
  dedupe l' = match live sp f with
              | Some fs => {[fs_index fs]} ∪ dedupe l
              | None => dedupe l
              end /\
  stateFlags c' = (if sortable_field sp f
                   then c_set (stateFlags c) ACTX_F_SORTABLES
                   else stateFlags c) /\
  fspecs c' = fspecs c ++ [spec_of sp f] /\
  sv c' = sv c /\ status c' = status c /\ options c' = options c /\
  conforms sp f /\
  (forall fs, live sp f = Some fs -> fs_index fs ∉ dedupe l).
Proof.
  unfold SetDocument_field, classify, resolve, text_field, other_field,
    sortable_field, spec_of, conforms, live, resolved, mask_subset, CheckIdx, IsSortable.
  intros E. destruct f as [nm tx ia]; simpl in *.
  repeat case_match; simplify_eq/=;
    repeat match goal with
           | X : bool_decide _ = false |- _ => apply bool_decide_eq_false_1 in X
           | X : (_ =? _) = true |- _ => apply Z.eqb_eq in X
           | X : negb _ = false |- _ => apply negb_false_iff in X
           end;
    rewrite ?orb_true_r, ?orb_false_r;
    repeat split; try done; try (intros; simplify_eq; auto; done).
Qed.

(** One turn of the field loop that returns [false]. *)
Lemma SetDocument_field_fail sp f c l c' l' f' :
  SetDocument_field sp f c l = (false, c', l', f') ->
  f' = f /\
  exists fs, live sp f = Some fs /\
    fspecs c' = fspecs c ++ [fs] /\ sv c' = sv c /\ options c' = options c /\
    (stateFlags c' = stateFlags c \/
     stateFlags c' = c_set (stateFlags c) ACTX_F_SORTABLES) /\
    ((fs_index fs ∈ dedupe l /\
      status c' = SetError (status c) QUERY_EDUPFIELD (msg_dupfield (fs_name fs)))
     \/
     ((fs_index fs ∉ dedupe l) /\ f_indexAs f <> 0 /\
      ~ mask_subset (f_indexAs f) (fs_types fs) /\
      status c' = SetError (status c) QUERY_EUNSUPPTYPE (msg_unsupptype (fs_name fs)))).
Proof.
  unfold SetDocument_field, classify, live, mask_subset, SetErrorFmt,
    msg_dupfield, msg_unsupptype, IsSortable.
  intros E. destruct f as [nm tx ia]; simpl in *.
  repeat case_match; simplify_eq/=; split; try done;
    eexists; (split; [reflexivity|]); simpl;
    repeat match goal with
           | X : bool_decide _ = false |- _ => apply bool_decide_eq_false_1 in X
           | X : bool_decide _ = true |- _ => apply bool_decide_eq_true_1 in X
           | X : (_ =? _) = false |- _ => apply Z.eqb_neq in X
           | X : negb _ = true |- _ => apply negb_true_iff in X
           end;
    repeat split; auto.
Qed.

Lemma live_indexes_cons sp f fl :
  live_indexes sp (f :: fl) =
  match live sp f with
  | Some fs => fs_index fs :: live_indexes sp fl
  | None => live_indexes sp fl
  end.
Proof. unfold live_indexes. simpl. destruct (live sp f); reflexivity. Qed.

Lemma live_indexes_app sp fl1 fl2 :
  live_indexes sp (fl1 ++ fl2) = live_indexes sp fl1 ++ live_indexes sp fl2.
Proof. unfold live_indexes. apply omap_app. Qed.

Lemma accepted_nil sp seen : accepted sp seen [].
Proof.
  unfold accepted, live_indexes. simpl. split; [constructor|].
  split; [intros i Hi; inversion Hi | constructor].
Qed.

Lemma accepted_cons sp seen f fl :
  accepted sp seen (f :: fl) <->
  conforms sp f /\
  (forall fs, live sp f = Some fs -> fs_index fs ∉ seen) /\
  accepted sp (match live sp f with
               | Some fs => {[fs_index fs]} ∪ seen
               | None => seen
               end) fl.
Proof.
  unfold accepted. rewrite live_indexes_cons, Forall_cons.
  destruct (live sp f) as [fs|] eqn:L.
  - rewrite NoDup_cons. split.
    + intros ((Hn & Hnd) & Hs & Hc & Hf). repeat split; try done.
      * intros fs' [= <-]. apply Hs. left.
      * intros i Hi. specialize (Hs i). set_solver.
    + intros (Hc & Hs & Hnd & Hs' & Hf). repeat split; try done.
      * intros Hin. specialize (Hs' _ Hin). set_solver.
      * intros i Hi. apply elem_of_cons in Hi as [->|Hi]; [by apply Hs|].
        specialize (Hs' _ Hi). set_solver.
  - split.
    + intros (Hnd & Hs & Hc & Hf). repeat split; try done.
    + intros (Hc & _ & Hnd & Hs & Hf). repeat split; done.
Qed.

(** The field loop when it runs to the end. *)
Lemma SetDocument_loop_ok sp fl : forall c l c' l' fl',
  SetDocument_loop sp fl c l = (true, c', l', fl') ->
  fl' = map (resolve sp) fl /\
  hasTextFields l' = hasTextFields l || existsb (text_field sp) fl /\
  hasOtherFields l' = hasOtherFields l || existsb (other_field sp) fl /\
  dedupe l' = list_to_set (live_indexes sp fl) ∪ dedupe l /\
  stateFlags c' = (if existsb (sortable_field sp) fl
                   then c_set (stateFlags c) ACTX_F_SORTABLES
                   else stateFlags c) /\
  fspecs c' = fspecs c ++ map (spec_of sp) fl /\
  sv c' = sv c /\ status c' = status c /\ options c' = options c /\
  accepted sp (dedupe l) fl.
Proof.
  induction fl as [|f fl IH]; intros c l c' l' fl' E; simpl in E.
  - simplify_eq. simpl. rewrite !orb_false_r, app_nil_r.
    split_and!; try done; [set_solver | apply accepted_nil].
  - destruct (SetDocument_field sp f c l) as [[[ok c1] l1] f1] eqn:E1.
    destruct ok; [|by simplify_eq].
    destruct (SetDocument_loop sp fl c1 l1) as [[[ok2 c2] l2] fl2] eqn:E2.
    simplify_eq.
    apply SetDocument_field_ok in E1
      as (-> & Ht & Ho & Hd & Hf & Hs & Hsv & Hst & Hop & Hc & Hn).
    apply IH in E2 as (-> & Ht2 & Ho2 & Hd2 & Hf2 & Hs2 & Hsv2 & Hst2 & Hop2 & Ha).
    rewrite Ht2, Ho2, Hd2, Hf2, Hs2, Hsv2, Hst2, Hop2, Ht, Ho, Hd, Hf, Hs, Hsv, Hst, Hop.
    rewrite live_indexes_cons. simpl.
    split_and!; try done.
    + by rewrite orb_assoc.
    + by rewrite orb_assoc.
    + destruct (live sp f); simpl; set_solver.
    + destruct (sortable_field sp f), (existsb (sortable_field sp) fl); simpl; try done.
      apply c_set_idem.
    + by rewrite <- app_assoc.
    + apply accepted_cons. rewrite Hd in Ha. done.
Qed.

Lemma SetDocument_loop_app sp pre rest : forall c l c1 l1 pre',
  SetDocument_loop sp pre c l = (true, c1, l1, pre') ->
  SetDocument_loop sp (pre ++ rest) c l =
  (let '(ok, c', l', rest') := SetDocument_loop sp rest c1 l1 in
   (ok, c', l', pre' ++ rest')).
Proof.
  induction pre as [|f pre IH]; intros c l c1 l1 pre' E; simpl in E |- *.
  - simplify_eq. simpl. by destruct (SetDocument_loop sp rest c1 l1) as [[[? ?] ?] ?].
  - destruct (SetDocument_field sp f c l) as [[[ok c2] l2] f2] eqn:E1.
    destruct ok; [|by simplify_eq].
    destruct (SetDocument_loop sp pre c2 l2) as [[[ok3 c3] l3] fl3] eqn:E3.
    simplify_eq. rewrite (IH _ _ _ _ _ E3).
    by destruct (SetDocument_loop sp rest c1 l1) as [[[? ?] ?] ?].
Qed.

(** The loop runs through every field it accepts. *)
Lemma SetDocument_loop_accepted sp fl : forall c l,
  accepted sp (dedupe l) fl ->
  exists c' l', SetDocument_loop sp fl c l = (true, c', l', map (resolve sp) fl).
Proof.
  induction fl as [|f fl IH]; intros c l Ha; simpl.
  - eauto.
  - apply accepted_cons in Ha as (Hc & Hn & Ha).
    destruct (SetDocument_field sp f c l) as [[[ok c1] l1] f1] eqn:E1.
    destruct ok.
    + apply SetDocument_field_ok in E1 as (-> & _ & _ & Hd & _).
      rewrite <- Hd in Ha. destruct (IH c1 l1 Ha) as (c' & l' & ->). eauto.
    + exfalso. apply SetDocument_field_fail in E1 as (_ & fs & L & _ & _ & _ & _ & Hr).
      destruct Hr as [[Hin _]|(_ & Hz & Hm & _)].
      * by apply (Hn fs L).
      * destruct (Hc fs L); done.
Qed.


Lemma flag_if_bits c k v b :
  0 <= k -> 0 <= b ->
  Z.testbit (stateFlags (flag_if c (bit k) v)) b =
  if bool_decide (b = k) then v else Z.testbit (stateFlags c) b.
Proof.
  intros Hk Hb. unfold flag_if. destruct v; simpl.
  - rewrite testbit_c_set by lia. case_bool_decide; [apply orb_true_r|apply orb_false_r].
  - rewrite testbit_c_clear by lia.
    case_bool_decide; [apply andb_false_r|apply andb_true_r].
Qed.

Lemma flag_if_rest c m v :
  sv (flag_if c m v) = sv c /\ status (flag_if c m v) = status c.
Proof. unfold flag_if. by destruct v. Qed.

Lemma SetDocument_derive_bits c l b :
  0 <= b ->
  Z.testbit (stateFlags (SetDocument_derive c l)) b =
  if bool_decide (b = ACTX_B_INDEXABLES) then hasTextFields l || hasOtherFields l
  else if bool_decide (b = ACTX_B_TEXTINDEXED) then negb (hasTextFields l)
  else if bool_decide (b = ACTX_B_OTHERINDEXED) then negb (hasOtherFields l)
  else Z.testbit (stateFlags c) b.
Proof.
  intros Hb.
  pose proof bits_nonneg as (N1 & N2 & N3 & N4 & N5).
  pose proof bits_distinct as (D1 & D2 & D3 & D4 & D5 & D6 & D7 & D8 & D9 & D10).
  unfold SetDocument_derive, ACTX_F_INDEXABLES, ACTX_F_TEXTINDEXED, ACTX_F_OTHERINDEXED.
  rewrite !flag_if_bits by lia.
  repeat case_bool_decide; subst; done.
Qed.

Lemma SetDocument_derive_rest c l :
  sv (SetDocument_derive c l) = sv c /\ status (SetDocument_derive c l) = status c.
Proof.
  unfold SetDocument_derive.
  split; repeat (rewrite (proj1 (flag_if_rest _ _ _)) || rewrite (proj2 (flag_if_rest _ _ _)));
    done.
Qed.

Lemma SetDocument_finish_status sp d c l :
  status (SetDocument_finish sp d c l) = status c.
Proof.
  unfold SetDocument_finish, SetDocument_offsets, SetDocument_empty, SetDocument_sv.
  simpl. repeat (case_match; simpl); apply SetDocument_derive_rest.
Qed.

Lemma SetDocument_finish_sv sp d c l :
  sv (SetDocument_finish sp d c l) =
  if Z.testbit (stateFlags c) ACTX_B_SORTABLES && bool_decide (sv c = None)
  then Some (RSSortingVector_new (sortables_len sp)) else sv c.
Proof.
  pose proof bits_nonneg as (N1 & N2 & N3 & N4 & N5).
  pose proof bits_distinct as (D1 & D2 & D3 & D4 & D5 & D6 & D7 & D8 & D9 & D10).
  assert (ES : c_test (stateFlags (SetDocument_derive c l)) ACTX_F_SORTABLES
               = Z.testbit (stateFlags c) ACTX_B_SORTABLES).
  { unfold ACTX_F_SORTABLES. rewrite c_test_bit, SetDocument_derive_bits by lia.
    by rewrite !bool_decide_eq_false_2 by congruence. }
  unfold SetDocument_finish, SetDocument_offsets, SetDocument_empty, SetDocument_sv.
  rewrite ES, (proj1 (SetDocument_derive_rest c l)).
  destruct (_ && _); simpl; repeat (case_match; simpl); try done;
    apply SetDocument_derive_rest.
Qed.

Lemma SetDocument_finish_bits sp d c l b :
  0 <= b ->
  Z.testbit (stateFlags (SetDocument_finish sp d c l)) b =
  if bool_decide (b = ACTX_B_INDEXABLES) then hasTextFields l || hasOtherFields l
  else if bool_decide (b = ACTX_B_TEXTINDEXED) then negb (hasTextFields l)
  else if bool_decide (b = ACTX_B_OTHERINDEXED) then negb (hasOtherFields l)
  else if bool_decide (b = ACTX_B_EMPTY) then
    Z.testbit (stateFlags c) b
    || (bool_decide (sv (SetDocument_finish sp d c l) = None)
        && negb (hasTextFields l) && negb (hasOtherFields l))
  else Z.testbit (stateFlags c) b.
Proof.
  intros Hb.
  pose proof bits_nonneg as (N1 & N2 & N3 & N4 & N5).
  pose proof bits_distinct as (D1 & D2 & D3 & D4 & D5 & D6 & D7 & D8 & D9 & D10).
  assert (Esv : sv (SetDocument_finish sp d c l)
                = sv (SetDocument_sv sp (SetDocument_derive c l))).
  { unfold SetDocument_finish, SetDocument_offsets, SetDocument_empty.
    simpl. repeat (case_match; simpl); done. }
  rewrite Esv. clear Esv.
  unfold SetDocument_finish, SetDocument_offsets, SetDocument_empty.
  set (c4 := SetDocument_sv sp (SetDocument_derive c l)).
  assert (E4 : stateFlags c4 = stateFlags (SetDocument_derive c l)).
  { unfold c4, SetDocument_sv. by destruct (_ && _). }
  assert (Eb : Z.testbit
                 (stateFlags
                    (if bool_decide (sv c4 = None) && negb (hasTextFields l)
                        && negb (hasOtherFields l)
                     then set_stateFlags c4 (c_set (stateFlags c4) ACTX_F_EMPTY)
                     else c4)) b
               = Z.testbit (stateFlags c4) b
                 || (bool_decide (b = ACTX_B_EMPTY)
                     && (bool_decide (sv c4 = None) && negb (hasTextFields l)
                         && negb (hasOtherFields l)))).
  { destruct (_ && _ && _); simpl.
    - unfold ACTX_F_EMPTY. rewrite testbit_c_set by lia. by rewrite andb_true_r.
    - by rewrite andb_false_r, orb_false_r. }
  simpl. destruct (_ && _ && c_test _ _); simpl; rewrite Eb, E4, SetDocument_derive_bits by lia;
    repeat case_bool_decide; subst; simpl;
    rewrite ?orb_false_r; try done; try congruence.
Qed.

(** The bits of the flag word after a successful [SetDocument]. *)
Lemma SetDocument_ok_bits c sp d n c' d' :
  SetDocument c sp d n = (true, c', d') ->
  let text := existsb (text_field sp) (fields d) in
  let other := existsb (other_field sp) (fields d) in
  let srt := Z.testbit (stateFlags c) ACTX_B_SORTABLES
             || existsb (sortable_field sp) (fields d) in
  d' = with_fields d (map (resolve sp) (fields d)) /\
  accepted sp ∅ (fields d) /\
  status c' = status c /\
  sv c' = (if srt && bool_decide (sv c = None)
           then Some (RSSortingVector_new (sortables_len sp)) else sv c) /\
  forall b, 0 <= b ->
    Z.testbit (stateFlags c') b =
    if bool_decide (b = ACTX_B_INDEXABLES) then text || other
    else if bool_decide (b = ACTX_B_TEXTINDEXED) then negb text
    else if bool_decide (b = ACTX_B_OTHERINDEXED) then negb other
    else if bool_decide (b = ACTX_B_SORTABLES) then srt
    else if bool_decide (b = ACTX_B_EMPTY) then
      Z.testbit (stateFlags c) b
      || (bool_decide (sv c' = None) && negb text && negb other)
    else Z.testbit (stateFlags c) b.
Proof.
  intros E. rewrite SetDocument_eq in E; cbv zeta in E.
  destruct (SetDocument_loop _ _ _ _) as [[[ok c5] l5] fl5] eqn:EL.
  destruct ok; [|done]. simplify_eq.
  apply SetDocument_loop_ok in EL
    as (-> & Ht & Ho & _ & Hf & _ & Hsv & Hst & _ & Ha).
  simpl in Ht, Ho, Hf, Hsv, Hst, Ha.
  pose proof bits_nonneg as (N1 & N2 & N3 & N4 & N5).
  pose proof bits_distinct as (D1 & D2 & D3 & D4 & D5 & D6 & D7 & D8 & D9 & D10).
  assert (F5 : forall b, 0 <= b ->
            Z.testbit (stateFlags c5) b =
            if bool_decide (b = ACTX_B_INDEXABLES) then false
            else if bool_decide (b = ACTX_B_TEXTINDEXED) then false
            else if bool_decide (b = ACTX_B_OTHERINDEXED) then false
            else if bool_decide (b = ACTX_B_SORTABLES)
                 then Z.testbit (stateFlags c) b
                      || existsb (sortable_field sp) (fields d)
            else Z.testbit (stateFlags c) b).
  { intros b Hb. rewrite Hf.
    unfold ACTX_F_INDEXABLES, ACTX_F_TEXTINDEXED, ACTX_F_OTHERINDEXED, ACTX_F_SORTABLES.
    destruct (existsb (sortable_field sp) (fields d));
      rewrite ?testbit_c_set, ?testbit_c_clear by lia;
      repeat case_bool_decide; subst; simpl;
      rewrite ?orb_true_r, ?orb_false_r, ?andb_true_r, ?andb_false_r;
      try done; try congruence. }
  pose proof (SetDocument_finish_status sp (with_fields d (map (resolve sp) (fields d))) c5 l5) as Fst.
  pose proof (SetDocument_finish_sv sp (with_fields d (map (resolve sp) (fields d))) c5 l5) as Fsv.
  pose proof (SetDocument_finish_bits sp (with_fields d (map (resolve sp) (fields d))) c5 l5) as Fb.
  set (c' := SetDocument_finish _ _ _ _) in *. clearbody c'.
  rewrite Hsv, F5 in Fsv by lia.
  rewrite !bool_decide_eq_false_2 in Fsv by congruence.
  rewrite bool_decide_eq_true_2 in Fsv by done.
  split; [done|]. split; [done|]. split; [congruence|]. split; [done|].
  intros b Hb. rewrite Fb, Ht, Ho, F5 by lia.
  repeat case_bool_decide; subst; simpl; try done; try congruence.
Qed.












(** [SetDocument] returns [true] on every document it accepts, whatever
    the context. *)
Lemma SetDocument_accepted c sp d n :
  accepted sp ∅ (fields d) ->
  exists c', SetDocument c sp d n
             = (true, c', with_fields d (map (resolve sp) (fields d))).
Proof.
  intros Ha. rewrite SetDocument_eq; cbv zeta.
  set (c4 := set_fdatas _ _).
  destruct (SetDocument_loop_accepted sp (fields d) c4 (mkSetDocLocals O ∅ false false) Ha)
    as (c5 & l5 & ->).
  eauto.
Qed.

Lemma SetError_fresh st c msg :
  code st = QUERY_OK -> SetError st c msg = mkQueryError c (Some msg).
Proof. intros E. unfold SetError, HasError. by rewrite E. Qed.

(** The first field the loop rejects decides how [SetDocument] fails: a
    repeat of an earlier [FieldSpec.index] is [DUPFIELD], an [indexAs]
    outside the types of the schema is [UNSUPPTYPE]; the fields after it
    are not looked at. *)
Lemma SetDocument_first_reject c sp d n pre f rest fs :
  fields d = pre ++ f :: rest ->
  accepted sp ∅ pre ->
  live sp f = Some fs ->
  fs_index fs ∈ live_indexes sp pre \/
  (f_indexAs f <> 0 /\ ~ mask_subset (f_indexAs f) (fs_types fs)) ->
  exists c',
    SetDocument c sp d n
    = (false, c', with_fields d (map (resolve sp) pre ++ f :: rest)) /\
    fspecs c' = fspecs c ++ map (spec_of sp) pre ++ [fs] /\
    status c' =
      if bool_decide (fs_index fs ∈ live_indexes sp pre)
      then SetError (status c) QUERY_EDUPFIELD (msg_dupfield (fs_name fs))
      else SetError (status c) QUERY_EUNSUPPTYPE (msg_unsupptype (fs_name fs)).
Proof.
  intros Hd Ha L Hr. rewrite SetDocument_eq; cbv zeta. rewrite Hd.
  set (c4 := set_fdatas _ _). set (l0 := mkSetDocLocals O ∅ false false).
  destruct (SetDocument_loop_accepted sp pre c4 l0 Ha) as (c1 & l1 & E1).
  rewrite (SetDocument_loop_app sp pre (f :: rest) _ _ _ _ _ E1).
  apply SetDocument_loop_ok in E1 as (_ & _ & _ & Hdd & _ & Hfs & _ & Hst & _).
  simpl in Hdd, Hfs, Hst.
  assert (Hmem : forall i, i ∈ dedupe l1 <-> i ∈ live_indexes sp pre).
  { intros i. rewrite Hdd. set_solver. }
  cbn [SetDocument_loop].
  destruct (SetDocument_field sp f c1 l1) as [[[ok c2] l2] f2] eqn:E2.
  destruct ok.
  - exfalso. apply SetDocument_field_ok in E2
      as (_ & _ & _ & _ & _ & _ & _ & _ & _ & Hc & Hn).
    destruct Hr as [Hin | (Hz & Hm)].
    + apply (Hn fs L). by apply Hmem.
    + by destruct (Hc fs L).
  - apply SetDocument_field_fail in E2 as (-> & fs' & L' & Hfs2 & _ & _ & _ & Hcase).
    assert (fs' = fs) as -> by congruence.
    eexists. split; [reflexivity|]. split.
    + rewrite Hfs2, Hfs. by rewrite <- app_assoc.
    + destruct Hcase as [(Hin & ->) | (Hnin & _ & _ & ->)].
      * rewrite bool_decide_eq_true_2 by (by apply Hmem). by rewrite Hst.
      * rewrite bool_decide_eq_false_2 by (by rewrite <- Hmem). by rewrite Hst.
Qed.


(** C4, as the code has it.  When a field with text repeats the
    [FieldSpec.index] of an earlier field with text, and the loop rejects no
    field before it, [SetDocument] returns [false] with the code [DUPFIELD]
    and the message that names the field of the schema; the fields after
    the repeat are not looked at: nothing is appended to [fspecs] for them
    and their [indexAs] is left as it was. *)
Theorem SetDocument_dupfield c sp d n pre f rest fs :
  code (status c) = QUERY_OK ->
  fields d = pre ++ f :: rest ->
  accepted sp ∅ pre ->
  live sp f = Some fs ->
  fs_index fs ∈ live_indexes sp pre ->
  exists c',
    SetDocument c sp d n
    = (false, c', with_fields d (map (resolve sp) pre ++ f :: rest)) /\
    status c' = mkQueryError QUERY_EDUPFIELD
                  (Some ("Tried to insert `" +:+ fs_name fs +:+ "` twice")) /\
    fspecs c' = fspecs c ++ map (spec_of sp) pre ++ [fs].
Proof.
  intros Hok Hd Ha L Hin.
  destruct (SetDocument_first_reject c sp d n pre f rest fs Hd Ha L (or_introl Hin))
    as (c' & E & Hfs & Hst).
  exists c'. split_and!; try done.
  rewrite Hst, bool_decide_eq_true_2 by done. by apply SetError_fresh.
Qed.

(** C5, as the code has it.  A matched field that is the first one the
    loop rejects, and that does not repeat an earlier field, is rejected
    because its nonzero [indexAs] is not within the types of the schema,
    with the code [UNSUPPTYPE].  In a document that is accepted every
    matched field is resolved in place: an unspecified [indexAs] becomes
    the types of the schema, a specified one is kept, and in both cases the
    resolved [indexAs] is within the types of the schema. *)
Theorem SetDocument_indexAs c sp d n :
  code (status c) = QUERY_OK ->
  (forall pre f rest fs,
     fields d = pre ++ f :: rest ->
     accepted sp ∅ pre ->
     live sp f = Some fs ->
     fs_index fs ∉ live_indexes sp pre ->
     f_indexAs f <> 0 ->
     ~ mask_subset (f_indexAs f) (fs_types fs) ->
     exists c',
       SetDocument c sp d n
       = (false, c', with_fields d (map (resolve sp) pre ++ f :: rest)) /\
       status c' = mkQueryError QUERY_EUNSUPPTYPE
                     (Some ("Tried to index field " +:+ fs_name fs
                            +:+ " as type not specified in schema"))) /\
  (forall c' d',
     SetDocument c sp d n = (true, c', d') ->
     forall i f fs,
       fields d !! i = Some f ->
       live sp f = Some fs ->
       exists f',
         fields d' !! i = Some f' /\
         (f_indexAs f = 0 -> f_indexAs f' = fs_types fs) /\
         (f_indexAs f <> 0 -> f_indexAs f' = f_indexAs f) /\
         mask_subset (f_indexAs f') (fs_types fs)).
Proof.
  intros Hok. split.
  - intros pre f rest fs Hd Ha L Hnin Hz Hm.
    destruct (SetDocument_first_reject c sp d n pre f rest fs Hd Ha L
                (or_intror (conj Hz Hm))) as (c' & E & Hfs & Hst).
    exists c'. split; [done|].
    rewrite Hst, bool_decide_eq_false_2 by done. by apply SetError_fresh.
  - intros c' d' E i f fs Hi L.
    apply SetDocument_ok_bits in E as (-> & (_ & _ & Hc) & _).
    exists (resolve sp f). simpl. split.
    { by rewrite list_lookup_fmap, Hi. }
    rewrite Forall_forall in Hc.
    assert (Hcf : conforms sp f).
    { apply Hc. by eapply list_elem_of_lookup_2. }
    unfold resolve. rewrite L. simpl. unfold resolved, mask_subset.
    destruct (Z.eqb_spec (f_indexAs f) 0) as [Ez|Ez]; split_and!; try done.
    + apply Z.land_diag.
    + by destruct (Hcf fs L).
Qed.

(** A successful [SetDocument] on a document with a sortable field leaves
    the context with a sort vector: the preprocessors of the sortable
    fields find [sv] allocated. *)
Lemma SetDocument_allocates_sv c sp d n c' d' :
  SetDocument c sp d n = (true, c', d') ->
  existsb (sortable_field sp) (fields d) = true ->
  exists v, sv c' = Some v.
Proof.
  intros E Hs. apply SetDocument_ok_bits in E as (_ & _ & _ & Hsv & _).
  rewrite Hs, orb_true_r in Hsv. rewrite Hsv.
  destruct (sv c) as [v|]; simpl; eauto.
Qed.


End SetDocumentFlags.

(** ** [SetDocument] where the code calls it *)

Section SetDocumentCalls.
Context {hdr : Headers} {hdr_ok : HeadersOk} {host : Host} {alloc : Allocator}.

(** The constructor and [ReplaceMerge] call [SetDocument] on the contexts
    named above. *)
Lemma AddDocumentCtx_new_calls raw sp b :
  AddDocumentCtx_new raw sp true b =
  match SetDocument (AddDocumentCtx_new_entry raw) sp b (NumFields (doc raw)) with
  | (false, c', _) => inr (status c')
  | (true, c', _) =>
      let c' := set_fwIdx c' [] in
      inl (Ret (set_doc c' (mkDocument (docKey (doc c')) 0 (fields (doc c')))))
  end.
Proof. reflexivity. Qed.

Lemma ReplaceMerge_calls c sp fl :
  ReplaceMerge c sp (Some fl) =
  let e := ReplaceMerge_entry c fl in
  let '(_, c', d') := SetDocument e sp (doc e) (NumFields (doc c)) in
  (false, set_doc c' d').
Proof. reflexivity. Qed.






End SetDocumentCalls.

(** ** The field preprocessors *)

Section Preprocessors.
Context {hdr : Headers} {host : Host}.

Lemma SetCode_fresh st c : code st = QUERY_OK -> code (SetCode st c) = c.
Proof. intros E. unfold SetCode, HasError. by rewrite E. Qed.

Lemma SetCode_kept st c : code st <> QUERY_OK -> SetCode st c = st.
Proof.
  intros E. unfold SetCode, HasError. by rewrite bool_decide_eq_false_2.
Qed.

(** The numeric preprocessor on a sortable field writes the sort vector
    exactly when the host parses the text. *)
Lemma NumericPreprocessor_parsed fs e t x v :
  IsSortable fs = true ->
  f_text (p_field e) = Some t ->
  RedisModule_StringToDouble t = Some x ->
  sv (p_ctx e) = Some v ->
  NumericPreprocessor fs e
  = Ret (true,
         mkPreEnv (set_sv (p_ctx e) (Some (<[fs_sortIdx fs := RS_NUM x]> v)))
           (p_field e)
           (mkFieldIndexerData (Some x) (fd_geoSlon (p_fdata e))
              (fd_geoSlat (p_fdata e)) (fd_tags (p_fdata e)))
           (p_status e)).
Proof.
  intros Hs Ht Hx Hv. unfold NumericPreprocessor, sv_Put, RSSortingVector_Put.
  by rewrite Ht, Hx, Hs, Hv.
Qed.

Lemma NumericPreprocessor_rejected fs e t :
  f_text (p_field e) = Some t ->
  RedisModule_StringToDouble t = None ->
  NumericPreprocessor fs e
  = Ret (false, mkPreEnv (p_ctx e) (p_field e) (p_fdata e)
                  (SetCode (p_status e) QUERY_ENOTNUMERIC)).
Proof. intros Ht Hx. unfold NumericPreprocessor. by rewrite Ht, Hx. Qed.

(** C6.  On a numeric sortable field whose sort vector is allocated with a
    slot [sortIdx]: a text the host parses to [x] (as it parses 42.5 from
    the text 42.5) makes the preprocessor succeed and leaves [NUM x] in
    the slot [sortIdx], the other slots as they were; a text the host does
    not parse makes it fail with [NOTNUMERIC] on a status without an
    earlier error, and the context, with its sort vector, is unchanged. *)
Theorem NumericPreprocessor_sortable fs e t v :
  IsSortable fs = true ->
  f_text (p_field e) = Some t ->
  sv (p_ctx e) = Some v ->
  (fs_sortIdx fs < length v)%nat ->
  (forall x, RedisModule_StringToDouble t = Some x ->
     exists e' v',
       NumericPreprocessor fs e = Ret (true, e') /\
       sv (p_ctx e') = Some v' /\
       v' !! fs_sortIdx fs = Some (RS_NUM x) /\
       length v' = length v /\
       (forall j, j <> fs_sortIdx fs -> v' !! j = v !! j) /\
       p_status e' = p_status e) /\
  (RedisModule_StringToDouble t = None ->
     code (p_status e) = QUERY_OK ->
     exists e',
       NumericPreprocessor fs e = Ret (false, e') /\
       code (p_status e') = QUERY_ENOTNUMERIC /\
       p_ctx e' = p_ctx e /\ sv (p_ctx e') = Some v).
Proof.
  intros Hs Ht Hv Hi. split.
  - intros x Hx. eexists _, _. split.
    { by apply (NumericPreprocessor_parsed fs e t x v). }
    simpl. split_and!; try done.
    + by apply list_lookup_insert_eq.
    + apply length_insert.
    + intros j Hj. by apply list_lookup_insert_ne.
  - intros Hx Hok. eexists. split.
    { by apply (NumericPreprocessor_rejected fs e t). }
    simpl. split_and!; try done. by apply SetCode_fresh.
Qed.

(** *** C strings *)

Lemma strpbrk_split lon dlm lat accept :
  str_mem dlm accept = true ->
  dlm <> NUL ->
  (forall a, str_mem a lon = true -> str_mem a accept = false /\ a <> NUL) ->
  strpbrk (lon +:+ String dlm lat) accept = Some (String.length lon).
Proof.
  intros Hd Hn. induction lon as [|a lon IH]; intros Hl; simpl.
  - destruct (Ascii.eqb_spec dlm NUL); [done|]. by rewrite Hd.
  - destruct (Hl a) as (Ha & Hz); [simpl; by rewrite Ascii.eqb_refl|].
    destruct (Ascii.eqb_spec a NUL); [done|]. rewrite Ha.
    rewrite IH; [done|]. intros b Hb. apply Hl. simpl. rewrite Hb. apply orb_true_r.
Qed.

Lemma strpbrk_none t accept :
  (forall a, str_mem a t = true -> str_mem a accept = false) ->
  strpbrk t accept = None.
Proof.
  induction t as [|a t IH]; intros Hl; simpl; [done|].
  destruct (Ascii.eqb a NUL); [done|].
  rewrite (Hl a) by (simpl; by rewrite Ascii.eqb_refl).
  rewrite IH; [done|]. intros b Hb. apply Hl. simpl. rewrite Hb. apply orb_true_r.
Qed.

Lemma cstr_poke_prefix lon dlm lat :
  (forall a, str_mem a lon = true -> a <> NUL) ->
  cstr (str_poke (String.length lon) NUL (lon +:+ String dlm lat)) = lon.
Proof.
  induction lon as [|a lon IH]; intros Hl; simpl; [done|].
  destruct (Ascii.eqb_spec a NUL) as [E|E].
  - exfalso. apply (Hl a); [simpl; by rewrite Ascii.eqb_refl | done].
  - f_equal. apply IH. intros b Hb. apply Hl. simpl. rewrite Hb. apply orb_true_r.
Qed.

Lemma str_drop_poke_suffix lon dlm lat :
  str_drop (S (String.length lon))
    (str_poke (String.length lon) NUL (lon +:+ String dlm lat)) = lat.
Proof. induction lon as [|a lon IH]; simpl; [done|]. apply IH. Qed.

Lemma cstr_id s : (forall a, str_mem a s = true -> a <> NUL) -> cstr s = s.
Proof.
  induction s as [|a s IH]; intros Hl; simpl; [done|].
  destruct (Ascii.eqb_spec a NUL) as [E|E].
  - exfalso. apply (Hl a); [simpl; by rewrite Ascii.eqb_refl | done].
  - f_equal. apply IH. intros b Hb. apply Hl. simpl. rewrite Hb. apply orb_true_r.
Qed.

(** C7.  The geo preprocessor splits the text at the first space or comma:
    when [lon] holds neither delimiter (nor a NUL), the text
    [lon ++ dlm :: lat] yields the longitude [lon] and, as latitude, the C
    string after the delimiter ([lat] itself when it holds no NUL).  A text
    with neither a space nor a comma fails with [GEOFORMAT] on a status
    without an earlier error, and nothing else changes. *)
Theorem GeoPreprocessor_split fs e :
  (forall lon dlm lat,
     f_text (p_field e) = Some (lon +:+ String dlm lat) ->
     dlm = " "%char \/ dlm = ","%char ->
     (forall a, str_mem a lon = true ->
        a <> " "%char /\ a <> ","%char /\ a <> NUL) ->
     exists e',
       GeoPreprocessor fs e = Ret (true, e') /\
       geo_lon e' = Some lon /\
       geo_lat e' = Some (cstr lat) /\
       ((forall a, str_mem a lat = true -> a <> NUL) -> geo_lat e' = Some lat) /\
       p_status e' = p_status e /\ p_ctx e' = p_ctx e) /\
  (forall t,
     f_text (p_field e) = Some t ->
     str_mem " "%char t = false ->
     str_mem ","%char t = false ->
     code (p_status e) = QUERY_OK ->
     exists e',
       GeoPreprocessor fs e = Ret (false, e') /\
       code (p_status e') = QUERY_EGEOFORMAT /\
       p_ctx e' = p_ctx e /\ p_field e' = p_field e /\ p_fdata e' = p_fdata e).
Proof.
  split.
  - intros lon dlm lat Ht Hd Hl.
    assert (Hpos : strpbrk (lon +:+ String dlm lat) " ," = Some (String.length lon)).
    { apply strpbrk_split.
      - destruct Hd as [-> | ->]; reflexivity.
      - destruct Hd as [-> | ->]; discriminate.
      - intros a Ha. destruct (Hl a Ha) as (H1 & H2 & H3). split; [|done].
        simpl. destruct (Ascii.eqb_spec a " "), (Ascii.eqb_spec a ","); done. }
    unfold GeoPreprocessor. rewrite Ht, Hpos. eexists. split; [reflexivity|].
    assert (Hn : forall a, str_mem a lon = true -> a <> NUL)
      by (intros a Ha; by destruct (Hl a Ha) as (_ & _ & ?)).
    set (buf := str_poke (String.length lon) NUL (lon +:+ String dlm lat)).
    assert (Hlon : cstr_at buf O = lon) by (by apply cstr_poke_prefix).
    assert (Hlat : cstr_at buf (S (String.length lon)) = cstr lat).
    { unfold cstr_at, buf. by rewrite str_drop_poke_suffix. }
    unfold geo_lon, geo_lat. cbn -[cstr_at str_poke cstr]. fold buf.
    rewrite Hlon, Hlat.
    split_and!; try done. intros Hnul. by rewrite cstr_id.
  - intros t Ht Hsp Hco Hok.
    assert (Hpos : strpbrk t " ," = None).
    { apply strpbrk_none. intros a Ha. simpl.
      destruct (Ascii.eqb_spec a " ") as [->|]; [congruence|].
      destruct (Ascii.eqb_spec a ",") as [->|]; [congruence|]. done. }
    unfold GeoPreprocessor. rewrite Ht, Hpos. eexists. split; [reflexivity|].
    simpl. split_and!; try done. by apply SetCode_fresh.
Qed.

End Preprocessors.

(** ** [AddToIndexes] *)

Section AddToIndexesFacts.
Context {hdr : Headers} {host : Host}.

Lemma kept_refl c : kept c c.
Proof. by unfold kept. Qed.

Lemma kept_trans c1 c2 c3 : kept c1 c2 -> kept c2 c3 -> kept c1 c3.
Proof. unfold kept. intros (?&?&?&?&?&?) (?&?&?&?&?&?). split_and!; congruence. Qed.

Lemma sv_Put_kept c i x c' : sv_Put c i x = Ret c' -> kept c c'.
Proof. unfold sv_Put. destruct (sv c); intros [= <-]. by unfold kept. Qed.

Lemma handled_refl e : handled e e true.
Proof. unfold handled. split_and!; done || apply kept_refl. Qed.

Lemma handled_trans e e1 e2 ok :
  handled e e1 true -> handled e1 e2 ok -> handled e e2 ok.
Proof.
  unfold handled. intros (K1 & I1 & S1) (K2 & I2 & S2). split_and!.
  - eauto using kept_trans.
  - congruence.
  - destruct ok; [congruence|]. destruct S2 as (x & Hx & S2). exists x. by rewrite <- S1.
Qed.

Lemma FulltextPreprocessor_handled fs e ok e' :
  FulltextPreprocessor fs e = Ret (ok, e') -> ok = true /\ handled e e' ok.
Proof.
  unfold FulltextPreprocessor, handled. destruct (f_text (p_field e)) as [t|]; [|done].
  assert (Hidx : forall c1, kept (p_ctx e) c1 ->
            kept (p_ctx e)
              (if IsIndexable fs
               then
                 let '(toks, lastTokPos) := tokenize t (tokenize_options fs) in
                 let c' := set_fwIdx c1
                             (fwIdx c1 ++ map (fun t => (t, fs_ftId fs, fs_ftWeight fs)) toks) in
                 let c'' :=
                   match byteOffsets c' with
                   | Some (cap, regions) =>
                       set_byteOffsets c'
                         (Some (cap, regions ++ [(fs_ftId fs, totalTokens c' + 1, lastTokPos)]))
                   | None => c'
                   end in
                 set_totalTokens c'' lastTokPos
               else c1)).
  { intros c1 K. destruct (IsIndexable fs); [|done].
    destruct (tokenize _ _) as [toks lastp]. simpl.
    eapply kept_trans; [exact K|].
    destruct (byteOffsets c1) as [[cap regions]|]; by unfold kept. }
  destruct (IsSortable fs).
  - destruct (sv_Put _ _ _) as [c1| | |] eqn:E1; simpl; [|done|done|done].
    apply sv_Put_kept in E1. intros [= <- <-]. simpl. split_and!; done || by apply Hidx.
  - simpl. intros [= <- <-]. simpl. split_and!; done || apply Hidx, kept_refl.
Qed.

Lemma NumericPreprocessor_handled fs e ok e' :
  NumericPreprocessor fs e = Ret (ok, e') -> handled e e' ok.
Proof.
  unfold NumericPreprocessor, handled. destruct (f_text (p_field e)) as [t|]; [|done].
  destruct (RedisModule_StringToDouble t) as [x|].
  - destruct (IsSortable fs).
    + destruct (sv_Put _ _ _) as [c1| | |] eqn:E1; simpl; [|done|done|done].
      apply sv_Put_kept in E1. by intros [= <- <-].
    + simpl. intros [= <- <-]. split_and!; done || apply kept_refl.
  - intros [= <- <-]. simpl. split_and!; try (done || apply kept_refl).
    exists QUERY_ENOTNUMERIC. split; [by left|done].
Qed.

Lemma GeoPreprocessor_handled fs e ok e' :
  GeoPreprocessor fs e = Ret (ok, e') -> handled e e' ok.
Proof.
  unfold GeoPreprocessor, handled. destruct (f_text (p_field e)) as [t|]; [|done].
  destruct (strpbrk t " ,") as [pos|]; intros [= <- <-]; simpl;
    split_and!; try done; try apply kept_refl.
  exists QUERY_EGEOFORMAT. split; [by right|done].
Qed.

Lemma TagPreprocessor_handled fs e ok e' :
  TagPreprocessor fs e = Ret (ok, e') -> ok = true /\ handled e e' ok.
Proof.
  unfold TagPreprocessor, handled. destruct (TagIndex_Tags _ _ _) as [|tg tgs].
  - intros [= <- <-]. simpl. split_and!; done || apply kept_refl.
  - destruct (IsSortable fs).
    + destruct (f_text (p_field e)) as [t|]; [|done].
      destruct (sv_Put _ _ _) as [c1| | |] eqn:E1; simpl; [|done|done|done].
      apply sv_Put_kept in E1. by intros [= <- <-].
    + intros [= <- <-]. simpl. split_and!; done || apply kept_refl.
Qed.

Lemma when_idx_handled t pre fs e ok e' :
  (forall e1 ok1 e1', pre fs e1 = Ret (ok1, e1') -> handled e1 e1' ok1) ->
  when_idx t pre fs e = Ret (ok, e') -> handled e e' ok.
Proof.
  intros Hpre. unfold when_idx. destruct (CheckIdx _ _); [apply Hpre|].
  intros [= <- <-]. apply handled_refl.
Qed.

(** The four handlers of one turn. *)
Lemma preprocess_handled fs e ok e' :
  preprocess fs e = Ret (ok, e') -> handled e e' ok.
Proof.
  unfold preprocess.
  destruct (when_idx INDEXFLD_T_FULLTEXT _ fs e) as [[ok1 e1]| | |] eqn:E1; simpl; [|done|done|done].
  apply when_idx_handled in E1;
    [|intros ? ? ? X; by apply FulltextPreprocessor_handled in X as (_ & ?)].
  destruct ok1; simpl; [|by intros [= <- <-]].
  destruct (when_idx INDEXFLD_T_NUMERIC _ fs e1) as [[ok2 e2]| | |] eqn:E2; simpl; [|done|done|done].
  apply when_idx_handled in E2; [|apply NumericPreprocessor_handled].
  destruct ok2; simpl; [|intros [= <- <-]; eauto using handled_trans].
  destruct (when_idx INDEXFLD_T_GEO _ fs e2) as [[ok3 e3]| | |] eqn:E3; simpl; [|done|done|done].
  apply when_idx_handled in E3; [|apply GeoPreprocessor_handled].
  destruct ok3; simpl; [|intros [= <- <-]; eauto using handled_trans].
  intros E4. apply when_idx_handled in E4;
    [|intros ? ? ? X; by apply TagPreprocessor_handled in X as (_ & ?)].
  eauto using handled_trans.
Qed.

(** One turn of the loop of [AddToIndexes]. *)
Lemma AddToIndexes_field_outcome i ff c ok c' :
  AddToIndexes_field i ff c = Ret (ok, c') ->
  stateFlags c' = stateFlags c /\ events c' = events c /\ fspecs c' = fspecs c /\
  (if ok then status c' = status c
   else exists x, preprocessor_code x /\ status c' = SetCode (status c) x).
Proof.
  unfold AddToIndexes_field. destruct (fspecs c !! i) as [fs|]; [|done].
  destruct (_ || _).
  - by intros [= <- <-].
  - destruct (preprocess fs _) as [[ok1 e1]| | |] eqn:E1; simpl; [|done|done|done].
    apply preprocess_handled in E1 as ((Kf & Ke & Ks & _) & _ & S1). simpl in *.
    intros [= <- <-]. unfold commit. simpl. done.
Qed.

Lemma AddToIndexes_loop_outcome fl : forall i c ok c',
  AddToIndexes_loop i fl c = Ret (ok, c') ->
  stateFlags c' = stateFlags c /\ events c' = events c /\ fspecs c' = fspecs c /\
  (if ok then status c' = status c
   else exists x, preprocessor_code x /\ status c' = SetCode (status c) x).
Proof.
  induction fl as [|ff fl IH]; intros i c ok c'; simpl.
  - by intros [= <- <-].
  - destruct (AddToIndexes_field i ff c) as [[ok1 c1]| | |] eqn:E1; simpl; [|done|done|done].
    apply AddToIndexes_field_outcome in E1 as (F1 & V1 & P1 & S1).
    destruct ok1.
    + intros E2. apply IH in E2 as (F2 & V2 & P2 & S2).
      split_and!; try congruence. destruct ok; [congruence|]. by rewrite <- S1.
    + by intros [= <- <-].
Qed.

End AddToIndexesFacts.

(** ** The garbage collector *)

Section CollectorFacts.
Context {num : GcNum}.

(** *** The frequency is touched by the adaptation only *)

Lemma updateStats_keeps g w n b :
  hz (updateStats g w n b).1 = hz g /\
  specUniqueId (updateStats g w n b).1 = specUniqueId g /\
  numericGC (updateStats g w n b).1 = numericGC g /\
  w_repairs (updateStats g w n b).2 = w_repairs w.
Proof. done. Qed.

Lemma CollectRandomTerm_loop_hz rounds : forall uid blockNum total status g w n st g' w',
  CollectRandomTerm_loop rounds uid blockNum total status g w = Ret (n, st, g', w') ->
  hz g' = hz g.
Proof.
  induction rounds as [|r rounds IH]; intros uid blockNum total status g w n st g' w';
    simpl; [done|].
  destruct (r_next r =? 0); [by intros [= <- <- <- <-]|].
  destruct (spec_invalid _ _); [by intros [= <- <- <- <-]|].
  destruct (r_found r); [|by intros [= <- <- <- <-]].
  intros E. by apply IH in E.
Qed.

Lemma CollectTagIndex_loop_hz rounds : forall uid blockNum total status g w n st g' w',
  CollectTagIndex_loop rounds uid blockNum total status g w = Ret (n, st, g', w') ->
  hz g' = hz g.
Proof.
  induction rounds as [|r rounds IH]; intros uid blockNum total status g w n st g' w';
    simpl; [done|].
  destruct (r_next r =? 0); [by intros [= <- <- <- <-]|].
  destruct (spec_invalid _ _); [by intros [= <- <- <- <-]|].
  destruct (r_found r); [|by intros [= <- <- <- <-]].
  intros E. by apply IH in E.
Qed.

Lemma CollectNumericIndex_loop_hz rounds : forall ngc uid blockNum total status g w n st g' w',
  CollectNumericIndex_loop rounds ngc uid blockNum total status g w = Ret (n, st, g', w') ->
  hz g' = hz g.
Proof.
  induction rounds as [|r rounds IH]; intros ngc uid blockNum total status g w n st g' w';
    simpl; [done|].
  destruct (r_next r =? 0); [by intros [= <- <- <- <-]|].
  destruct (spec_invalid _ _); [by intros [= <- <- <- <-]|].
  destruct (negb _); [by intros [= <- <- <- <-]|].
  intros E. by apply IH in E.
Qed.

Lemma CollectRandomTerm_hz g w env status n st g' w' :
  CollectRandomTerm g w env status = Ret (n, st, g', w') -> hz g' = hz g.
Proof.
  unfold CollectRandomTerm.
  destruct (spec_invalid _ _); [by intros [= <- <- <- <-]|].
  destruct (te_term env); [|by intros [= <- <- <- <-]].
  destruct (te_idx env); [|by intros [= <- <- <- <-]].
  apply CollectRandomTerm_loop_hz.
Qed.

Lemma CollectTagIndex_hz g w env status n st g' w' :
  CollectTagIndex g w env status = Ret (n, st, g', w') -> hz g' = hz g.
Proof.
  unfold CollectTagIndex.
  destruct (spec_invalid _ _); [by intros [= <- <- <- <-]|].
  destruct (negb (tg_field env)); [by intros [= <- <- <- <-]|].
  destruct (negb (tg_open env)); [by intros [= <- <- <- <-]|].
  destruct (negb (tg_value env)); [by intros [= <- <- <- <-]|].
  apply CollectTagIndex_loop_hz.
Qed.

Lemma sync_numericGC_hz g w env g' :
  sync_numericGC g w env = Ret g' -> hz g' = hz g.
Proof.
  unfold sync_numericGC. destruct (bool_decide _); [|by intros [= <-]].
  destruct (bool_decide _); [done|].
  destruct (rebuild_numericGC _ _ _); simpl; [|done|done|done]. by intros [= <-].
Qed.

Lemma renew_numericGC_hz g w i rt g' ngc :
  renew_numericGC g w i rt = Ret (g', ngc) -> hz g' = hz g.
Proof.
  unfold renew_numericGC. destruct rt as [addr|]; [|done].
  destruct (NumericFieldGC_new _ _); simpl; [|done|done|done]. by intros [= <- <-].
Qed.

Lemma CollectNumericIndex_hz g w env status n st g' w' :
  CollectNumericIndex g w env status = Ret (n, st, g', w') -> hz g' = hz g.
Proof.
  unfold CollectNumericIndex.
  destruct (spec_invalid _ _); [by intros [= <- <- <- <-]|].
  destruct (bool_decide _); [by intros [= <- <- <- <-]|].
  destruct (sync_numericGC g w env) as [g1| | |] eqn:E1; simpl; [|done|done|done].
  apply sync_numericGC_hz in E1.
  destruct (numericGC g1 !! _) as [num_gc|]; [|done].
  destruct (ne_fields env !! _) as [rt|]; [|done].
  match goal with
  | |- bindO ?x _ = _ -> _ => destruct x as [[g2 ngc2]| | |] eqn:E2; simpl; [|done|done|done]
  end.
  assert (hz g2 = hz g1) as H2.
  { destruct (negb (bool_decide _)); [by apply renew_numericGC_hz in E2|].
    destruct (w_trees w !! _) as [t|]; [|done].
    destruct (negb _); [|by simplify_eq].
    destruct (_ <=? _); [done|]. by apply renew_numericGC_hz in E2. }
  destruct (NextGcNode _ _) as [[nextNode ngc3]| | |]; simpl; [|done|done|done].
  intros E3. apply CollectNumericIndex_loop_hz in E3. simpl in E3. congruence.
Qed.

Lemma collect_all_hz g w env n st g' w' :
  collect_all g w env = Ret (n, st, g', w') -> hz g' = hz g.
Proof.
  unfold collect_all.
  destruct (CollectRandomTerm _ _ _ _) as [[[[n1 s1] g1] w1]| | |] eqn:E1; simpl;
    [|done|done|done].
  destruct (CollectNumericIndex _ _ _ _) as [[[[n2 s2] g2] w2]| | |] eqn:E2; simpl;
    [|done|done|done].
  destruct (CollectTagIndex _ _ _ _) as [[[[n3 s3] g3] w3]| | |] eqn:E3; simpl;
    [|done|done|done].
  intros [= <- <- <- <-].
  apply CollectRandomTerm_hz in E1. apply CollectNumericIndex_hz in E2.
  apply CollectTagIndex_hz in E3. congruence.
Qed.

(** The macros [MIN] and [MAX] yield the lesser and the greater. *)
Lemma wlt_irrefl {num_ok : GcNumOk} a : wlt a a = false.
Proof. pose proof (wlt_asym a a) as H. destruct (wlt a a); [by apply H|done]. Qed.

Lemma MIN_lesser_of {num_ok : GcNumOk} a b : lesser_of (MIN a b) a b.
Proof.
  unfold lesser_of, MIN. destruct (wlt a b) eqn:E.
  - split_and!; [by left | apply wlt_irrefl | by apply wlt_asym].
  - split_and!; [by right | done | apply wlt_irrefl].
Qed.

Lemma MAX_greater_of {num_ok : GcNumOk} a b : greater_of (MAX a b) a b.
Proof.
  unfold greater_of, MAX. destruct (wlt b a) eqn:E.
  - split_and!; [by left | apply wlt_irrefl | by apply wlt_asym].
  - split_and!; [by right | done | apply wlt_irrefl].
Qed.

(** C3.  A periodic pass is a callback that is not skipped by the RDB
    guard and whose three collections return, with [totalRemoved] records
    removed in all: it returns, and the new frequency is the [float] of a
    [double] [m] which is the lesser of [hz * 1.2] and [GC_MAX_HZ] when
    [totalRemoved] is positive, and the greater of [hz * 0.99] and
    [GC_MIN_HZ] when it is zero: [m] is one of the two, it is never above
    the maximum in the first case and never below the minimum in the
    second.  [OnDelete] sets the frequency to the [float] of the lesser of
    [hz * 1.5] and [GC_MAX_HZ]. *)
Theorem PeriodicCallback_adapts {num_ok : GcNumOk} g w env totalRemoved status g1 w1 :
  rdbPossiblyLoading g && isRdbLoading env = false ->
  collect_all (if rdbPossiblyLoading g then set_rdbPossiblyLoading g false else g) w env
  = Ret (totalRemoved, status, g1, w1) ->
  (exists g' m,
     PeriodicCallback g w env = Ret (status =? SPEC_STATUS_OK, g', w1) /\
     hz g' = narrow m /\
     (0 < totalRemoved -> lesser_of m (wmul (widen (hz g)) lit_1_2) GC_MAX_HZ) /\
     (totalRemoved <= 0 -> greater_of m (wmul (widen (hz g)) lit_0_99) GC_MIN_HZ)) /\
  (exists m,
     hz (OnDelete g) = narrow m /\
     lesser_of m (wmul (widen (hz g)) lit_1_5) GC_MAX_HZ).
Proof.
  intros Hgo Hall. split.
  2: { eexists. split; [reflexivity|]. apply MIN_lesser_of. }
  unfold PeriodicCallback. rewrite Hgo, Hall. simpl.
  apply collect_all_hz in Hall.
  assert (Hhz : hz g1 = hz g) by (rewrite Hall; by destruct (rdbPossiblyLoading g)).
  unfold adapt_hz. simpl. rewrite Hhz.
  destruct (0 <? totalRemoved) eqn:Hpos.
  - eexists _, _. split; [reflexivity|]. split; [reflexivity|]. split.
    + intros _. apply MIN_lesser_of.
    + intros Hz. apply Z.ltb_lt in Hpos. lia.
  - eexists _, _. split; [reflexivity|]. split; [reflexivity|]. split.
    + intros Hz. apply Z.ltb_ge in Hpos. lia.
    + intros _. apply MAX_greater_of.
Qed.

(** *** The term pass compares with the member *)

Lemma CollectRandomTerm_loop_member rounds : forall uid blockNum total status g w n st g' w',
  CollectRandomTerm_loop rounds uid blockNum total status g w = Ret (n, st, g', w') ->
  specUniqueId g' = specUniqueId g.
Proof.
  induction rounds as [|r rounds IH]; intros uid blockNum total status g w n st g' w';
    simpl; [done|].
  destruct (r_next r =? 0); [by intros [= <- <- <- <-]|].
  destruct (spec_invalid _ _); [by intros [= <- <- <- <-]|].
  destruct (r_found r); [|by intros [= <- <- <- <-]].
  intros E. by apply IH in E.
Qed.

Lemma spec_invalid_set_stats g s seen :
  spec_invalid (set_stats g s) seen = spec_invalid g seen.
Proof. reflexivity. Qed.

(** At the first yield where the spec has a [uniqueId] other than the
    member [specUniqueId], the loop of [CollectRandomTerm] ends
    with the status [INVALID]: the later answers of the host are not
    asked for, and no repair follows the yield. *)
Lemma CollectRandomTerm_loop_invalid pre : forall r rest uid blockNum total status g w,
  Forall (goes_on g) pre ->
  r_next r <> 0 ->
  spec_invalid g (r_spec r) = true ->
  exists n g' w',
    CollectRandomTerm_loop (pre ++ r :: rest) uid blockNum total status g w
    = Ret (n, SPEC_STATUS_INVALID, g', w') /\
    length (w_repairs w') = (length (w_repairs w) + length pre + 1)%nat.
Proof.
  induction pre as [|p pre IH]; intros r rest uid blockNum total status g w Hpre Hn Hinv.
  - simpl. apply Z.eqb_neq in Hn. rewrite Hn.
    rewrite spec_invalid_set_stats, Hinv. eexists _, _, _. split; [reflexivity|].
    simpl. rewrite length_app. simpl. lia.
  - apply Forall_cons in Hpre as ((Hpn & Hps & Hpf) & Hpre). simpl.
    apply Z.eqb_neq in Hpn. rewrite Hpn.
    rewrite spec_invalid_set_stats.
    assert (spec_invalid g (r_spec p) = false) as ->.
    { rewrite Hps. unfold spec_invalid. by rewrite Z.eqb_refl. }
    rewrite Hpf.
    edestruct (IH r rest) as (n & g' & w' & E & Hlen);
      [| exact Hn | | eexists _, _, _; split; [exact E|]].
    + exact Hpre.
    + exact Hinv.
    + rewrite Hlen. simpl. rewrite length_app. simpl. lia.
Qed.

(** The constructor does not store the id it is given: the member is what
    the storage held, and two collectors constructed over the same storage
    for different ids are the same collector. *)
Lemma GarbageCollector_new_member raw k initialHZ id :
  specUniqueId (GarbageCollector_new raw k initialHZ id) = specUniqueId raw.
Proof. reflexivity. Qed.

Lemma GarbageCollector_new_ignores_id raw k initialHZ id id' :
  GarbageCollector_new raw k initialHZ id = GarbageCollector_new raw k initialHZ id'.
Proof. reflexivity. Qed.

End CollectorFacts.

Section NumericCollectorFacts.
Context {num : GcNum}.

(** *** The guards of the numeric pass *)

Lemma NextGcNode_loop_two fuel trees ngc :
  (2 <= fuel)%nat ->
  NextGcNode_loop fuel trees ngc false O =
  match next_with_range (gcIterator ngc) with
  | Some (n, rest) =>
      (Ret (n, mkNumericFieldGC (ngc_rt ngc) (ngc_revisionId ngc) rest), O)
  | None =>
      match trees !! ngc_rt ngc with
      | None => (Crash, O)
      | Some t =>
          match next_with_range (rt_nodes t) with
          | Some (n, rest) =>
              (Ret (n, mkNumericFieldGC (ngc_rt ngc) (ngc_revisionId ngc) rest), 1%nat)
          | None => (Throw "Second iterator should return result", 1%nat)
          end
      end
  end.
Proof.
  intros Hf. destruct fuel as [|[|fuel]]; [lia|lia|]. simpl.
  destruct (next_with_range (gcIterator ngc)) as [[n rest]|]; [done|].
  destruct (trees !! ngc_rt ngc) as [t|]; [|done].
  by destruct (next_with_range (rt_nodes t)) as [[n rest]|].
Qed.

Lemma rebuild_numericGC_fresh trees opened : forall acc arr,
  rebuild_numericGC trees opened acc = Ret arr ->
  exists fresh, arr = acc ++ fresh /\ Forall2 (fresh_for trees) opened fresh.
Proof.
  induction opened as [|o opened IH]; intros acc arr; simpl.
  - intros [= <-]. exists []. by rewrite app_nil_r.
  - destruct o as [addr|]; [|done].
    unfold NumericFieldGC_new. destruct (trees !! addr) as [t|] eqn:Et; [|done]. simpl.
    intros E. apply IH in E as (fresh & -> & HF).
    eexists (_ :: fresh). split; [by rewrite <- app_assoc|].
    constructor; [|done]. by exists addr, t.
Qed.

(** C9, as the code has it.  (a) [NextGcNode] takes the first node with a
    range from what is left of the iterator; when the iterator is
    exhausted it makes one new iterator at the root, and when that one
    yields no node with a range either it throws: whatever the number of
    turns allowed beyond two, at most one iterator is made and the outcome
    is that of two turns.  (b) On a valid spec with at least one numeric
    field: fewer fields than the cached array holds is rejected by the
    throw, as many fields leaves the array alone, and more fields replaces
    the array by one new entry per field.  A spec without a numeric field
    ends the pass before the count is compared, without a throw. *)
Theorem numeric_gc_guards g w env status :
  (forall fuel ngc, (2 <= fuel)%nat ->
     NextGcNode_loop fuel (w_trees w) ngc false O
     = NextGcNode_loop 2 (w_trees w) ngc false O /\
     ((NextGcNode_loop fuel (w_trees w) ngc false O).2 <= 1)%nat /\
     (next_with_range (gcIterator ngc) = None ->
      forall t, w_trees w !! ngc_rt ngc = Some t ->
        next_with_range (rt_nodes t) = None ->
        NextGcNode_loop fuel (w_trees w) ngc false O
        = (Throw "Second iterator should return result", 1%nat))) /\
  (spec_invalid g (ne_spec env) = false ->
   (ne_fields env = [] -> CollectNumericIndex g w env status = Ret (0, status, g, w)) /\
   (ne_fields env <> [] ->
    ((length (ne_fields env) < length (numericGC g))%nat ->
     CollectNumericIndex g w env status = Throw "it is not possible to remove fields") /\
    (length (ne_fields env) = length (numericGC g) ->
     sync_numericGC g w env = Ret g) /\
    ((length (numericGC g) < length (ne_fields env))%nat ->
     forall g', sync_numericGC g w env = Ret g' ->
       Forall2 (fresh_for (w_trees w)) (ne_fields env) (numericGC g')))).
Proof.
  split.
  - intros fuel ngc Hf. rewrite (NextGcNode_loop_two fuel) by done.
    rewrite (NextGcNode_loop_two 2) by done. split; [done|]. split.
    + destruct (next_with_range (gcIterator ngc)) as [[n rest]|]; simpl; [lia|].
      destruct (w_trees w !! ngc_rt ngc) as [t|]; simpl; [|lia].
      destruct (next_with_range (rt_nodes t)) as [[n rest]|]; simpl; lia.
    + intros -> t -> ->. done.
  - intros Hv. unfold CollectNumericIndex. rewrite Hv. split.
    + intros ->. done.
    + intros Hne. rewrite bool_decide_eq_false_2 by done. split_and!.
      * intros Hlt. unfold sync_numericGC.
        rewrite bool_decide_eq_true_2 by lia.
        by rewrite bool_decide_eq_true_2 by lia.
      * intros Heq. unfold sync_numericGC. by rewrite bool_decide_eq_false_2 by lia.
      * intros Hgt g'. unfold sync_numericGC.
        rewrite bool_decide_eq_true_2 by lia.
        rewrite bool_decide_eq_false_2 by lia.
        destruct (rebuild_numericGC _ _ _) as [arr| | |] eqn:E; simpl; [|done|done|done].
        intros [= <-]. simpl.
        by apply rebuild_numericGC_fresh in E as (fresh & -> & HF).
Qed.

End NumericCollectorFacts.

(** ** [SetDocument]: what else the call writes *)

Section SetDocumentEffects.
Context {hdr : Headers} {host : Host} {alloc : Allocator}.

(** What no turn of the field loop writes. *)
Lemma SetDocument_field_frame sp f c l ok c' l' f' :
  SetDocument_field sp f c l = (ok, c', l', f') ->
  doc c' = doc c /\ byteOffsets c' = byteOffsets c /\ fdatas c' = fdatas c /\
  events c' = events c /\ options c' = options c /\ sv c' = sv c.
Proof.
  unfold SetDocument_field, classify.
  intros E. destruct f as [nm tx ia]; simpl in *.
  repeat case_match; simplify_eq/=; done.
Qed.

(** The text counter and the document flags after a turn that goes on. *)
Lemma SetDocument_field_counts sp f c l c' l' f' :
  SetDocument_field sp f c l = (true, c', l', f') ->
  numTextIndexable l' = (numTextIndexable l + (if text_field sp f then 1 else 0))%nat /\
  docFlags c' = (if geo_field sp f then Document_HasOnDemandDeletable else docFlags c).
Proof.
  unfold SetDocument_field, classify, text_field, geo_field, live, resolved, CheckIdx.
  intros E. destruct f as [nm tx ia]; simpl in *.
  repeat case_match; simplify_eq/=; split; done || lia.
Qed.

Lemma SetDocument_loop_frame sp fl : forall c l ok c' l' fl',
  SetDocument_loop sp fl c l = (ok, c', l', fl') ->
  doc c' = doc c /\ byteOffsets c' = byteOffsets c /\ fdatas c' = fdatas c /\
  events c' = events c /\ options c' = options c /\ sv c' = sv c.
Proof.
  induction fl as [|f fl IH]; intros c l ok c' l' fl' E; simpl in E.
  - by simplify_eq.
  - destruct (SetDocument_field sp f c l) as [[[ok1 c1] l1] f1] eqn:E1.
    apply SetDocument_field_frame in E1 as (?&?&?&?&?&?).
    destruct ok1.
    + destruct (SetDocument_loop sp fl c1 l1) as [[[ok2 c2] l2] fl2] eqn:E2.
      simplify_eq. apply IH in E2 as (?&?&?&?&?&?). split_and!; congruence.
    + by simplify_eq.
Qed.

Lemma SetDocument_loop_counts sp fl : forall c l c' l' fl',
  SetDocument_loop sp fl c l = (true, c', l', fl') ->
  numTextIndexable l' = (numTextIndexable l + count_text sp fl)%nat /\
  docFlags c' = (if existsb (geo_field sp) fl
                 then Document_HasOnDemandDeletable else docFlags c) /\
  fspecs c' = fspecs c ++ map (spec_of sp) fl.
Proof.
  unfold count_text.
  induction fl as [|f fl IH]; intros c l c' l' fl' E; simpl in E.
  - simplify_eq. simpl. rewrite app_nil_r. split_and!; [lia|done|done].
  - destruct (SetDocument_field sp f c l) as [[[ok1 c1] l1] f1] eqn:E1.
    destruct ok1; [|by simplify_eq].
    destruct (SetDocument_loop sp fl c1 l1) as [[[ok2 c2] l2] fl2] eqn:E2.
    simplify_eq.
    pose proof (SetDocument_field_counts _ _ _ _ _ _ _ E1) as (N1 & D1).
    apply SetDocument_field_ok in E1 as (_ & _ & _ & _ & _ & S1 & _).
    apply IH in E2 as (N2 & D2 & S2). rewrite N2, D2, S2, N1, D1, S1. simpl.
    split_and!.
    + destruct (text_field sp f); simpl; lia.
    + by destruct (geo_field sp f), (existsb (geo_field sp) fl).
    + by rewrite <- app_assoc.
Qed.

(** What the statements after the loop leave alone. *)
Lemma SetDocument_finish_frame sp d c l :
  let c' := SetDocument_finish sp d c l in
  fspecs c' = fspecs c /\ fdatas c' = fdatas c /\ docFlags c' = docFlags c /\
  events c' = events c /\ options c' = options c /\ doc c' = d /\
  byteOffsets c' = (if (Z.land (options c) DOCUMENT_ADD_NOSAVE =? 0)
                       && negb (bool_decide (numTextIndexable l = O))
                       && c_test (sp_flags sp) Index_StoreByteOffsets
                    then Some (numTextIndexable l, [])
                    else byteOffsets c).
Proof.
  unfold SetDocument_finish, SetDocument_offsets, SetDocument_empty, SetDocument_sv,
    SetDocument_derive, flag_if.
  repeat case_match; simpl in *; split_and!; done || congruence.
Qed.



Lemma SetDocument_ok_fspecs c sp d n c' d' :
  SetDocument c sp d n = (true, c', d') ->
  fspecs c' = fspecs c ++ map (spec_of sp) (fields d) /\ doc c' = d' /\
  docFlags c' = (if existsb (geo_field sp) (fields d)
                 then Document_HasOnDemandDeletable else docFlags c) /\
  byteOffsets c' =
    (if (Z.land (options c) DOCUMENT_ADD_NOSAVE =? 0)
        && negb (bool_decide (count_text sp (fields d) = O))
        && c_test (sp_flags sp) Index_StoreByteOffsets
     then Some (count_text sp (fields d), [])
     else byteOffsets c).
Proof.
  rewrite SetDocument_eq; cbv zeta.
  destruct (SetDocument_loop _ _ _ _) as [[[ok c5] l] fl] eqn:E.
  destruct ok; [|done]. intros [= <- <-].
  pose proof (SetDocument_loop_frame _ _ _ _ _ _ _ _ E) as (_ & Hbo & _ & _ & Hop & _).
  apply SetDocument_loop_counts in E as (Hn & Hdf & Hfs). simpl in Hfs, Hdf, Hn, Hbo, Hop.
  destruct (SetDocument_finish_frame sp (with_fields d fl) c5 l)
    as (-> & _ & -> & _ & _ & -> & ->).
  by rewrite Hn, Hbo, Hop.
Qed.

(** X3.  A successful call appends to [fspecs] one entry for each field of the
    document, in order: the spec of a matched field, the empty spec of a
    field that is skipped.  Nothing is removed: the entries that [fspecs]
    held on entry keep their positions in front of the new ones. *)
Theorem SetDocument_fspecs c sp d n c' d' :
  SetDocument c sp d n = (true, c', d') ->
  fspecs c' = fspecs c ++ map (spec_of sp) (fields d) /\
  (forall i fs, fspecs c !! i = Some fs -> fspecs c' !! i = Some fs) /\
  (forall i f, fields d !! i = Some f ->
     fspecs c' !! (length (fspecs c) + i)%nat = Some (spec_of sp f)).
Proof.
  intros E. apply SetDocument_ok_fspecs in E as (-> & _ & _ & _).
  split_and!; [done| |].
  - intros i fs Hi. by apply lookup_app_l_Some.
  - intros i f Hi. rewrite lookup_app_r by lia.
    replace (length (fspecs c) + i - length (fspecs c))%nat with i by lia.
    by rewrite list_lookup_fmap, Hi.
Qed.

(** X5.  After a successful call the byte offsets are allocated anew, with
    room for as many fields as the document has text fields, exactly when
    [NOSAVE] is not asked for, the document has a text field and the spec
    stores byte offsets; otherwise [byteOffsets] is left as it was. *)
Theorem SetDocument_byteOffsets c sp d n c' d' :
  SetDocument c sp d n = (true, c', d') ->
  byteOffsets c' =
  if (Z.land (options c) DOCUMENT_ADD_NOSAVE =? 0)
     && negb (bool_decide (count_text sp (fields d) = O))
     && c_test (sp_flags sp) Index_StoreByteOffsets
  then Some (count_text sp (fields d), [])
  else byteOffsets c.
Proof.
  intros E. by apply SetDocument_ok_fspecs in E as (_ & _ & _ & ->).
Qed.

(** X6.  After a successful call the document flags are
    [Document_HasOnDemandDeletable], and nothing else, when a matched
    indexable field is indexed as geo; otherwise they are as they were. *)
Theorem SetDocument_docFlags c sp d n c' d' :
  SetDocument c sp d n = (true, c', d') ->
  docFlags c' =
  if existsb (geo_field sp) (fields d)
  then Document_HasOnDemandDeletable else docFlags c.
Proof.
  intros E. by apply SetDocument_ok_fspecs in E as (_ & _ & -> & _).
Qed.

End SetDocumentEffects.

Section SetDocumentVerdict.
Context {hdr : Headers} {hdr_ok : HeadersOk} {host : Host} {alloc : Allocator}.

(** The field loop when it stops: the fields before the one it rejects
    are accepted and resolved, the rejected one and those after it are as
    they were. *)
Lemma SetDocument_loop_fail sp fl : forall c l c' l' fl',
  SetDocument_loop sp fl c l = (false, c', l', fl') ->
  exists pre f rest fs,
    fl = pre ++ f :: rest /\
    fl' = map (resolve sp) pre ++ f :: rest /\
    accepted sp (dedupe l) pre /\
    live sp f = Some fs /\
    fspecs c' = fspecs c ++ map (spec_of sp) pre ++ [fs] /\
    ((fs_index fs ∈ live_indexes sp pre \/ fs_index fs ∈ dedupe l) /\
     status c' = SetError (status c) QUERY_EDUPFIELD (msg_dupfield (fs_name fs))
     \/
     (f_indexAs f <> 0 /\ ~ mask_subset (f_indexAs f) (fs_types fs)) /\
     status c' = SetError (status c) QUERY_EUNSUPPTYPE (msg_unsupptype (fs_name fs))).
Proof.
  induction fl as [|f fl IH]; intros c l c' l' fl' E; simpl in E.
  - by simplify_eq.
  - destruct (SetDocument_field sp f c l) as [[[ok1 c1] l1] f1] eqn:E1.
    destruct ok1.
    + destruct (SetDocument_loop sp fl c1 l1) as [[[ok2 c2] l2] fl2] eqn:E2.
      simplify_eq.
      apply SetDocument_field_ok in E1
        as (-> & _ & _ & Hd & _ & Hs & _ & Hst & _ & Hc & Hn).
      apply IH in E2 as (pre & g & rest & fs & Hfl & Hfl' & Ha & L & Hfs & Hr).
      exists (f :: pre), g, rest, fs.
      refine (conj _ (conj _ (conj _ (conj L (conj _ _))))).
      * simpl. by rewrite Hfl.
      * simpl. by rewrite Hfl'.
      * apply accepted_cons. rewrite Hd in Ha. done.
      * rewrite Hfs, Hs. simpl. by rewrite <- app_assoc.
      * rewrite Hst in Hr. rewrite live_indexes_cons.
        destruct Hr as [[Hin Hr]|Hr]; [left|by right]. split; [|done].
        rewrite Hd in Hin. destruct (live sp f); set_solver.
    + simplify_eq.
      apply SetDocument_field_fail in E1 as (-> & fs & L & Hfs & _ & _ & _ & Hr).
      exists [], f, fl, fs.
      refine (conj _ (conj _ (conj _ (conj L (conj _ _))))); try done.
      * apply accepted_nil.
      * destruct Hr as [[Hin Hr]|(_ & Hz & Hm & Hr)]; [left|right]; split; auto.
Qed.

(** X1.  [SetDocument] returns [true] exactly on the documents in which no two
    fields with text are matched to the same [FieldSpec.index] and every
    matched field asks for types of the schema only: nothing else makes it
    fail, and nothing of the context it is called on matters. *)
Theorem SetDocument_accepts_iff c sp d n :
  (SetDocument c sp d n).1.1 = true <-> accepted sp ∅ (fields d).
Proof.
  split.
  - rewrite SetDocument_eq; cbv zeta.
    destruct (SetDocument_loop _ _ _ _) as [[[ok c5] l] fl] eqn:E.
    destruct ok; simpl; [|done]. intros _.
    by apply SetDocument_loop_ok in E as (_ & _ & _ & _ & _ & _ & _ & _ & _ & Ha).
  - intros Ha. destruct (SetDocument_accepted c sp d n Ha) as (c' & ->). done.
Qed.

Lemma SetDocument_fail_code c sp d n c' d' :
  code (status c) = QUERY_OK ->
  SetDocument c sp d n = (false, c', d') ->
  code (status c') = QUERY_EDUPFIELD \/ code (status c') = QUERY_EUNSUPPTYPE.
Proof.
  intros Hok. rewrite SetDocument_eq; cbv zeta.
  destruct (SetDocument_loop _ _ _ _) as [[[ok c5] l] fl] eqn:E.
  destruct ok; [done|]. intros [= <- <-].
  apply SetDocument_loop_fail in E as (pre & f & rest & fs & _ & _ & _ & _ & _ & Hr).
  simpl in Hr.
  destruct Hr as [[_ ->]|[_ ->]]; [left|right]; by rewrite SetError_fresh.
Qed.

(** X2.  A call that returns [false], made on a status without an error,
    leaves the code [DUPFIELD] or [UNSUPPTYPE].  The context keeps its
    document, its sort vector and its byte offsets: nothing is allocated
    and the caller's document is not moved in.  The call is not without
    effect, though: [fspecs] has grown by the fields up to the rejected
    one, and in the caller's document the fields before the rejected one
    have their [indexAs] resolved. *)
Theorem SetDocument_failure c sp d n c' d' :
  code (status c) = QUERY_OK ->
  SetDocument c sp d n = (false, c', d') ->
  (code (status c') = QUERY_EDUPFIELD \/ code (status c') = QUERY_EUNSUPPTYPE) /\
  doc c' = doc c /\ sv c' = sv c /\ byteOffsets c' = byteOffsets c /\
  events c' = events c /\
  exists pre f rest,
    fields d = pre ++ f :: rest /\
    fields d' = map (resolve sp) pre ++ f :: rest /\
    length (fspecs c') = (length (fspecs c) + length pre + 1)%nat.
Proof.
  intros Hok E0. pose proof (SetDocument_fail_code _ _ _ _ _ _ Hok E0) as Hcode.
  revert E0. rewrite SetDocument_eq; cbv zeta.
  destruct (SetDocument_loop _ _ _ _) as [[[ok c5] l] fl] eqn:E.
  destruct ok; [done|]. intros [= <- <-].
  pose proof (SetDocument_loop_frame _ _ _ _ _ _ _ _ E) as (Hd & Hbo & _ & Hev & _ & Hsv).
  apply SetDocument_loop_fail in E
    as (pre & f & rest & fs & Hfl & Hfl' & _ & _ & Hfs & Hr).
  simpl in *. split_and!; try done.
  - exists pre, f, rest. split_and!; try done.
    rewrite Hfs, !length_app, length_map. simpl. lia.
Qed.

End SetDocumentVerdict.

(** ** [AddToIndexes]: the turns one by one *)

Section AddToIndexesTurns.
Context {hdr : Headers} {host : Host}.

Lemma same_field_refl f : same_field f f.
Proof. by unfold same_field. Qed.

Lemma same_field_trans f1 f2 f3 :
  same_field f1 f2 -> same_field f2 f3 -> same_field f1 f3.
Proof. unfold same_field. intros (?&?&?) (?&?&?). split_and!; try congruence. auto. Qed.

Lemma sv_Put_some c i x c' : sv_Put c i x = Ret c' -> is_Some (sv c').
Proof. unfold sv_Put. destruct (sv c); intros [= <-]. simpl. eauto. Qed.

Lemma sv_Put_returns c i x : is_Some (sv c) -> exists c', sv_Put c i x = Ret c'.
Proof. unfold sv_Put. intros [v ->]. eauto. Qed.

(** The full-text handler writes neither the field nor the slot of
    [fdatas], and it never returns [false]. *)
Lemma FulltextPreprocessor_data fs e ok e' :
  FulltextPreprocessor fs e = Ret (ok, e') ->
  ok = true /\ p_field e' = p_field e /\ p_fdata e' = p_fdata e /\
  (is_Some (sv (p_ctx e)) -> is_Some (sv (p_ctx e'))).
Proof.
  unfold FulltextPreprocessor. destruct (f_text (p_field e)) as [t|]; [|done].
  assert (Hsv : forall c1, is_Some (sv c1) ->
            is_Some (sv
              (if IsIndexable fs
               then
                 let '(toks, lastTokPos) := tokenize t (tokenize_options fs) in
                 let c' := set_fwIdx c1
                             (fwIdx c1 ++ map (fun t => (t, fs_ftId fs, fs_ftWeight fs)) toks) in
                 let c'' :=
                   match byteOffsets c' with
                   | Some (cap, regions) =>
                       set_byteOffsets c'
                         (Some (cap, regions ++ [(fs_ftId fs, totalTokens c' + 1, lastTokPos)]))
                   | None => c'
                   end in
                 set_totalTokens c'' lastTokPos
               else c1))).
  { intros c1 K. destruct (IsIndexable fs); [|done].
    destruct (tokenize _ _) as [toks lastp]. simpl.
    by destruct (byteOffsets c1) as [[cap regions]|]. }
  destruct (IsSortable fs).
  - destruct (sv_Put _ _ _) as [c1| | |] eqn:E1; simpl; [|done|done|done].
    apply sv_Put_some in E1. intros [= <- <-]. simpl. split_and!; try done.
    intros _. by apply Hsv.
  - simpl. intros [= <- <-]. simpl. split_and!; try done. apply Hsv.
Qed.

(** The numeric handler returns [true] exactly when the host parses the
    text, and then leaves the number in the slot of [fdatas]. *)
Lemma NumericPreprocessor_data fs e ok e' :
  NumericPreprocessor fs e = Ret (ok, e') ->
  p_field e' = p_field e /\
  (is_Some (sv (p_ctx e)) -> is_Some (sv (p_ctx e'))) /\
  exists t, f_text (p_field e) = Some t /\
    if ok then
      exists x, RedisModule_StringToDouble t = Some x /\
        fd_numeric (p_fdata e') = Some x
    else RedisModule_StringToDouble t = None /\ p_fdata e' = p_fdata e.
Proof.
  unfold NumericPreprocessor. destruct (f_text (p_field e)) as [t|]; [|done].
  destruct (RedisModule_StringToDouble t) as [x|] eqn:Hx.
  - destruct (IsSortable fs).
    + destruct (sv_Put _ _ _) as [c1| | |] eqn:E1; simpl; [|done|done|done].
      apply sv_Put_some in E1. intros [= <- <-]. simpl. split_and!; eauto.
    + simpl. intros [= <- <-]. simpl. split_and!; eauto.
  - intros [= <- <-]. simpl. split_and!; eauto.
Qed.

(** The geo handler returns [true] exactly when the text has a
    separator; it keeps the name and [indexAs] of the field and the number
    in the slot. *)
Lemma GeoPreprocessor_data fs e ok e' :
  GeoPreprocessor fs e = Ret (ok, e') ->
  same_field (p_field e) (p_field e') /\ p_ctx e' = p_ctx e /\
  fd_numeric (p_fdata e') = fd_numeric (p_fdata e) /\
  exists t, f_text (p_field e) = Some t /\
    if ok then is_Some (strpbrk t " ,")
    else strpbrk t " ," = None /\ p_field e' = p_field e.
Proof.
  unfold GeoPreprocessor, same_field. destruct (f_text (p_field e)) as [t|] eqn:Ht; [|done].
  destruct (strpbrk t " ,") as [pos|] eqn:Hp; intros [= <- <-]; simpl;
    split_and!; eauto.
Qed.

(** The tag handler never returns [false]; it writes the tags only. *)
Lemma TagPreprocessor_data fs e ok e' :
  TagPreprocessor fs e = Ret (ok, e') ->
  ok = true /\ p_field e' = p_field e /\
  fd_numeric (p_fdata e') = fd_numeric (p_fdata e) /\
  (is_Some (sv (p_ctx e)) -> is_Some (sv (p_ctx e'))).
Proof.
  unfold TagPreprocessor. destruct (TagIndex_Tags _ _ _) as [|tg tgs].
  - by intros [= <- <-].
  - destruct (IsSortable fs).
    + destruct (f_text (p_field e)) as [t|]; [|done].
      destruct (sv_Put _ _ _) as [c1| | |] eqn:E1; simpl; [|done|done|done].
      apply sv_Put_some in E1. by intros [= <- <-].
    + by intros [= <- <-].
Qed.

(** The handlers run on what they need. *)
Lemma FulltextPreprocessor_returns fs e :
  ready fs e -> exists ok e', FulltextPreprocessor fs e = Ret (ok, e').
Proof.
  unfold ready, FulltextPreprocessor. intros ([t ->] & Hsv).
  destruct (IsSortable fs).
  - destruct (sv_Put_returns (p_ctx e) (fs_sortIdx fs) (RS_STR t)) as (c1 & ->); eauto.
  - simpl. eauto.
Qed.

Lemma NumericPreprocessor_returns fs e :
  ready fs e -> exists ok e', NumericPreprocessor fs e = Ret (ok, e').
Proof.
  unfold ready, NumericPreprocessor. intros ([t ->] & Hsv).
  destruct (RedisModule_StringToDouble t) as [x|]; [|eauto].
  destruct (IsSortable fs).
  - destruct (sv_Put_returns (p_ctx e) (fs_sortIdx fs) (RS_NUM x)) as (c1 & ->); eauto.
  - simpl. eauto.
Qed.

Lemma GeoPreprocessor_returns fs e :
  ready fs e -> exists ok e', GeoPreprocessor fs e = Ret (ok, e').
Proof.
  unfold ready, GeoPreprocessor. intros ([t ->] & Hsv).
  destruct (strpbrk t " ,"); eauto.
Qed.

Lemma TagPreprocessor_returns fs e :
  ready fs e -> exists ok e', TagPreprocessor fs e = Ret (ok, e').
Proof.
  unfold ready, TagPreprocessor. intros ([t ->] & Hsv).
  destruct (TagIndex_Tags _ _ _); [eauto|].
  destruct (IsSortable fs); [|eauto].
  destruct (sv_Put_returns (p_ctx e) (fs_sortIdx fs) (RS_STR t)) as (c1 & ->); eauto.
Qed.

(** The handlers under the test of [indexAs]. *)
Lemma when_fulltext fs e ok e' :
  when_idx INDEXFLD_T_FULLTEXT FulltextPreprocessor fs e = Ret (ok, e') ->
  ok = true /\ p_field e' = p_field e /\ p_fdata e' = p_fdata e /\
  (is_Some (sv (p_ctx e)) -> is_Some (sv (p_ctx e'))).
Proof.
  unfold when_idx. destruct (CheckIdx _ _); [apply FulltextPreprocessor_data|].
  by intros [= <- <-].
Qed.

Lemma when_numeric fs e ok e' :
  when_idx INDEXFLD_T_NUMERIC NumericPreprocessor fs e = Ret (ok, e') ->
  p_field e' = p_field e /\
  (is_Some (sv (p_ctx e)) -> is_Some (sv (p_ctx e'))) /\
  (if ok then
     CheckIdx (p_field e) INDEXFLD_T_NUMERIC = true ->
     exists t x, f_text (p_field e) = Some t /\
       RedisModule_StringToDouble t = Some x /\ fd_numeric (p_fdata e') = Some x
   else
     CheckIdx (p_field e) INDEXFLD_T_NUMERIC = true /\
     exists t, f_text (p_field e) = Some t /\ RedisModule_StringToDouble t = None).
Proof.
  unfold when_idx. destruct (CheckIdx _ _).
  - intros E. apply NumericPreprocessor_data in E as (F & S & t & Ht & N).
    split_and!; try done. destruct ok.
    + intros _. destruct N as (x & Hx & Hn). eauto.
    + destruct N as (Hx & _). eauto.
  - by intros [= <- <-].
Qed.

Lemma when_geo fs e ok e' :
  when_idx INDEXFLD_T_GEO GeoPreprocessor fs e = Ret (ok, e') ->
  same_field (p_field e) (p_field e') /\
  (is_Some (sv (p_ctx e)) -> is_Some (sv (p_ctx e'))) /\
  fd_numeric (p_fdata e') = fd_numeric (p_fdata e) /\
  (ok = false ->
   CheckIdx (p_field e) INDEXFLD_T_GEO = true /\
   exists t, f_text (p_field e) = Some t /\ strpbrk t " ," = None).
Proof.
  unfold when_idx. destruct (CheckIdx _ _).
  - intros E. apply GeoPreprocessor_data in E as (F & -> & N & t & Ht & G).
    split_and!; try done. intros ->. destruct G as (G & _). eauto.
  - intros [= <- <-]. split_and!; done || apply same_field_refl.
Qed.

Lemma when_tag fs e ok e' :
  when_idx INDEXFLD_T_TAG TagPreprocessor fs e = Ret (ok, e') ->
  ok = true /\ p_field e' = p_field e /\
  fd_numeric (p_fdata e') = fd_numeric (p_fdata e) /\
  (is_Some (sv (p_ctx e)) -> is_Some (sv (p_ctx e'))).
Proof.
  unfold when_idx. destruct (CheckIdx _ _); [apply TagPreprocessor_data|].
  by intros [= <- <-].
Qed.

(** What the four handlers of one turn do together: the field keeps its
    name and [indexAs], an allocated sort vector stays allocated, a turn
    that succeeds on a numeric field leaves the parsed number in the slot,
    and a turn fails only on a numeric text the host does not parse or on
    a geo text without a separator. *)
Lemma preprocess_facts fs e ok e' :
  preprocess fs e = Ret (ok, e') ->
  same_field (p_field e) (p_field e') /\
  (is_Some (sv (p_ctx e)) -> is_Some (sv (p_ctx e'))) /\
  (if ok then
     CheckIdx (p_field e) INDEXFLD_T_NUMERIC = true ->
     exists t x, f_text (p_field e) = Some t /\
       RedisModule_StringToDouble t = Some x /\ fd_numeric (p_fdata e') = Some x
   else
     exists t, f_text (p_field e) = Some t /\
       (CheckIdx (p_field e) INDEXFLD_T_NUMERIC = true /\
        RedisModule_StringToDouble t = None
        \/
        CheckIdx (p_field e) INDEXFLD_T_GEO = true /\ strpbrk t " ," = None)).
Proof.
  unfold preprocess.
  destruct (when_idx INDEXFLD_T_FULLTEXT _ fs e) as [[ok1 e1]| | |] eqn:E1; simpl; [|done|done|done].
  apply when_fulltext in E1 as (-> & F1 & D1 & S1). simpl.
  destruct (when_idx INDEXFLD_T_NUMERIC _ fs e1) as [[ok2 e2]| | |] eqn:E2; simpl; [|done|done|done].
  apply when_numeric in E2 as (F2 & S2 & N2). rewrite F1 in N2, F2.
  destruct ok2; simpl.
  2: { intros [= <- <-]. rewrite F2. split_and!; [apply same_field_refl|auto|].
       destruct N2 as (C & t & Ht & Hx). eauto. }
  destruct (when_idx INDEXFLD_T_GEO _ fs e2) as [[ok3 e3]| | |] eqn:E3; simpl; [|done|done|done].
  apply when_geo in E3 as (F3 & S3 & N3 & G3). rewrite F2 in F3, G3.
  destruct ok3; simpl.
  2: { intros [= <- <-]. split_and!; [done|auto|].
       destruct (G3 eq_refl) as (C & t & Ht & Hx). eauto. }
  intros E4. apply when_tag in E4 as (-> & F4 & N4 & S4). rewrite F4.
  split_and!; [done|auto|].
  intros C. destruct (N2 C) as (t & x & Ht & Hx & Hn). exists t, x.
  split_and!; try done. congruence.
Qed.

(** The four handlers run when the first of them finds what it needs. *)
Lemma preprocess_returns fs e :
  ready fs e -> exists ok e', preprocess fs e = Ret (ok, e').
Proof.
  intros R. unfold preprocess.
  assert (R1 : exists ok1 e1,
            when_idx INDEXFLD_T_FULLTEXT FulltextPreprocessor fs e = Ret (ok1, e1)).
  { unfold when_idx. destruct (CheckIdx _ _); [by apply FulltextPreprocessor_returns|eauto]. }
  destruct R1 as (ok1 & e1 & E1). rewrite E1. simpl.
  apply when_fulltext in E1 as (-> & F1 & D1 & S1). simpl.
  assert (Rd1 : ready fs e1).
  { destruct R as (Rt & Rs). split; [by rewrite F1|auto]. }
  assert (R2 : exists ok2 e2,
            when_idx INDEXFLD_T_NUMERIC NumericPreprocessor fs e1 = Ret (ok2, e2)).
  { unfold when_idx. destruct (CheckIdx _ _); [by apply NumericPreprocessor_returns|eauto]. }
  destruct R2 as (ok2 & e2 & E2). rewrite E2. simpl.
  apply when_numeric in E2 as (F2 & S2 & _).
  destruct ok2; simpl; [|eauto].
  assert (Rd2 : ready fs e2).
  { destruct Rd1 as (Rt & Rs). split; [by rewrite F2|auto]. }
  assert (R3 : exists ok3 e3,
            when_idx INDEXFLD_T_GEO GeoPreprocessor fs e2 = Ret (ok3, e3)).
  { unfold when_idx. destruct (CheckIdx _ _); [by apply GeoPreprocessor_returns|eauto]. }
  destruct R3 as (ok3 & e3 & E3). rewrite E3. simpl.
  apply when_geo in E3 as ((_ & _ & F3) & S3 & _).
  destruct ok3; simpl; [|eauto].
  assert (Rd3 : ready fs e3).
  { destruct Rd2 as (Rt & Rs). split; auto. }
  unfold when_idx. destruct (CheckIdx _ _); [by apply TagPreprocessor_returns|eauto].
Qed.

(** One turn of the loop: the field is skipped and nothing is written,
    or the handlers have run and their writes are in the slot [i] of
    [fdatas] and in the field [i] of the document. *)
Lemma AddToIndexes_field_facts i ff c ok c' :
  AddToIndexes_field i ff c = Ret (ok, c') ->
  exists fs, fspecs c !! i = Some fs /\
  fspecs c' = fspecs c /\
  (is_Some (sv c) -> is_Some (sv c')) /\
  (c' = c /\ ok = true /\ (fs_name fs = EmptyString \/ f_indexAs ff = 0)
   \/
   fs_name fs <> EmptyString /\
   exists ff' fd',
     same_field ff ff' /\
     fields (doc c') = <[i := ff']> (fields (doc c)) /\
     fdatas c' = <[i := fd']> (fdatas c) /\
     (if ok then
        CheckIdx ff INDEXFLD_T_NUMERIC = true ->
        exists t x, f_text ff = Some t /\
          RedisModule_StringToDouble t = Some x /\ fd_numeric fd' = Some x
      else
        exists t, f_text ff = Some t /\
          (CheckIdx ff INDEXFLD_T_NUMERIC = true /\
           RedisModule_StringToDouble t = None
           \/
           CheckIdx ff INDEXFLD_T_GEO = true /\ strpbrk t " ," = None))).
Proof.
  unfold AddToIndexes_field. destruct (fspecs c !! i) as [fs|]; [|done].
  intros E. exists fs. split; [done|]. revert E.
  destruct (bool_decide (fs_name fs = EmptyString)) eqn:Hn; simpl.
  { apply bool_decide_eq_true_1 in Hn. intros [= <- <-]. split_and!; auto. }
  apply bool_decide_eq_false_1 in Hn.
  destruct (Z.eqb_spec (f_indexAs ff) 0) as [Hz|Hz].
  { intros [= <- <-]. split_and!; auto. }
  destruct (preprocess fs _) as [[ok1 e1]| | |] eqn:E1; simpl; [|done|done|done].
  pose proof (preprocess_handled _ _ _ _ E1) as ((_ & _ & Ks & _ & Kd & Kf) & _).
  apply preprocess_facts in E1 as (F & S & N). simpl in *.
  intros [= <- <-]. unfold commit. simpl. rewrite Kd, Kf.
  split_and!; [done|done|]. right. split; [done|].
  exists (p_field e1), (p_fdata e1). split_and!; done.
Qed.

Lemma c_test_0 m : c_test 0 m = false.
Proof. unfold c_test. by rewrite Z.land_0_l. Qed.

(** The loop, from the position [i] on. *)
Lemma AddToIndexes_loop_facts fl : forall i c ok c',
  AddToIndexes_loop i fl c = Ret (ok, c') ->
  (forall k ff, fl !! k = Some ff -> fields (doc c) !! (i + k)%nat = Some ff) ->
  map f_name (fields (doc c')) = map f_name (fields (doc c)) /\
  map f_indexAs (fields (doc c')) = map f_indexAs (fields (doc c)) /\
  (forall j, (j < i)%nat -> fdatas c' !! j = fdatas c !! j) /\
  (if ok then
     forall k ff fs,
       fl !! k = Some ff -> fspecs c !! (i + k)%nat = Some fs ->
       fs_name fs <> EmptyString ->
       CheckIdx ff INDEXFLD_T_NUMERIC = true ->
       exists t x, f_text ff = Some t /\
         RedisModule_StringToDouble t = Some x /\
         fd_numeric (fdata_at (fdatas c') (i + k)) = Some x
   else
     exists k ff fs t,
       fl !! k = Some ff /\ fspecs c !! (i + k)%nat = Some fs /\
       fs_name fs <> EmptyString /\ f_text ff = Some t /\
       (CheckIdx ff INDEXFLD_T_NUMERIC = true /\
        RedisModule_StringToDouble t = None
        \/
        CheckIdx ff INDEXFLD_T_GEO = true /\ strpbrk t " ," = None)).
Proof.
  induction fl as [|ff fl IH]; intros i c ok c'; simpl.
  - intros [= <- <-] _. split_and!; done.
  - destruct (AddToIndexes_field i ff c) as [[ok1 c1]| | |] eqn:E1; simpl; [|done|done|done].
    intros E2 Hdoc.
    assert (Hi : fields (doc c) !! i = Some ff).
    { specialize (Hdoc O ff eq_refl). by rewrite Nat.add_0_r in Hdoc. }
    apply AddToIndexes_field_facts in E1 as (fs & Hfs & Ks & _ & Hturn).
    assert (Hdoc1 : forall k g, fl !! k = Some g ->
                      fields (doc c1) !! (S i + k)%nat = Some g).
    { intros k g Hk. specialize (Hdoc (S k) g Hk).
      replace (i + S k)%nat with (S i + k)%nat in Hdoc by lia.
      destruct Hturn as [(-> & _)|(_ & ff' & fd' & _ & -> & _)]; [done|].
      rewrite list_lookup_insert_ne by lia. done. }
    assert (Hnames : map f_name (fields (doc c1)) = map f_name (fields (doc c)) /\
                     map f_indexAs (fields (doc c1)) = map f_indexAs (fields (doc c))).
    { destruct Hturn as [(-> & _)|(_ & ff' & fd' & (Sn & Si & _) & -> & _)]; [done|].
      rewrite !list_fmap_insert, Sn, Si.
      split; apply list_insert_id; by rewrite list_lookup_fmap, Hi. }
    destruct Hnames as (Hn1 & Hi1).
    destruct ok1.
    + apply IH in E2 as (Hn2 & Hi2 & Hlow & Hrest); [|done].
      split_and!; [congruence|congruence| |].
      * intros j Hj. rewrite Hlow by lia.
        destruct Hturn as [(-> & _)|(_ & ff' & fd' & _ & _ & -> & _)]; [done|].
        apply lookup_insert_ne. lia.
      * destruct ok.
        -- intros k g gs Hk Hgs Hgn Hc. destruct k as [|k]; simpl in Hk.
           ++ simplify_eq. rewrite Nat.add_0_r in Hgs |- *. simplify_eq.
              destruct Hturn as [(_ & _ & [He|Hz])|(_ & ff' & fd' & _ & _ & Hfd & Hnum)].
              ** done.
              ** unfold CheckIdx in Hc. by rewrite Hz, c_test_0 in Hc.
              ** destruct (Hnum Hc) as (t & x & Ht & Hx & Hfx). exists t, x.
                 split_and!; try done. unfold fdata_at.
                 rewrite Hlow by lia. by rewrite Hfd, lookup_insert_eq.
           ++ replace (i + S k)%nat with (S i + k)%nat in * by lia.
              apply (Hrest k g gs); try done. by rewrite Ks.
        -- destruct Hrest as (k & g & gs & t & Hk & Hgs & Hgn & Ht & Hcause).
           exists (S k), g, gs, t.
           replace (i + S k)%nat with (S i + k)%nat by lia.
           rewrite Ks in Hgs. done.
    + injection E2 as <- <-.
      destruct Hturn as [(_ & [=] & _)|(Hne & ff' & fd' & _ & _ & Hfd & t & Ht & Hcause)].
      split_and!; try done.
      * intros j Hj. rewrite Hfd. apply lookup_insert_ne. lia.
      * exists O, ff, fs, t. rewrite Nat.add_0_r. done.
Qed.

(** X10.  A run of [AddToIndexes] that returns [REDISMODULE_OK] hands the
    context to the indexer, once, and does nothing else that leaves the
    context: the completion callback is not called and the client is not
    unblocked.  The status, the flag word and [fspecs] are as they were,
    and the fields of the document keep their names and their [indexAs]. *)
Theorem AddToIndexes_success c c' :
  AddToIndexes c = Ret (REDISMODULE_OK, c') ->
  events c' = events c ++ [EvIndexerAdd] /\
  status c' = status c /\ stateFlags c' = stateFlags c /\ fspecs c' = fspecs c /\
  map f_name (fields (doc c')) = map f_name (fields (doc c)) /\
  map f_indexAs (fields (doc c')) = map f_indexAs (fields (doc c)).
Proof.
  unfold AddToIndexes.
  destruct (AddToIndexes_loop _ _ _) as [[ok cm]| | |] eqn:EL; simpl; [|done|done|done].
  destruct ok; [|done]. intros [= <-]. simpl.
  pose proof (AddToIndexes_loop_outcome _ _ _ _ _ EL) as (F & V & P & S).
  apply AddToIndexes_loop_facts in EL as (Hn & Hi & _); [|done].
  split_and!; congruence.
Qed.

(** X12.  After a run that returns [REDISMODULE_OK], the slot of [fdatas] of
    every field that is indexed as numeric under a spec with a name holds
    the number the host parses from the text of the field: what the
    numeric indexer reads is what the document says. *)
Theorem AddToIndexes_numeric_data c c' i ff fs :
  AddToIndexes c = Ret (REDISMODULE_OK, c') ->
  fields (doc c) !! i = Some ff ->
  fspecs c !! i = Some fs ->
  fs_name fs <> EmptyString ->
  CheckIdx ff INDEXFLD_T_NUMERIC = true ->
  exists t x,
    f_text ff = Some t /\ RedisModule_StringToDouble t = Some x /\
    fd_numeric (fdata_at (fdatas c') i) = Some x.
Proof.
  unfold AddToIndexes.
  destruct (AddToIndexes_loop _ _ _) as [[ok cm]| | |] eqn:EL; simpl; [|done|done|done].
  destruct ok; [|done]. intros [= <-] Hi Hfs Hn Hc. simpl.
  apply AddToIndexes_loop_facts in EL as (_ & _ & _ & Hnum); [|done].
  apply (Hnum i ff fs); done.
Qed.

(** X11.  A run returns [REDISMODULE_ERR] for one of two reasons only: a field
    indexed as numeric whose text the host does not parse as a number, or
    a field indexed as geo whose text has neither a space nor a comma.
    Full-text and tag fields never make it fail. *)
Theorem AddToIndexes_failure_cause c c' :
  AddToIndexes c = Ret (REDISMODULE_ERR, c') ->
  exists i ff fs t,
    fields (doc c) !! i = Some ff /\ fspecs c !! i = Some fs /\
    fs_name fs <> EmptyString /\ f_text ff = Some t /\
    (CheckIdx ff INDEXFLD_T_NUMERIC = true /\ RedisModule_StringToDouble t = None
     \/
     CheckIdx ff INDEXFLD_T_GEO = true /\ strpbrk t " ," = None).
Proof.
  unfold AddToIndexes.
  destruct (AddToIndexes_loop _ _ _) as [[ok cm]| | |] eqn:EL; simpl; [|done|done|done].
  destruct ok; [done|]. intros _.
  apply AddToIndexes_loop_facts in EL as (_ & _ & _ & Hc); [|done].
  destruct Hc as (k & ff & fs & t & ? & ? & ? & ? & ?). exists k, ff, fs, t. done.
Qed.

(** X13.  The fields of a document that the index does not know, or that are
    indexed as nothing, are skipped: a document made of such fields only
    is handed to the indexer as it is, with nothing preprocessed. *)
Theorem AddToIndexes_skips c :
  (forall k ff, fields (doc c) !! k = Some ff ->
     exists fs, fspecs c !! k = Some fs /\
       (fs_name fs = EmptyString \/ f_indexAs ff = 0)) ->
  AddToIndexes c = Ret (REDISMODULE_OK, emit c [EvIndexerAdd]).
Proof.
  intros H. unfold AddToIndexes.
  assert (L : forall fl i,
            (forall k ff, fl !! k = Some ff ->
               exists fs, fspecs c !! (i + k)%nat = Some fs /\
                 (fs_name fs = EmptyString \/ f_indexAs ff = 0)) ->
            AddToIndexes_loop i fl c = Ret (true, c)).
  { induction fl as [|ff fl IH]; intros i Hfl; simpl; [done|].
    destruct (Hfl O ff eq_refl) as (fs & Hfs & Hs). rewrite Nat.add_0_r in Hfs.
    unfold AddToIndexes_field. rewrite Hfs.
    assert (bool_decide (fs_name fs = EmptyString) || (f_indexAs ff =? 0) = true) as ->.
    { destruct Hs as [Hs|Hs].
      - by rewrite bool_decide_eq_true_2.
      - rewrite Hs. apply orb_true_r. }
    simpl. apply IH. intros k g Hk. specialize (Hfl (S k) g Hk).
    by replace (i + S k)%nat with (S i + k)%nat in Hfl by lia. }
  rewrite (L (fields (doc c)) O); [done|]. intros k ff Hk. by apply H.
Qed.

(** The loop runs to a result when every field finds its entry of
    [fspecs] and, under a spec with a name, its text and, if the spec is
    sortable, the sort vector. *)
Lemma AddToIndexes_loop_returns fl : forall i c,
  (forall k ff, fl !! k = Some ff ->
     exists fs, fspecs c !! (i + k)%nat = Some fs /\
       (fs_name fs <> EmptyString ->
        is_Some (f_text ff) /\ (IsSortable fs = true -> is_Some (sv c)))) ->
  exists ok c', AddToIndexes_loop i fl c = Ret (ok, c').
Proof.
  induction fl as [|ff fl IH]; intros i c Hfl; simpl; [eauto|].
  destruct (Hfl O ff eq_refl) as (fs & Hfs & Hr). rewrite Nat.add_0_r in Hfs.
  assert (E1 : exists ok1 c1, AddToIndexes_field i ff c = Ret (ok1, c1)).
  { unfold AddToIndexes_field. rewrite Hfs.
    destruct (bool_decide (fs_name fs = EmptyString)) eqn:Hn; simpl; [eauto|].
    apply bool_decide_eq_false_1 in Hn.
    destruct (f_indexAs ff =? 0); [eauto|].
    destruct (preprocess_returns fs (mkPreEnv c ff (fdata_at (fdatas c) i) (status c)))
      as (ok1 & e1 & ->); [by apply Hr|]. simpl. eauto. }
  destruct E1 as (ok1 & c1 & E1). rewrite E1. simpl.
  destruct ok1; [|eauto].
  apply AddToIndexes_field_facts in E1 as (fs' & _ & Ks & Ksv & _).
  apply IH. intros k g Hk. specialize (Hfl (S k) g Hk).
  replace (i + S k)%nat with (S i + k)%nat in Hfl by lia.
  destruct Hfl as (gs & Hgs & Hg). exists gs. rewrite Ks. split; [done|].
  intros Hn. destruct (Hg Hn) as (Ht & Hs). auto.
Qed.

End AddToIndexesTurns.

(** ** [AddToIndexes]: a failing field aborts the document *)

Section AddToIndexesAbort.
Context {hdr : Headers} {host : Host}.

Lemma prepared_from_spec c fl : forall i,
  prepared_from c i fl = true ->
  forall k ff, fl !! k = Some ff ->
    exists fs, fspecs c !! (i + k)%nat = Some fs /\
      (fs_name fs <> EmptyString ->
       is_Some (f_text ff) /\ (IsSortable fs = true -> is_Some (sv c))).
Proof.
  induction fl as [|f fl IH]; intros i H k ff Hk; [done|].
  simpl in H. destruct (fspecs c !! i) as [fs|] eqn:Hfs; [|done].
  apply andb_true_iff in H as (Hf & Hr).
  destruct k as [|k]; simpl in Hk.
  - simplify_eq. exists fs. rewrite Nat.add_0_r. split; [done|]. intros Hn.
    unfold prepared_field in Hf. apply orb_true_iff in Hf as [Hf|Hf].
    + by apply bool_decide_eq_true_1 in Hf.
    + apply andb_true_iff in Hf as (Ht & Hs). apply bool_decide_eq_true_1 in Ht.
      split; [done|]. intros Hsrt. rewrite Hsrt in Hs. simpl in Hs.
      by apply bool_decide_eq_true_1 in Hs.
  - replace (i + S k)%nat with (S i + k)%nat by lia. by apply IH.
Qed.

(** The verdict of the numeric and of the geo handler, with the status
    they leave. *)
Lemma NumericPreprocessor_verdict fs e ok e' t :
  NumericPreprocessor fs e = Ret (ok, e') -> f_text (p_field e) = Some t ->
  if ok then p_status e' = p_status e /\ RedisModule_StringToDouble t <> None
  else p_status e' = SetCode (p_status e) QUERY_ENOTNUMERIC /\
       RedisModule_StringToDouble t = None.
Proof.
  unfold NumericPreprocessor. intros E Ht. rewrite Ht in E.
  destruct (RedisModule_StringToDouble t) as [x|] eqn:Hx.
  - destruct (IsSortable fs).
    + destruct (sv_Put _ _ _) as [c1| | |]; simpl in E; [|done|done|done].
      by injection E as <- <-.
    + simpl in E. by injection E as <- <-.
  - by injection E as <- <-.
Qed.

Lemma GeoPreprocessor_verdict fs e ok e' t :
  GeoPreprocessor fs e = Ret (ok, e') -> f_text (p_field e) = Some t ->
  if ok then p_status e' = p_status e /\ strpbrk t " ," <> None
  else p_status e' = SetCode (p_status e) QUERY_EGEOFORMAT /\ strpbrk t " ," = None.
Proof.
  unfold GeoPreprocessor. intros E Ht. rewrite Ht in E.
  destruct (strpbrk t " ,") as [pos|] eqn:Hp; by injection E as <- <-.
Qed.

(** The verdict of the four handlers of one turn: [true] when the text
    fails in neither handler, and otherwise the code of the first handler
    in which it fails. *)
Lemma preprocess_verdict fs e ok e' t :
  preprocess fs e = Ret (ok, e') -> f_text (p_field e) = Some t ->
  if ok then
    p_status e' = p_status e /\
    ~ fails_numeric (p_field e) t /\ ~ fails_geo (p_field e) t
  else
    fails_numeric (p_field e) t /\
      p_status e' = SetCode (p_status e) QUERY_ENOTNUMERIC
    \/
    fails_geo (p_field e) t /\
      p_status e' = SetCode (p_status e) QUERY_EGEOFORMAT.
Proof.
  intros E Ht. revert E. unfold preprocess, fails_numeric, fails_geo.
  destruct (when_idx INDEXFLD_T_FULLTEXT _ fs e) as [[ok1 e1]| | |] eqn:E1;
    simpl; [|done|done|done].
  assert (S1 : p_status e1 = p_status e).
  { revert E1. unfold when_idx.
    destruct (CheckIdx (p_field e) INDEXFLD_T_FULLTEXT); [|by intros [= <- <-]].
    intros X. apply FulltextPreprocessor_handled in X as (Hok & Hh).
    subst ok1. unfold handled in Hh. by destruct Hh as (_ & _ & Hs). }
  apply when_fulltext in E1 as (-> & F1 & _ & _). simpl.
  destruct (when_idx INDEXFLD_T_NUMERIC _ fs e1) as [[ok2 e2]| | |] eqn:E2;
    simpl; [|done|done|done].
  assert (V2 : p_field e2 = p_field e /\
               if ok2 then
                 p_status e2 = p_status e /\
                 (CheckIdx (p_field e) INDEXFLD_T_NUMERIC = true ->
                  RedisModule_StringToDouble t <> None)
               else
                 CheckIdx (p_field e) INDEXFLD_T_NUMERIC = true /\
                 RedisModule_StringToDouble t = None /\
                 p_status e2 = SetCode (p_status e) QUERY_ENOTNUMERIC).
  { pose proof (when_numeric _ _ _ _ E2) as (F2 & _). rewrite F1 in F2.
    split; [done|]. revert E2. unfold when_idx. rewrite F1.
    destruct (CheckIdx (p_field e) INDEXFLD_T_NUMERIC) eqn:Cn.
    - intros X. apply (NumericPreprocessor_verdict _ _ _ _ t) in X; [|by rewrite F1].
      rewrite S1 in X. destruct ok2; destruct X; done.
    - by intros [= <- <-]. }
  clear E2. destruct V2 as (F2 & V2).
  destruct ok2; simpl; [|intros [= <- <-]; left; destruct V2 as (? & ? & ?); done].
  destruct V2 as (S2 & N2).
  destruct (when_idx INDEXFLD_T_GEO _ fs e2) as [[ok3 e3]| | |] eqn:E3;
    simpl; [|done|done|done].
  assert (V3 : if ok3 then
                 p_status e3 = p_status e /\
                 (CheckIdx (p_field e) INDEXFLD_T_GEO = true -> strpbrk t " ," <> None)
               else
                 CheckIdx (p_field e) INDEXFLD_T_GEO = true /\
                 strpbrk t " ," = None /\
                 p_status e3 = SetCode (p_status e) QUERY_EGEOFORMAT).
  { revert E3. unfold when_idx. rewrite F2.
    destruct (CheckIdx (p_field e) INDEXFLD_T_GEO) eqn:Cg.
    - intros X. apply (GeoPreprocessor_verdict _ _ _ _ t) in X; [|by rewrite F2].
      rewrite S2 in X. destruct ok3; destruct X; done.
    - by intros [= <- <-]. }
  clear E3.
  destruct ok3; simpl; [|intros [= <- <-]; right; destruct V3 as (? & ? & ?); done].
  destruct V3 as (S3 & G3).
  intros E4.
  assert (S4 : p_status e' = p_status e3 /\ ok = true).
  { revert E4. unfold when_idx.
    destruct (CheckIdx (p_field e3) INDEXFLD_T_TAG); [|by intros [= <- <-]].
    intros X. apply TagPreprocessor_handled in X as (Hok & Hh).
    subst ok. unfold handled in Hh. by destruct Hh as (_ & _ & Hs). }
  destruct S4 as (S4 & ->). split_and!.
  - congruence.
  - intros (Cn & Hx). by apply N2.
  - intros (Cg & Hx). by apply G3.
Qed.

(** The verdict of one turn of the loop on a field under a spec with a
    name. *)
Lemma AddToIndexes_field_verdict i ff c ok c' fs t :
  AddToIndexes_field i ff c = Ret (ok, c') ->
  fspecs c !! i = Some fs -> fs_name fs <> EmptyString -> f_text ff = Some t ->
  if ok then ~ fails_numeric ff t /\ ~ fails_geo ff t
  else
    fails_numeric ff t /\ status c' = SetCode (status c) QUERY_ENOTNUMERIC
    \/
    fails_geo ff t /\ status c' = SetCode (status c) QUERY_EGEOFORMAT.
Proof.
  unfold AddToIndexes_field. intros E Hfs Hn Ht. rewrite Hfs in E.
  rewrite bool_decide_eq_false_2 in E by done. simpl in E.
  destruct (Z.eqb_spec (f_indexAs ff) 0) as [Hz|Hz].
  - injection E as <- <-. unfold fails_numeric, fails_geo, CheckIdx.
    rewrite Hz, !c_test_0. split; by intros (? & _).
  - destruct (preprocess fs _) as [[ok1 e1]| | |] eqn:E1; simpl in E; [|done|done|done].
    injection E as <- <-.
    apply (preprocess_verdict _ _ _ _ t) in E1; [|done]. simpl in E1.
    destruct ok1; [by destruct E1 as (_ & ? & ?)|]. done.
Qed.

(** The verdict of the loop: [true] when no field fails in a handler, and
    otherwise the code of a field that fails is handed to [SetCode]. *)
Lemma AddToIndexes_loop_verdict fl : forall i c ok c',
  AddToIndexes_loop i fl c = Ret (ok, c') ->
  if ok then
    forall k ff fs t,
      fl !! k = Some ff -> fspecs c !! (i + k)%nat = Some fs ->
      fs_name fs <> EmptyString -> f_text ff = Some t ->
      ~ fails_numeric ff t /\ ~ fails_geo ff t
  else
    exists k ff fs t,
      fl !! k = Some ff /\ fspecs c !! (i + k)%nat = Some fs /\
      fs_name fs <> EmptyString /\ f_text ff = Some t /\
      (fails_numeric ff t /\ status c' = SetCode (status c) QUERY_ENOTNUMERIC
       \/
       fails_geo ff t /\ status c' = SetCode (status c) QUERY_EGEOFORMAT).
Proof.
  induction fl as [|ff fl IH]; intros i c ok c'; simpl.
  - by intros [= <- <-].
  - destruct (AddToIndexes_field i ff c) as [[ok1 c1]| | |] eqn:E1; simpl; [|done|done|done].
    pose proof (AddToIndexes_field_outcome _ _ _ _ _ E1) as (_ & _ & Ks & S1).
    destruct ok1.
    + intros E2. apply IH in E2. destruct ok.
      * intros k g gs t Hk Hgs Hgn Ht. destruct k as [|k]; simpl in Hk.
        -- simplify_eq. rewrite Nat.add_0_r in Hgs.
           by apply (AddToIndexes_field_verdict _ _ _ _ _ _ t E1 Hgs).
        -- replace (i + S k)%nat with (S i + k)%nat in Hgs by lia.
           apply (E2 k g gs t); try done. by rewrite Ks.
      * destruct E2 as (k & g & gs & t & Hk & Hgs & Hgn & Ht & Hc).
        exists (S k), g, gs, t.
        replace (i + S k)%nat with (S i + k)%nat by lia.
        rewrite Ks, S1 in *. done.
    + intros [= <- <-].
      pose proof (AddToIndexes_field_facts _ _ _ _ _ E1)
        as (fs & Hfs & _ & _ & [(_ & [=] & _)|(Hne & _ & _ & _ & _ & _ & t & Ht & _)]).
      exists O, ff, fs, t. rewrite Nat.add_0_r.
      split_and!; try done.
      by apply (AddToIndexes_field_verdict _ _ _ _ _ _ t E1 Hfs).
Qed.

(** C1.  On a context on which [AddToIndexes] finds what it reads, a field
    that fails in a preprocessor aborts the document: when some field under
    a spec with a name is indexed as numeric with a text the host does not
    parse, or as geo with a text that has no separator, [AddToIndexes]
    returns [REDISMODULE_ERR]; the indexer is not invoked and [Finish] is.
    The loop has ended with the context [cm] on a field that fails, whose
    code, [NOTNUMERIC] or [GEOFORMAT], was handed to [SetCode]; [cleanup]
    then hands [GENERIC] to [SetCode], which keeps the code that is
    already set.  So the final code is [GENERIC] only when no code was set
    at [cleanup]; started on a status without an error, the final code is
    the specific code of the preprocessor. *)
Theorem AddToIndexes_failure c i ff fs t :
  prepared c = true ->
  fields (doc c) !! i = Some ff ->
  fspecs c !! i = Some fs ->
  fs_name fs <> EmptyString ->
  f_text ff = Some t ->
  fails_numeric ff t \/ fails_geo ff t ->
  exists cm c',
    AddToIndexes c = Ret (REDISMODULE_ERR, c') /\
    AddToIndexes_loop O (fields (doc c)) c = Ret (false, cm) /\
    c' = Finish (set_status cm (SetCode (status cm) QUERY_EGENERIC)) /\
    events c' = events c ++
                (if c_test (stateFlags c) ACTX_F_NOBLOCK
                 then [EvDoneCb; EvDelete] else [EvUnblockClient]) /\
    (EvIndexerAdd ∈ events c' -> EvIndexerAdd ∈ events c) /\
    code (status c') = (if bool_decide (code (status cm) = QUERY_OK)
                        then QUERY_EGENERIC else code (status cm)) /\
    (exists k ffk fsk tk,
       fields (doc c) !! k = Some ffk /\ fspecs c !! k = Some fsk /\
       fs_name fsk <> EmptyString /\ f_text ffk = Some tk /\
       (fails_numeric ffk tk /\ status cm = SetCode (status c) QUERY_ENOTNUMERIC
        \/
        fails_geo ffk tk /\ status cm = SetCode (status c) QUERY_EGEOFORMAT)) /\
    (code (status c) = QUERY_OK ->
     preprocessor_code (code (status cm)) /\ status c' = status cm).
Proof.
  intros Hp Hi Hfs Hn Ht Hfail.
  destruct (AddToIndexes_loop_returns (fields (doc c)) O c) as (ok & cm & EL).
  { intros k g Hk. by apply (prepared_from_spec c (fields (doc c)) O Hp). }
  pose proof (AddToIndexes_loop_verdict _ _ _ _ _ EL) as V.
  destruct ok.
  { destruct (V i ff fs t Hi Hfs Hn Ht) as (Vn & Vg). by destruct Hfail. }
  exists cm, (AddToIndexes_cleanup cm).
  unfold AddToIndexes. rewrite EL. simpl. split; [done|]. split; [done|].
  apply AddToIndexes_loop_outcome in EL as (F & E & _ & x & Hx & S).
  unfold AddToIndexes_cleanup.
  assert (Hst : status (Finish (set_status cm (SetCode (status cm) QUERY_EGENERIC)))
                = SetCode (status cm) QUERY_EGENERIC).
  { unfold Finish, doReplyFinish. by destruct (c_test _ _). }
  assert (Hev : events (Finish (set_status cm (SetCode (status cm) QUERY_EGENERIC)))
                = events c ++
                  (if c_test (stateFlags c) ACTX_F_NOBLOCK
                   then [EvDoneCb; EvDelete] else [EvUnblockClient])).
  { unfold Finish, doReplyFinish. simpl. rewrite F.
    destruct (c_test _ _); simpl; by rewrite E. }
  split; [done|]. split_and!.
  - done.
  - rewrite Hev. destruct (c_test _ _); set_solver.
  - rewrite Hst. unfold SetCode, HasError. by destruct (bool_decide _).
  - destruct V as (k & g & gs & tk & Hk & Hgs & Hgn & Htk & Hc).
    exists k, g, gs, tk. done.
  - intros Hok. rewrite Hst.
    assert (code (status cm) = x) as Hc by (rewrite S; by apply SetCode_fresh).
    split; [by rewrite Hc|].
    apply SetCode_kept. rewrite Hc. destruct Hx as [-> | ->]; done.
Qed.

End AddToIndexesAbort.

Section Pipeline.
Context {hdr : Headers} {hdr_ok : HeadersOk} {host : Host} {alloc : Allocator}.

(** X14.  On a context whose [fspecs] is empty, as a new context has it, a
    successful [SetDocument] leaves everything [AddToIndexes] reads in
    place: every field finds its own spec in [fspecs], every field under a
    spec with a name has its text, and the sort vector is allocated when a
    sortable field is there.  So [AddToIndexes] runs to a result, [OK] or
    [ERR], without dereferencing a null pointer. *)
Theorem SetDocument_then_AddToIndexes c sp d n c' d' :
  fspecs c = [] ->
  SetDocument c sp d n = (true, c', d') ->
  exists st c'', AddToIndexes c' = Ret (st, c'').
Proof.
  intros Hnil E.
  pose proof (SetDocument_ok_fspecs _ _ _ _ _ _ E) as (Hfs & Hdoc & _ & _).
  rewrite Hnil in Hfs. simpl in Hfs.
  pose proof (SetDocument_ok_bits _ _ _ _ _ _ E) as (Hd' & _).
  unfold AddToIndexes.
  destruct (AddToIndexes_loop_returns (fields (doc c')) O c') as (ok & cm & ->).
  - intros k ff Hk. rewrite Hdoc, Hd' in Hk. simpl in Hk.
    rewrite list_lookup_fmap in Hk.
    destruct (fields d !! k) as [f|] eqn:Hf; [|done]. simpl in Hk. simplify_eq.
    exists (spec_of sp f). split.
    { simpl. by rewrite Hfs, list_lookup_fmap, Hf. }
    intros Hname.
    assert (L : live sp f = Some (spec_of sp f)).
    { unfold spec_of in *. destruct (live sp f); [done|]. by simpl in Hname. }
    split.
    + unfold resolve. rewrite L. simpl. unfold live in L.
      destruct (GetField sp (f_name f)); [|done]. by destruct (f_text f).
    + intros Hs. apply (SetDocument_allocates_sv _ _ _ _ _ _ E).
      apply existsb_exists. exists f. split.
      * apply list_elem_of_In. by eapply list_elem_of_lookup_2.
      * unfold sortable_field. by rewrite L.
  - simpl. destruct ok; eauto.
Qed.

(** A successful [SetDocument] on a context whose [fspecs] is empty, as a
    new context has it, leaves the context prepared for [AddToIndexes]. *)
Lemma SetDocument_prepared c sp d n c' d' :
  fspecs c = [] ->
  SetDocument c sp d n = (true, c', d') ->
  prepared c' = true.
Proof.
  intros Hnil E.
  pose proof (SetDocument_ok_fspecs _ _ _ _ _ _ E) as (Hfs & Hdoc & _ & _).
  rewrite Hnil in Hfs. simpl in Hfs.
  pose proof (SetDocument_ok_bits _ _ _ _ _ _ E) as (Hd' & _).
  pose proof (SetDocument_allocates_sv _ _ _ _ _ _ E) as Hsv.
  unfold prepared. rewrite Hdoc, Hd'. simpl.
  assert (L : forall fl i,
            (forall k f, fl !! k = Some f -> fields d !! (i + k)%nat = Some f) ->
            prepared_from c' i (map (resolve sp) fl) = true).
  { induction fl as [|f fl IH]; intros i Hfl; [done|]. simpl.
    pose proof (Hfl O f eq_refl) as Hf. rewrite Nat.add_0_r in Hf.
    rewrite Hfs, list_lookup_fmap, Hf. simpl.
    apply andb_true_iff. split.
    - unfold prepared_field.
      destruct (live sp f) as [fs|] eqn:L.
      + unfold spec_of. rewrite L. simpl.
        apply orb_true_iff. right. apply andb_true_iff. split.
        * apply bool_decide_eq_true_2. unfold resolve. rewrite L. simpl.
          unfold live in L. destruct (GetField sp (f_name f)); [|done].
          by destruct (f_text f).
        * destruct (IsSortable fs) eqn:Hs; [|done]. simpl.
          apply bool_decide_eq_true_2. apply Hsv.
          apply existsb_exists. exists f. split.
          -- apply list_elem_of_In. by eapply list_elem_of_lookup_2.
          -- unfold sortable_field. by rewrite L.
      + unfold spec_of. rewrite L. done.
    - apply IH. intros k g Hk. specialize (Hfl (S k) g Hk).
      by replace (i + S k)%nat with (S i + k)%nat in Hfl by lia. }
  apply L. intros k f Hk. done.
Qed.


End Pipeline.

(** ** The geo handler consumes the separator; [ReplaceMerge] *)

Section Reruns.
Context {hdr : Headers} {host : Host} {alloc : Allocator}.

(** Once the first separator is overwritten by [NUL], the C string that
    starts at the head of the buffer has no separator. *)
Lemma strpbrk_poke accept t : forall pos,
  strpbrk t accept = Some pos ->
  strpbrk (str_poke pos NUL t) accept = None.
Proof.
  induction t as [|a t IH]; intros pos; simpl; [done|].
  destruct (Ascii.eqb a NUL) eqn:Ea; [done|].
  destruct (str_mem a accept) eqn:Em.
  - by intros [= <-].
  - destruct (strpbrk t accept) as [p|] eqn:Ep; [|done]. simpl.
    intros [= <-]. simpl. rewrite Ea, Em. by rewrite (IH p).
Qed.

(** X16.  The geo handler writes into the text of the field, so it cannot run
    twice on the same field: whenever it has returned [true], a second run
    on what it left returns [false] with [GEOFORMAT], for the longitude
    that is left at the head of the buffer has no separator. *)
Theorem GeoPreprocessor_consumes_separator fs fs' e e1 :
  GeoPreprocessor fs e = Ret (true, e1) ->
  GeoPreprocessor fs' e1
  = Ret (false, mkPreEnv (p_ctx e1) (p_field e1) (p_fdata e1)
                  (SetCode (p_status e1) QUERY_EGEOFORMAT)).
Proof.
  unfold GeoPreprocessor. destruct (f_text (p_field e)) as [t|]; [|done].
  destruct (strpbrk t " ,") as [pos|] eqn:Hp; [|done].
  intros [= <-]. simpl. by rewrite (strpbrk_poke _ _ _ Hp).
Qed.

(** Whatever its end, [SetDocument] only appends to [fspecs]. *)
Lemma SetDocument_loop_fspecs sp fl : forall c l ok c' l' fl',
  SetDocument_loop sp fl c l = (ok, c', l', fl') ->
  fspecs c `prefix_of` fspecs c'.
Proof.
  induction fl as [|f fl IH]; intros c l ok c' l' fl' E; simpl in E.
  - by simplify_eq.
  - destruct (SetDocument_field sp f c l) as [[[ok1 c1] l1] f1] eqn:E1.
    destruct ok1.
    + destruct (SetDocument_loop sp fl c1 l1) as [[[ok2 c2] l2] fl2] eqn:E2.
      simplify_eq.
      apply SetDocument_field_ok in E1 as (_ & _ & _ & _ & _ & S1 & _).
      apply IH in E2. etrans; [|exact E2]. rewrite S1. by apply prefix_app_r.
    + simplify_eq.
      apply SetDocument_field_fail in E1 as (_ & fs & _ & S1 & _).
      rewrite S1. by apply prefix_app_r.
Qed.

Lemma SetDocument_fspecs_prefix c sp d n :
  fspecs c `prefix_of` fspecs (SetDocument c sp d n).1.2.
Proof.
  rewrite SetDocument_eq; cbv zeta.
  destruct (SetDocument_loop _ _ _ _) as [[[ok c5] l] fl] eqn:E.
  apply SetDocument_loop_fspecs in E. simpl in E.
  destruct ok; cbn [fst snd]; [|done].
  by rewrite (proj1 (SetDocument_finish_frame sp (with_fields d fl) c5 l)).
Qed.

Lemma SetDocument_events c sp d n :
  events (SetDocument c sp d n).1.2 = events c.
Proof.
  rewrite SetDocument_eq; cbv zeta.
  destruct (SetDocument_loop _ _ _ _) as [[[ok c5] l] fl] eqn:E.
  apply SetDocument_loop_frame in E as (_ & _ & _ & Hev & _). simpl in Hev.
  destruct ok; cbn [fst snd]; [|done].
  by destruct (SetDocument_finish_frame sp (with_fields d fl) c5 l)
    as (_ & _ & _ & -> & _).
Qed.

End Reruns.

Section ReplaceMergeFacts.
Context {hdr : Headers} {hdr_ok : HeadersOk} {host : Host} {alloc : Allocator}.

(** X8.  [ReplaceMerge] returns [true], which ends the submission, only when
    the existing document does not load; then the status receives
    [NODOC], the completion callback is called and the context deleted.
    When the document loads it returns [false], which lets the submission
    go on, whatever [SetDocument] makes of the loaded fields: if
    [SetDocument] rejects them, the code [DUPFIELD] or [UNSUPPTYPE] is in
    the status and nobody has been told.  In both cases the entries that
    [fspecs] held for the fields of the replaced document are still in
    front. *)
Theorem ReplaceMerge_verdict c sp loaded :
  let r := ReplaceMerge c sp loaded in
  (r.1 = true <-> loaded = None) /\
  fspecs c `prefix_of` fspecs r.2 /\
  (loaded = None ->
   events r.2 = events c ++ [EvDoneCb; EvDelete] /\
   fields (doc r.2) = [] /\
   (code (status c) = QUERY_OK ->
    status r.2 = mkQueryError QUERY_ENODOC (Some "Could not load existing document"))) /\
  (forall fl, loaded = Some fl ->
   events r.2 = events c /\
   (accepted sp ∅ fl -> fields (doc r.2) = map (resolve sp) fl /\ status r.2 = status c) /\
   (~ accepted sp ∅ fl -> code (status c) = QUERY_OK ->
    code (status r.2) = QUERY_EDUPFIELD \/ code (status r.2) = QUERY_EUNSUPPTYPE)).
Proof.
  intros r. subst r. unfold ReplaceMerge. destruct loaded as [fl|]; cbn zeta.
  - set (c1 := set_doc (set_doc c _) _).
    set (d1 := doc c1).
    pose proof (SetDocument_fspecs_prefix c1 sp d1 (NumFields (doc c))) as Hp.
    pose proof (SetDocument_events c1 sp d1 (NumFields (doc c))) as Hev.
    destruct (SetDocument c1 sp d1 (NumFields (doc c))) as [[ok c'] d'] eqn:E.
    cbn [fst snd] in *. split_and!; try done.
    intros ? [= <-]. split; [done|]. destruct ok.
    + pose proof (SetDocument_ok_bits _ _ _ _ _ _ E) as (Hd' & Ha & Hst & _).
      split.
      * intros _. subst d'. done.
      * intros Hna. exfalso. by apply Hna.
    + split.
      * intros Ha.
        destruct (SetDocument_accepted c1 sp d1 (NumFields (doc c)) Ha) as (c2 & E2).
        congruence.
      * intros _ Hok. by apply (SetDocument_fail_code c1 sp d1 (NumFields (doc c)) c' d').
  - cbn [fst snd]. split_and!; try done. intros _.
    split_and!; try done. intros Hok. simpl. by rewrite SetError_fresh.
Qed.

End ReplaceMergeFacts.

(** ** The collector: the books of a pass *)

Section CollectorBooks.
Context {num : GcNum}.

Lemma size_t_ex x : exists k, size_t x = x + k * 2 ^ 64.
Proof.
  unfold size_t. exists (- (x / 2 ^ 64)). rewrite Z.mod_eq by lia. lia.
Qed.

Lemma size_t_cong a b : size_t a = size_t b <-> exists k, a - b = k * 2 ^ 64.
Proof. unfold size_t. apply Z.cong_iff_ex. Qed.

Lemma size_t_range x : 0 <= size_t x < 2 ^ 64.
Proof. unfold size_t. apply Z.mod_pos_bound. lia. Qed.

Lemma size_t_idem x : size_t (size_t x) = size_t x.
Proof. unfold size_t. apply Z.mod_mod. lia. Qed.

Lemma same_collector_refl g : same_collector g g.
Proof. by unfold same_collector. Qed.

Lemma same_collector_trans g1 g2 g3 :
  same_collector g1 g2 -> same_collector g2 g3 -> same_collector g1 g3.
Proof.
  unfold same_collector. intros (?&?&?&?&?&?&?) (?&?&?&?&?&?&?). split_and!; congruence.
Qed.

Lemma status_moves_refl st : status_moves st st.
Proof. by left. Qed.

Lemma status_moves_trans s1 s2 s3 :
  status_moves s1 s2 -> status_moves s2 s3 -> status_moves s1 s3.
Proof. unfold status_moves. intros [->| ->] [->| ->]; auto. Qed.

Lemma books_refl g w : books g w 0 g w.
Proof.
  unfold books. rewrite !Z.sub_diag. split_and!; try done.
  exists []. by rewrite app_nil_r.
Qed.

Lemma books_trans g w n1 g1 w1 n2 g2 w2 :
  specUniqueId g1 = specUniqueId g ->
  books g w n1 g1 w1 -> books g1 w1 n2 g2 w2 -> books g w (n1 + n2) g2 w2.
Proof.
  unfold books. intros Hid (R1 & B1 & new1 & -> & F1) (R2 & B2 & new2 & -> & F2).
  rewrite Hid in F2.
  apply size_t_cong in R1 as (k1 & R1). apply size_t_cong in R2 as (k2 & R2).
  apply size_t_cong in B1 as (j1 & B1). apply size_t_cong in B2 as (j2 & B2).
  split_and!.
  - apply size_t_cong. exists (k1 + k2). lia.
  - apply size_t_cong. exists (j1 + j2). lia.
  - exists (new1 ++ new2). split; [by rewrite app_assoc|]. by apply Forall_app.
Qed.

Lemma books_cong g w n n' g' w' :
  size_t n = size_t n' -> books g w n g' w' -> books g w n' g' w'.
Proof. unfold books. intros E (R & B & N). split_and!; try done. by rewrite <- E. Qed.

(** One call of [Repair] on the spec of the member, followed by
    [updateStats]. *)
Lemma books_round g w w0 blockNum docs bytes :
  w_stats w0 = w_stats w ->
  w_repairs w0 = w_repairs w ++ [(specUniqueId g, blockNum)] ->
  let r := updateStats g w0 docs bytes in
  books g w docs r.1 r.2 /\ same_collector g r.1.
Proof.
  unfold books, same_collector, updateStats. simpl. intros -> ->. split; [|done].
  split_and!.
  - destruct (size_t_ex (numRecords (w_stats w) - docs)) as (k & ->).
    apply size_t_cong. exists (- k). lia.
  - destruct (size_t_ex (invertedSize (w_stats w) - bytes)) as (k & ->).
    destruct (size_t_ex (totalCollected (stats g) + bytes)) as (j & ->).
    apply size_t_cong. exists (- k - j). lia.
  - eexists. split; [done|]. by constructor.
Qed.

(** A spec the test lets through has the [uniqueId] of the member. *)
Lemma spec_valid_uid g seen :
  spec_invalid g seen = false -> seen = specUniqueId g.
Proof.
  unfold spec_invalid. intros E. apply negb_false_iff, Z.eqb_eq in E. done.
Qed.

Lemma spec_invalid_same g g' seen :
  specUniqueId g' = specUniqueId g -> spec_invalid g' seen = spec_invalid g seen.
Proof. unfold spec_invalid. by intros ->. Qed.

(** The books of the loop of [CollectRandomTerm]. *)
Lemma CollectRandomTerm_loop_books rounds : forall uid blockNum total status g w n st g' w',
  CollectRandomTerm_loop rounds uid blockNum total status g w = Ret (n, st, g', w') ->
  uid = specUniqueId g ->
  same_collector g g' /\ status_moves status st /\
  books g w (n - total) g' w' /\ n = size_t n.
Proof.
  induction rounds as [|r rounds IH]; intros uid blockNum total status g w n st g' w';
    simpl; [done|].
  intros E ->. revert E.
  pose proof (books_round g w (log_repair w (specUniqueId g) blockNum) blockNum
                (r_docs r) (r_bytes r) eq_refl eq_refl) as (B1 & S1).
  simpl in B1, S1.
  set (g1 := set_stats g _) in *. set (w1 := mkWorld _ _ _) in *.
  assert (Hn1 : size_t (r_docs r) = size_t (size_t (total + r_docs r) - total)).
  { destruct (size_t_ex (total + r_docs r)) as (k & ->).
    apply size_t_cong. exists (- k). lia. }
  assert (Hend : same_collector g g1 /\ status_moves status status /\
                 books g w (size_t (total + r_docs r) - total) g1 w1 /\
                 size_t (total + r_docs r) = size_t (size_t (total + r_docs r))).
  { refine (conj S1 (conj (status_moves_refl _) (conj _ _)));
      [by eapply books_cong|by rewrite size_t_idem]. }
  destruct (r_next r =? 0); [by intros [= <- <- <- <-]|].
  destruct (spec_invalid g1 (r_spec r)) eqn:Hv.
  { intros [= <- <- <- <-]. destruct Hend as (?&?&?&?).
    refine (conj _ (conj _ (conj _ _))); try done. by right. }
  destruct (r_found r); [|by intros [= <- <- <- <-]].
  intros E. apply IH in E as (S2 & M2 & B2 & Hn); [|by apply spec_valid_uid].
  refine (conj _ (conj M2 (conj _ Hn))).
  - by eapply same_collector_trans.
  - eapply books_cong; [|eapply books_trans; [|exact B1|exact B2]].
    + apply size_t_cong. destruct (size_t_ex (total + r_docs r)) as (k & ->).
      exists (- k). lia.
    + by destruct S1 as (_ & _ & _ & _ & ? & _).
Qed.

(** The loop of [CollectTagIndex] keeps the same books. *)
Lemma CollectTagIndex_loop_books rounds : forall uid blockNum total status g w n st g' w',
  CollectTagIndex_loop rounds uid blockNum total status g w = Ret (n, st, g', w') ->
  uid = specUniqueId g ->
  same_collector g g' /\ status_moves status st /\
  books g w (n - total) g' w' /\ n = size_t n.
Proof.
  induction rounds as [|r rounds IH]; intros uid blockNum total status g w n st g' w';
    simpl; [done|].
  intros E ->. revert E.
  pose proof (books_round g w (log_repair w (specUniqueId g) blockNum) blockNum
                (r_docs r) (r_bytes r) eq_refl eq_refl) as (B1 & S1).
  simpl in B1, S1.
  set (g1 := set_stats g _) in *. set (w1 := mkWorld _ _ _) in *.
  assert (Hn1 : size_t (r_docs r) = size_t (size_t (total + r_docs r) - total)).
  { destruct (size_t_ex (total + r_docs r)) as (k & ->).
    apply size_t_cong. exists (- k). lia. }
  assert (Hend : same_collector g g1 /\ status_moves status status /\
                 books g w (size_t (total + r_docs r) - total) g1 w1 /\
                 size_t (total + r_docs r) = size_t (size_t (total + r_docs r))).
  { refine (conj S1 (conj (status_moves_refl _) (conj _ _)));
      [by eapply books_cong|by rewrite size_t_idem]. }
  destruct (r_next r =? 0); [by intros [= <- <- <- <-]|].
  destruct (spec_invalid g1 (r_spec r)) eqn:Hv.
  { intros [= <- <- <- <-]. destruct Hend as (?&?&?&?).
    refine (conj _ (conj _ (conj _ _))); try done. by right. }
  destruct (r_found r); [|by intros [= <- <- <- <-]].
  intros E. apply IH in E as (S2 & M2 & B2 & Hn); [|by apply spec_valid_uid].
  refine (conj _ (conj M2 (conj _ Hn))).
  - by eapply same_collector_trans.
  - eapply books_cong; [|eapply books_trans; [|exact B1|exact B2]].
    + apply size_t_cong. destruct (size_t_ex (total + r_docs r)) as (k & ->).
      exists (- k). lia.
    + by destruct S1 as (_ & _ & _ & _ & ? & _).
Qed.

(** So does the loop of [CollectNumericIndex]. *)
Lemma CollectNumericIndex_loop_books rounds :
  forall ngc uid blockNum total status g w n st g' w',
  CollectNumericIndex_loop rounds ngc uid blockNum total status g w = Ret (n, st, g', w') ->
  uid = specUniqueId g ->
  same_collector g g' /\ status_moves status st /\
  books g w (n - total) g' w' /\ n = size_t n.
Proof.
  induction rounds as [|r rounds IH]; intros ngc uid blockNum total status g w n st g' w';
    simpl; [done|].
  intros E ->. revert E.
  pose proof (books_round g w
                (drop_entries (log_repair w (specUniqueId g) blockNum) (ngc_rt ngc) (r_docs r))
                blockNum (r_docs r) (r_bytes r) eq_refl eq_refl) as (B1 & S1).
  simpl in B1, S1.
  set (g1 := set_stats g _) in *. set (w1 := mkWorld _ _ _) in *.
  assert (Hn1 : size_t (r_docs r) = size_t (size_t (total + r_docs r) - total)).
  { destruct (size_t_ex (total + r_docs r)) as (k & ->).
    apply size_t_cong. exists (- k). lia. }
  assert (Hend : same_collector g g1 /\ status_moves status status /\
                 books g w (size_t (total + r_docs r) - total) g1 w1 /\
                 size_t (total + r_docs r) = size_t (size_t (total + r_docs r))).
  { refine (conj S1 (conj (status_moves_refl _) (conj _ _)));
      [by eapply books_cong|by rewrite size_t_idem]. }
  destruct (r_next r =? 0); [by intros [= <- <- <- <-]|].
  destruct (spec_invalid g1 (r_spec r)) eqn:Hv.
  { intros [= <- <- <- <-]. destruct Hend as (?&?&?&?).
    refine (conj _ (conj _ (conj _ _))); try done. by right. }
  destruct (negb _); [by intros [= <- <- <- <-]|].
  intros E. apply IH in E as (S2 & M2 & B2 & Hn); [|by apply spec_valid_uid].
  refine (conj _ (conj M2 (conj _ Hn))).
  - by eapply same_collector_trans.
  - eapply books_cong; [|eapply books_trans; [|exact B1|exact B2]].
    + apply size_t_cong. destruct (size_t_ex (total + r_docs r)) as (k & ->).
      exists (- k). lia.
    + by destruct S1 as (_ & _ & _ & _ & ? & _).
Qed.

Lemma collects_nothing g w seen status :
  spec_invalid g seen = false -> collects g w seen status 0 status g w.
Proof.
  intros Hv. unfold collects.
  refine (conj (same_collector_refl _) (conj (status_moves_refl _)
            (conj (books_refl _ _) (conj eq_refl _)))).
  by rewrite Hv.
Qed.

Lemma collects_invalid g w seen status :
  spec_invalid g seen = true -> collects g w seen status 0 SPEC_STATUS_INVALID g w.
Proof.
  intros Hv. unfold collects.
  refine (conj (same_collector_refl _) (conj _ (conj (books_refl _ _) (conj eq_refl _)))).
  - by right.
  - done.
Qed.

Lemma CollectRandomTerm_collects g w env status n st g' w' :
  CollectRandomTerm g w env status = Ret (n, st, g', w') ->
  collects g w (te_spec env) status n st g' w'.
Proof.
  unfold CollectRandomTerm.
  destruct (spec_invalid _ _) eqn:Hv.
  { intros [= <- <- <- <-]. by apply collects_invalid. }
  destruct (te_term env); [|intros [= <- <- <- <-]; by apply collects_nothing].
  destruct (te_idx env); [|intros [= <- <- <- <-]; by apply collects_nothing].
  intros E. apply CollectRandomTerm_loop_books in E as (S & M & B & Hn);
    [|by apply spec_valid_uid].
  rewrite Z.sub_0_r in B. unfold collects. rewrite Hv. done.
Qed.

Lemma CollectTagIndex_collects g w env status n st g' w' :
  CollectTagIndex g w env status = Ret (n, st, g', w') ->
  collects g w (tg_spec env) status n st g' w'.
Proof.
  unfold CollectTagIndex.
  destruct (spec_invalid _ _) eqn:Hv.
  { intros [= <- <- <- <-]. by apply collects_invalid. }
  destruct (negb (tg_field env)); [intros [= <- <- <- <-]; by apply collects_nothing|].
  destruct (negb (tg_open env)); [intros [= <- <- <- <-]; by apply collects_nothing|].
  destruct (negb (tg_value env)); [intros [= <- <- <- <-]; by apply collects_nothing|].
  intros E. apply CollectTagIndex_loop_books in E as (S & M & B & Hn);
    [|by apply spec_valid_uid].
  rewrite Z.sub_0_r in B. unfold collects. rewrite Hv. done.
Qed.

(** The steps of [CollectNumericIndex] before the loop write the array of
    the numeric fields only. *)
Lemma sync_numericGC_keeps g w env g' :
  sync_numericGC g w env = Ret g' -> same_collector g g' /\ stats g' = stats g.
Proof.
  unfold sync_numericGC. destruct (bool_decide _); [|by intros [= <-]].
  destruct (bool_decide _); [done|].
  destruct (rebuild_numericGC _ _ _); simpl; [|done|done|done]. by intros [= <-].
Qed.

Lemma renew_numericGC_keeps g w i rt g' ngc :
  renew_numericGC g w i rt = Ret (g', ngc) -> same_collector g g' /\ stats g' = stats g.
Proof.
  unfold renew_numericGC. destruct rt as [addr|]; [|done].
  destruct (NumericFieldGC_new _ _); simpl; [|done|done|done]. by intros [= <- <-].
Qed.

Lemma books_from g0 g w n g' w' :
  stats g0 = stats g -> specUniqueId g0 = specUniqueId g ->
  books g w n g' w' -> books g0 w n g' w'.
Proof. unfold books. by intros -> ->. Qed.

Lemma CollectNumericIndex_collects g w env status n st g' w' :
  CollectNumericIndex g w env status = Ret (n, st, g', w') ->
  collects g w (ne_spec env) status n st g' w'.
Proof.
  unfold CollectNumericIndex.
  destruct (spec_invalid _ _) eqn:Hv.
  { intros [= <- <- <- <-]. by apply collects_invalid. }
  destruct (bool_decide _); [intros [= <- <- <- <-]; by apply collects_nothing|].
  destruct (sync_numericGC g w env) as [g1| | |] eqn:E1; simpl; [|done|done|done].
  apply sync_numericGC_keeps in E1 as (S1 & T1).
  destruct (numericGC g1 !! _) as [num_gc|]; [|done].
  destruct (ne_fields env !! _) as [rt|]; [|done].
  match goal with
  | |- bindO ?x _ = _ -> _ => destruct x as [[g2 ngc2]| | |] eqn:E2; simpl; [|done|done|done]
  end.
  assert (same_collector g1 g2 /\ stats g2 = stats g1) as (S2 & T2).
  { destruct (negb (bool_decide _)); [by apply renew_numericGC_keeps in E2|].
    destruct (w_trees w !! _) as [t|]; [|done].
    destruct (negb _); [|simplify_eq; split; [apply same_collector_refl|done]].
    destruct (_ <=? _); [done|]. by apply renew_numericGC_keeps in E2. }
  destruct (NextGcNode _ _) as [[nextNode ngc3]| | |]; simpl; [|done|done|done].
  intros E3.
  pose proof (same_collector_trans _ _ _ S1 S2) as S12.
  assert (Hid : specUniqueId g2 = specUniqueId g) by (by destruct S12 as (_&_&_&_&?&_)).
  apply CollectNumericIndex_loop_books in E3 as (S3 & M & B & Hn).
  2: { simpl. rewrite Hid. by apply spec_valid_uid. }
  rewrite Z.sub_0_r in B. unfold collects. rewrite Hv.
  refine (conj _ (conj M (conj _ (conj Hn _)))); [| |done].
  - eapply same_collector_trans; [exact S12|]. exact S3.
  - eapply books_from; [| |exact B]; simpl; congruence.
Qed.

(** The three collections of a pass, one after the other. *)
Lemma collect_all_collects g w env n st g' w' :
  collect_all g w env = Ret (n, st, g', w') ->
  same_collector g g' /\ books g w n g' w' /\ n = size_t n /\
  status_moves SPEC_STATUS_OK st /\
  (spec_invalid g (te_spec (pe_term env))
   || spec_invalid g (ne_spec (pe_numeric env))
   || spec_invalid g (tg_spec (pe_tag env)) = true -> st = SPEC_STATUS_INVALID).
Proof.
  unfold collect_all.
  destruct (CollectRandomTerm _ _ _ _) as [[[[n1 s1] g1] w1]| | |] eqn:E1; simpl;
    [|done|done|done].
  destruct (CollectNumericIndex _ _ _ _) as [[[[n2 s2] g2] w2]| | |] eqn:E2; simpl;
    [|done|done|done].
  destruct (CollectTagIndex _ _ _ _) as [[[[n3 s3] g3] w3]| | |] eqn:E3; simpl;
    [|done|done|done].
  intros [= <- <- <- <-].
  apply CollectRandomTerm_collects in E1 as (S1 & M1 & B1 & _ & I1).
  apply CollectNumericIndex_collects in E2 as (S2 & M2 & B2 & _ & I2).
  apply CollectTagIndex_collects in E3 as (S3 & M3 & B3 & _ & I3).
  pose proof (same_collector_trans _ _ _ S1 S2) as S12.
  assert (Hid1 : specUniqueId g1 = specUniqueId g) by (by destruct S1 as (_&_&_&_&?&_)).
  assert (Hid2 : specUniqueId g2 = specUniqueId g) by (by destruct S12 as (_&_&_&_&?&_)).
  rewrite (spec_invalid_same g g1) in I2 by done.
  rewrite (spec_invalid_same g g2) in I3 by done.
  refine (conj _ (conj _ (conj _ (conj _ _)))).
  - eapply same_collector_trans; [exact S12|exact S3].
  - eapply books_cong; [|eapply books_trans; [exact Hid2| |exact B3]].
    2: { eapply books_trans; [exact Hid1|exact B1|exact B2]. }
    apply size_t_cong.
    destruct (size_t_ex (0 + n1)) as (k1 & K1).
    destruct (size_t_ex (size_t (0 + n1) + n2)) as (k2 & K2).
    destruct (size_t_ex (size_t (size_t (0 + n1) + n2) + n3)) as (k3 & K3).
    exists (- k1 - k2 - k3). lia.
  - by rewrite size_t_idem.
  - eapply status_moves_trans; [exact M1|]. eapply status_moves_trans; [exact M2|exact M3].
  - intros Hinv.
    assert (Hs : forall s s', status_moves s s' -> s = SPEC_STATUS_INVALID ->
                   s' = SPEC_STATUS_INVALID).
    { intros s s' [->| ->]; auto. }
    apply orb_true_iff in Hinv as [Hinv|Hinv];
      [apply orb_true_iff in Hinv as [Hinv|Hinv]|].
    + destruct (I1 Hinv) as (_ & -> & _). eauto.
    + destruct (I2 Hinv) as (_ & -> & _). eauto.
    + by destruct (I3 Hinv) as (_ & -> & _).
Qed.

Lemma PeriodicCallback_runs g w env b g' w' :
  rdbPossiblyLoading g && isRdbLoading env = false ->
  PeriodicCallback g w env = Ret (b, g', w') ->
  exists n st g1,
    collect_all (if rdbPossiblyLoading g then set_rdbPossiblyLoading g false else g) w env
    = Ret (n, st, g1, w') /\
    b = (st =? SPEC_STATUS_OK) /\
    g' = adapt_hz
           (set_stats g1 (mkGCStats (totalCollected (stats g1))
                            (size_t (numCycles (stats g1) + 1))
                            (size_t (effectiveCycles (stats g1)
                                     + (if 0 <? n then 1 else 0))))) n.
Proof.
  intros Hgo. unfold PeriodicCallback. rewrite Hgo.
  destruct (collect_all _ _ _) as [[[[n st] g1] w1]| | |]; simpl; [|done|done|done].
  intros [= <- <- <-]. by eexists _, _, _.
Qed.

Lemma unlatch_keeps g :
  let g0 := if rdbPossiblyLoading g then set_rdbPossiblyLoading g false else g in
  stats g0 = stats g /\ specUniqueId g0 = specUniqueId g /\ keyName g0 = keyName g.
Proof. by destruct (rdbPossiblyLoading g). Qed.

Lemma adapt_hz_keeps g n :
  stats (adapt_hz g n) = stats g /\ specUniqueId (adapt_hz g n) = specUniqueId g /\
  keyName (adapt_hz g n) = keyName g /\
  rdbPossiblyLoading (adapt_hz g n) = rdbPossiblyLoading g /\
  numericGC (adapt_hz g n) = numericGC g.
Proof. unfold adapt_hz. by destruct (0 <? n). Qed.

(** X22.  A callback that is not skipped keeps the books of the spec and of the
    collector: with [n] the records by which the spec has gone down, as a
    [size_t] value, the cycle is counted, and it is counted as effective
    exactly when [n] is not zero; the bytes the collector adds to its
    total are the bytes by which the inverted size of the spec has gone
    down. *)
Theorem PeriodicCallback_books g w env b g' w' :
  rdbPossiblyLoading g && isRdbLoading env = false ->
  PeriodicCallback g w env = Ret (b, g', w') ->
  let n := size_t (numRecords (w_stats w) - numRecords (w_stats w')) in
  numCycles (stats g') = size_t (numCycles (stats g) + 1) /\
  effectiveCycles (stats g')
  = size_t (effectiveCycles (stats g) + (if 0 <? n then 1 else 0)) /\
  size_t (totalCollected (stats g') - totalCollected (stats g))
  = size_t (invertedSize (w_stats w) - invertedSize (w_stats w')).
Proof.
  intros Hgo E n.
  apply PeriodicCallback_runs in E as (m & st & g1 & E & _ & ->); [|done].
  apply collect_all_collects in E as (S & (R & B & _) & Hm & _).
  assert (Hn : n = m) by (subst n; congruence).
  destruct (adapt_hz_keeps
              (set_stats g1 (mkGCStats (totalCollected (stats g1))
                               (size_t (numCycles (stats g1) + 1))
                               (size_t (effectiveCycles (stats g1)
                                        + (if 0 <? m then 1 else 0))))) m) as (-> & _).
  simpl. rewrite Hn.
  destruct S as (_ & _ & _ & _ & _ & -> & ->).
  destruct (unlatch_keeps g) as (Hg & _). simpl in Hg. rewrite Hg in *. done.
Qed.

(** X23.  Every call of [Repair] that a callback makes is made on a spec whose
    [uniqueId] is the member [specUniqueId] of the collector, and the
    callback changes neither that member nor the name of the key. *)
Theorem PeriodicCallback_repairs g w env b g' w' :
  PeriodicCallback g w env = Ret (b, g', w') ->
  specUniqueId g' = specUniqueId g /\ keyName g' = keyName g /\
  exists new, w_repairs w' = w_repairs w ++ new /\
    Forall (fun p => p.1 = specUniqueId g) new.
Proof.
  destruct (rdbPossiblyLoading g && isRdbLoading env) eqn:Hgo.
  { unfold PeriodicCallback. rewrite Hgo. intros [= <- <- <-].
    split_and!; try done. exists []. by rewrite app_nil_r. }
  intros E. apply PeriodicCallback_runs in E as (m & st & g1 & E & _ & ->); [|done].
  apply collect_all_collects in E as (S & (_ & _ & new & -> & F) & _).
  destruct (adapt_hz_keeps
              (set_stats g1 (mkGCStats (totalCollected (stats g1))
                               (size_t (numCycles (stats g1) + 1))
                               (size_t (effectiveCycles (stats g1)
                                        + (if 0 <? m then 1 else 0))))) m)
    as (_ & -> & -> & _).
  simpl. destruct S as (_ & -> & _ & _ & -> & _).
  destruct (unlatch_keeps g) as (_ & Hg1 & Hg2). simpl in Hg1, Hg2.
  rewrite Hg1 in *. rewrite Hg2.
  split_and!; try done. by exists new.
Qed.

(** X24.  The guard of the RDB load is a latch.  While the host loads, the
    callback returns [true] and touches nothing.  The first callback that
    finds the host not loading clears [rdbPossiblyLoading], and from then
    on what the host answers to [isRdbLoading] has no part in what a
    callback does. *)
Theorem PeriodicCallback_rdb_latch g w env b g' w' :
  PeriodicCallback g w env = Ret (b, g', w') ->
  (rdbPossiblyLoading g && isRdbLoading env = true -> b = true /\ g' = g /\ w' = w) /\
  (rdbPossiblyLoading g && isRdbLoading env = false ->
   rdbPossiblyLoading g' = false /\
   forall w2 env2 loading,
     PeriodicCallback g' w2 (with_loading env2 loading) = PeriodicCallback g' w2 env2).
Proof.
  intros E. split.
  - intros Hgo. revert E. unfold PeriodicCallback. rewrite Hgo. by intros [= <- <- <-].
  - intros Hgo.
    apply PeriodicCallback_runs in E as (m & st & g1 & E & _ & ->); [|done].
    apply collect_all_collects in E as (S & _).
    assert (Hoff : rdbPossiblyLoading
                     (adapt_hz
                        (set_stats g1 (mkGCStats (totalCollected (stats g1))
                                         (size_t (numCycles (stats g1) + 1))
                                         (size_t (effectiveCycles (stats g1)
                                                  + (if 0 <? m then 1 else 0))))) m)
                   = false).
    { destruct (adapt_hz_keeps
                  (set_stats g1 (mkGCStats (totalCollected (stats g1))
                                   (size_t (numCycles (stats g1) + 1))
                                   (size_t (effectiveCycles (stats g1)
                                            + (if 0 <? m then 1 else 0))))) m)
        as (_ & _ & _ & -> & _).
      simpl. destruct S as (_ & _ & -> & _).
      destruct (rdbPossiblyLoading g) eqn:Hr; [done|]. by rewrite Hr. }
    split; [done|]. intros w2 env2 loading.
    unfold PeriodicCallback. rewrite Hoff. done.
Qed.

(** X25.  The count of effective cycles never overtakes the count of cycles:
    if it does not exceed it before a callback, and the count of cycles is
    not at the end of [size_t], it does not exceed it afterwards; a
    callback adds at most one to the count of cycles. *)
Theorem PeriodicCallback_cycles g w env b g' w' :
  PeriodicCallback g w env = Ret (b, g', w') ->
  0 <= effectiveCycles (stats g) <= numCycles (stats g) ->
  numCycles (stats g) + 1 < 2 ^ 64 ->
  0 <= effectiveCycles (stats g') <= numCycles (stats g') /\
  numCycles (stats g) <= numCycles (stats g') <= numCycles (stats g) + 1.
Proof.
  intros E Hinv Hroom.
  destruct (rdbPossiblyLoading g && isRdbLoading env) eqn:Hgo.
  { revert E. unfold PeriodicCallback. rewrite Hgo. intros [= <- <- <-]. lia. }
  apply PeriodicCallback_runs in E as (m & st & g1 & E & _ & ->); [|done].
  apply collect_all_collects in E as (S & _).
  destruct (adapt_hz_keeps
              (set_stats g1 (mkGCStats (totalCollected (stats g1))
                               (size_t (numCycles (stats g1) + 1))
                               (size_t (effectiveCycles (stats g1)
                                        + (if 0 <? m then 1 else 0))))) m) as (-> & _).
  simpl. destruct S as (_ & _ & _ & _ & _ & -> & ->).
  destruct (unlatch_keeps g) as (Hg & _). simpl in Hg.
  rewrite Hg. unfold size_t.
  rewrite (Z.mod_small (numCycles (stats g) + 1)) by lia.
  rewrite Z.mod_small by (destruct (0 <? m); lia).
  destruct (0 <? m); lia.
Qed.



End CollectorBooks.

Section NumericCollectorMore.
Context {num : GcNum}.

Lemma next_with_range_spec it :
  match next_with_range it with
  | Some (n, rest) =>
      is_Some (node_range n) /\
      exists skipped, it = skipped ++ n :: rest /\
        Forall (fun m => node_range m = None) skipped
  | None => Forall (fun m => node_range m = None) it
  end.
Proof.
  induction it as [|m it IH]; simpl; [done|].
  destruct (node_range m) as [h|] eqn:Hm.
  - split; [by rewrite Hm|]. by exists [].
  - destruct (next_with_range it) as [[n rest]|].
    + destruct IH as (Hn & skipped & -> & F). split; [done|].
      exists (m :: skipped). split; [done|]. by constructor.
    + by constructor.
Qed.

(** X28.  [NextGcNode] returns a node with a range, always: the first one of
    what is left of the iterator, or, when nothing with a range is left,
    the first one of the tree from its root.  It passes over nodes without
    a range only, and the entry keeps its tree and its revision. *)
Theorem NextGcNode_first_with_range trees ngc n ngc' :
  NextGcNode trees ngc = Ret (n, ngc') ->
  is_Some (node_range n) /\
  ngc_rt ngc' = ngc_rt ngc /\ ngc_revisionId ngc' = ngc_revisionId ngc /\
  exists skipped,
    Forall (fun m => node_range m = None) skipped /\
    (gcIterator ngc = skipped ++ n :: gcIterator ngc'
     \/
     Forall (fun m => node_range m = None) (gcIterator ngc) /\
     exists t, trees !! ngc_rt ngc = Some t /\
       rt_nodes t = skipped ++ n :: gcIterator ngc').
Proof.
  unfold NextGcNode. rewrite NextGcNode_loop_two by lia.
  pose proof (next_with_range_spec (gcIterator ngc)) as H1.
  destruct (next_with_range (gcIterator ngc)) as [[n1 rest1]|].
  - simpl. intros [= <- <-]. destruct H1 as (Hn & skipped & Hit & F).
    split_and!; try done. exists skipped. split; [done|]. by left.
  - destruct (trees !! ngc_rt ngc) as [t|] eqn:Ht; [|done].
    pose proof (next_with_range_spec (rt_nodes t)) as H2.
    destruct (next_with_range (rt_nodes t)) as [[n2 rest2]|]; [|done].
    simpl. intros [= <- <-]. destruct H2 as (Hn & skipped & Hit & F).
    split_and!; try done. exists skipped. split; [done|]. right. split; [done|].
    by exists t.
Qed.

(** X29.  Once the array of the numeric fields is synchronised with the spec
    it has one entry for each numeric field, and synchronising again, with
    the same fields, changes nothing: the indexes are not opened again. *)
Theorem sync_numericGC_idempotent g w env g' :
  sync_numericGC g w env = Ret g' ->
  length (numericGC g') = length (ne_fields env) /\
  sync_numericGC g' w env = Ret g'.
Proof.
  unfold sync_numericGC at 1. case_bool_decide as Hlen.
  - case_bool_decide; [done|].
    destruct (rebuild_numericGC _ _ _) as [arr| | |] eqn:E; simpl; [|done|done|done].
    intros [= <-]. simpl.
    apply rebuild_numericGC_fresh in E as (fresh & -> & HF). simpl.
    apply Forall2_length in HF. split; [done|].
    unfold sync_numericGC. simpl. by rewrite bool_decide_eq_false_2 by lia.
  - intros [= <-]. split; [lia|].
    unfold sync_numericGC. by rewrite bool_decide_eq_false_2 by lia.
Qed.

End NumericCollectorMore.

(** ** [Document::GetField] *)

Section GetFieldFacts.

Lemma tolower_NUL a : tolower a = NUL -> a = NUL.
Proof. destruct a as [[] [] [] [] [] [] [] []]; vm_compute; congruence. Qed.

Lemma byte_diff_0 a b :
  Z.of_nat (Ascii.nat_of_ascii a) - Z.of_nat (Ascii.nat_of_ascii b) = 0 <-> a = b.
Proof.
  split; [|intros ->; lia]. intros H.
  assert (E : Ascii.nat_of_ascii a = Ascii.nat_of_ascii b) by lia.
  rewrite <- (Ascii.ascii_nat_embedding a), <- (Ascii.ascii_nat_embedding b). by rewrite E.
Qed.

(** [strcasecmp] is zero exactly on two C strings that are the same once
    lowered. *)
Lemma strcasecmp_0 s1 : forall s2,
  strcasecmp s1 s2 = 0 <-> lower (cstr s1) = lower (cstr s2).
Proof.
  induction s1 as [|a r1 IH]; intros s2; cbn [strcasecmp byte_at].
  - destruct (Z.eqb_spec (Z.of_nat (Ascii.nat_of_ascii (tolower NUL))
                          - Z.of_nat (Ascii.nat_of_ascii (tolower (byte_at s2)))) 0)
      as [E|E]; cbn [negb].
    + split; [|done]. intros _. apply byte_diff_0 in E. symmetry in E.
      apply tolower_NUL in E. destruct s2 as [|b r2]; [done|]. simpl in E. subst b. done.
    + split; [done|]. intros L. exfalso. apply E, byte_diff_0.
      destruct s2 as [|b r2]; [done|]. simpl in L |- *.
      destruct (Ascii.eqb_spec b NUL) as [->|]; [done|]. done.
  - destruct (Z.eqb_spec (Z.of_nat (Ascii.nat_of_ascii (tolower a))
                          - Z.of_nat (Ascii.nat_of_ascii (tolower (byte_at s2)))) 0)
      as [E|E]; cbn [negb].
    + apply byte_diff_0 in E.
      destruct (Ascii.eqb_spec a NUL) as [->|Ha].
      * split; [|intros _; by apply byte_diff_0]. intros _.
        symmetry in E. apply tolower_NUL in E.
        destruct s2 as [|b r2]; [done|]. simpl in E. subst b. done.
      * destruct s2 as [|b r2].
        { exfalso. apply tolower_NUL in E. done. }
        simpl in E. cbn [str_drop cstr].
        destruct (Ascii.eqb_spec a NUL) as [|_]; [done|].
        destruct (Ascii.eqb_spec b NUL) as [->|Hb].
        { exfalso. apply tolower_NUL in E. done. }
        rewrite IH. simpl. rewrite E. split; [by intros ->|by intros [= ->]].
    + split; [done|]. intros L. exfalso. apply E, byte_diff_0.
      destruct s2 as [|b r2]; simpl in L |- *.
      * destruct (Ascii.eqb_spec a NUL) as [->|]; [done|]. done.
      * destruct (Ascii.eqb_spec a NUL) as [->|Ha], (Ascii.eqb_spec b NUL) as [->|Hb];
          simpl in L; try done. by injection L.
Qed.

(** X20.  [Document::GetField] returns the first field, in the order of the
    document, whose name is the asked one up to the case of the letters;
    it returns null when no field has such a name, and on a null name. *)
Theorem Document_GetField_first d name :
  Document_GetField d None = None /\
  match Document_GetField d (Some name) with
  | Some f =>
      exists i, fields d !! i = Some f /\
        lower (cstr (f_name f)) = lower (cstr name) /\
        forall j g, (j < i)%nat -> fields d !! j = Some g ->
          lower (cstr (f_name g)) <> lower (cstr name)
  | None =>
      forall g, g ∈ fields d -> lower (cstr (f_name g)) <> lower (cstr name)
  end.
Proof.
  split; [done|]. unfold Document_GetField.
  induction (fields d) as [|f fl IH]; simpl.
  - intros g Hg. by apply elem_of_nil in Hg.
  - destruct (Z.eqb_spec (strcasecmp (f_name f) name) 0) as [E|E].
    + apply strcasecmp_0 in E. exists O. split_and!; try done. intros j g Hj. lia.
    + rewrite strcasecmp_0 in E.
      destruct (Document_GetField_loop fl name) as [f'|].
      * destruct IH as (i & Hi & Hl & Hfirst). exists (S i). split_and!; try done.
        intros [|j] g Hj Hg; simpl in Hg; [by simplify_eq|].
        apply (Hfirst j g); [lia|done].
      * intros g Hg. apply elem_of_cons in Hg as [->|Hg]; auto.
Qed.

(** X21.  The lookup depends on the asked name only up to the case of its
    letters, and only on what comes before its first [NUL]. *)
Theorem Document_GetField_case_insensitive d name1 name2 :
  lower (cstr name1) = lower (cstr name2) ->
  Document_GetField d (Some name1) = Document_GetField d (Some name2).
Proof.
  intros L. unfold Document_GetField.
  induction (fields d) as [|f fl IH]; simpl; [done|].
  rewrite IH.
  destruct (Z.eqb_spec (strcasecmp (f_name f) name1) 0) as [E1|E1],
           (Z.eqb_spec (strcasecmp (f_name f) name2) 0) as [E2|E2]; try done.
  - exfalso. apply E2. apply strcasecmp_0. rewrite <- L. by apply strcasecmp_0.
  - exfalso. apply E1. apply strcasecmp_0. rewrite L. by apply strcasecmp_0.
Qed.

End GetFieldFacts.

(** ** The constructor *)

Section ConstructorFacts.
Context {hdr : Headers} {hdr_ok : HeadersOk} {host : Host} {alloc : Allocator}.

Lemma SetDocument_field_totalTokens sp f c l ok c' l' f' :
  SetDocument_field sp f c l = (ok, c', l', f') -> totalTokens c' = totalTokens c.
Proof.
  unfold SetDocument_field, classify.
  intros E. destruct f as [nm tx ia]; simpl in *.
  repeat case_match; simplify_eq/=; done.
Qed.

Lemma SetDocument_loop_totalTokens sp fl : forall c l ok c' l' fl',
  SetDocument_loop sp fl c l = (ok, c', l', fl') -> totalTokens c' = totalTokens c.
Proof.
  induction fl as [|f fl IH]; intros c l ok c' l' fl' E; simpl in E.
  - by simplify_eq.
  - destruct (SetDocument_field sp f c l) as [[[ok1 c1] l1] f1] eqn:E1.
    apply SetDocument_field_totalTokens in E1.
    destruct ok1; [|by simplify_eq].
    destruct (SetDocument_loop sp fl c1 l1) as [[[ok2 c2] l2] fl2] eqn:E2.
    simplify_eq. apply IH in E2. congruence.
Qed.

Lemma SetDocument_totalTokens c sp d n :
  totalTokens (SetDocument c sp d n).1.2 = totalTokens c.
Proof.
  rewrite SetDocument_eq; cbv zeta.
  destruct (SetDocument_loop _ _ _ _) as [[[ok c5] l] fl] eqn:E.
  apply SetDocument_loop_totalTokens in E. simpl in E.
  destruct ok; cbn [fst snd]; [|done].
  rewrite <- E. unfold SetDocument_finish, SetDocument_offsets, SetDocument_empty,
    SetDocument_sv, SetDocument_derive, flag_if.
  repeat case_match; done.
Qed.

(** X7.  The constructor throws for want of an indexer before it looks at the
    document.  With an indexer it succeeds exactly on the documents
    [SetDocument] accepts: the context then holds the document with every
    [indexAs] resolved and the id zero, a status without an error, no
    token, and document flags that say whether a geo field is there; on
    the other documents the caller is handed the code [DUPFIELD] or
    [UNSUPPTYPE]. *)
Theorem AddDocumentCtx_new_verdict raw sp has_indexer b :
  match AddDocumentCtx_new raw sp has_indexer b with
  | inl (Ret c') =>
      has_indexer = true /\ accepted sp ∅ (fields b) /\
      fields (doc c') = map (resolve sp) (fields b) /\ docId (doc c') = 0 /\
      code (status c') = QUERY_OK /\ totalTokens c' = 0 /\ fwIdx c' = [] /\
      events c' = events raw /\
      docFlags c' = (if existsb (geo_field sp) (fields b)
                     then Document_HasOnDemandDeletable else 0)
  | inl (Throw what) => has_indexer = false /\ what = "No indexer"
  | inl _ => False
  | inr st =>
      has_indexer = true /\ ~ accepted sp ∅ (fields b) /\
      (code st = QUERY_EDUPFIELD \/ code st = QUERY_EUNSUPPTYPE)
  end.
Proof.
  unfold AddDocumentCtx_new. destruct has_indexer; cbn [negb]; [|done].
  cbn zeta. set (c0 := set_docFlags _ 0).
  pose proof (SetDocument_events c0 sp b (NumFields (doc c0))) as Hev.
  destruct (SetDocument c0 sp b (NumFields (doc c0))) as [[ok c'] d'] eqn:E.
  destruct ok.
  - pose proof (SetDocument_ok_bits _ _ _ _ _ _ E) as (Hd' & Ha & Hst & _).
    pose proof (SetDocument_ok_fspecs _ _ _ _ _ _ E) as (_ & Hdoc & Hdf & _).
    pose proof (SetDocument_totalTokens c0 sp b (NumFields (doc c0))) as Htt.
    rewrite E in Htt. simpl in Hev, Htt, Hdf, Hst |- *.
    rewrite Hdoc, Hd'. split_and!; try done. by rewrite Hst.
  - split; [done|]. split.
    + intros Ha. destruct (SetDocument_accepted c0 sp b (NumFields (doc c0)) Ha) as (c2 & E2).
      congruence.
    + by apply (SetDocument_fail_code c0 sp b (NumFields (doc c0)) c' d').
Qed.

End ConstructorFacts.

(** ** [IndexBulkData::Add] *)

Section BulkFacts.
Context {hdr : Headers} {bhdr : BulkHeaders} {host : Host}.

Lemma Add_turn_status h docId f fd i s ok s' :
  Add_turn h docId f fd i s = (ok, s') -> bulk_status i s ok s'.
Proof.
  unfold Add_turn, bulk_status, tagIndexer, numericIndexer, geoIndexer.
  repeat case_match; intros; simplify_eq/=; try done;
    repeat match goal with
           | X : bool_decide _ = false |- _ => apply bool_decide_eq_false_1 in X
           end;
    eexists _, _; (split; [reflexivity|]); first [by left | right; split_and!; done].
Qed.

Lemma Add_loop_status h docId f fd n : forall i s ok s',
  Add_loop h docId f fd n i s = (ok, s') ->
  if ok then bk_status s' = bk_status s
  else exists j c msg,
    (i <= j < i + n)%nat /\
    bk_status s' = SetError (bk_status s) c msg /\
    (c = QUERY_EGENERIC \/
     c = QUERY_EINVAL /\ j <> IXFLDPOS_TAG /\ j <> IXFLDPOS_NUMERIC /\
     j <> IXFLDPOS_GEO /\ j <> IXFLDPOS_FULLTEXT).
Proof.
  induction n as [|n IH]; intros i s ok s'; simpl.
  - by intros [= <- <-].
  - destruct (Add_turn h docId f fd i s) as [rc s1] eqn:E1.
    apply Add_turn_status in E1. unfold bulk_status in E1.
    destruct rc.
    + intros E2. apply IH in E2. destruct ok; [congruence|].
      destruct E2 as (j & c & msg & Hj & Hst & Hc). exists j, c, msg.
      split_and!; [lia|lia|congruence|done].
    + intros [= <- <-]. destruct E1 as (c & msg & Hst & Hc). exists i, c, msg.
      split_and!; [lia|lia|done|done].
Qed.

(** X17.  [Add] leaves the status alone when it returns [true].  When it
    returns [false] on a status without an error, the code is [GENERIC],
    from the indexer that failed, or [INVAL], from the default branch of
    the switch; and the default branch is not reached when every position
    below [INDEXFLD_NUM_TYPES] is one of the four the switch names. *)
Theorem IndexBulkData_Add_status h docId f fd s :
  let r := IndexBulkData_Add h docId f fd s in
  (r.1 = true -> bk_status r.2 = bk_status s) /\
  (r.1 = false -> code (bk_status s) = QUERY_OK ->
   (code (bk_status r.2) = QUERY_EGENERIC \/ code (bk_status r.2) = QUERY_EINVAL) /\
   (positions_named -> code (bk_status r.2) = QUERY_EGENERIC)).
Proof.
  intros r. subst r. unfold IndexBulkData_Add.
  destruct (Add_loop h docId f fd INDEXFLD_NUM_TYPES O s) as [ok s'] eqn:E.
  apply Add_loop_status in E. simpl. split.
  - intros ->. done.
  - intros -> Hok. destruct E as (j & c & msg & Hj & -> & Hc).
    rewrite SetError_fresh by done. simpl. split.
    + destruct Hc as [->|(-> & _)]; auto.
    + intros Hnamed. destruct Hc as [->|(_ & H1 & H2 & H3 & H4)]; [done|].
      exfalso. destruct (Hnamed j) as [?|[?|[?|?]]]; [lia|done..].
Qed.

Lemma bulk_records_refl s : bulk_records s s.
Proof.
  exists []. rewrite app_nil_r, Z.sub_diag. split_and!; done.
Qed.

Lemma bulk_records_trans s1 s2 s3 :
  bulk_records s1 s2 -> bulk_records s2 s3 -> bulk_records s1 s3.
Proof.
  intros (n1 & C1 & R1 & K1) (n2 & C2 & R2 & K2). exists (n1 ++ n2).
  rewrite List.filter_app, length_app.
  split_and!.
  - by rewrite C2, C1, app_assoc.
  - apply size_t_cong in R1 as (k1 & R1). apply size_t_cong in R2 as (k2 & R2).
    apply size_t_cong. exists (k1 + k2). lia.
  - intros Hnil. apply app_eq_nil in Hnil as (H1 & H2).
    rewrite K2, K1; done.
Qed.

Lemma bulk_records_counted s idx sz st c :
  counted c = true ->
  bulk_records s (mkBulkState idx (count_record (bk_stats s) sz) st (bk_calls s ++ [c])).
Proof.
  intros Hc. exists [c]. simpl. rewrite Hc. simpl.
  split_and!; [done| |done].
  destruct (size_t_ex (numRecords (bk_stats s) + 1)) as (k & ->).
  apply size_t_cong. exists k. lia.
Qed.

Lemma Add_turn_records h docId f fd i s ok s' :
  Add_turn h docId f fd i s = (ok, s') -> bulk_records s s'.
Proof.
  unfold Add_turn, tagIndexer, numericIndexer, geoIndexer.
  repeat case_match; intros; simplify_eq/=;
    try apply bulk_records_refl;
    try (apply bulk_records_counted; reflexivity);
    try (exists []; simpl; rewrite app_nil_r, Z.sub_diag; split_and!; done);
    try (eexists [_]; simpl; rewrite Z.sub_diag; split_and!; done).
Qed.

Lemma Add_loop_records h docId f fd n : forall i s ok s',
  Add_loop h docId f fd n i s = (ok, s') -> bulk_records s s'.
Proof.
  induction n as [|n IH]; intros i s ok s'; simpl.
  - intros [= <- <-]. apply bulk_records_refl.
  - destruct (Add_turn h docId f fd i s) as [rc s1] eqn:E1.
    apply Add_turn_records in E1. destruct rc.
    + intros E2. apply IH in E2. by eapply bulk_records_trans.
    + by intros [= <- <-].
Qed.

(** X18.  [numRecords] of the spec goes up by one for each insert into the
    numeric index and into the tag index, and for nothing else: an insert
    into the geo index is not counted, and when [Add] makes no numeric and
    no tag insert the counters of the spec are as they were. *)
Theorem IndexBulkData_Add_records h docId f fd s :
  let r := IndexBulkData_Add h docId f fd s in
  exists new,
    bk_calls r.2 = bk_calls s ++ new /\
    size_t (numRecords (bk_stats r.2) - numRecords (bk_stats s))
    = size_t (Z.of_nat (length (List.filter counted new))) /\
    (List.filter counted new = [] -> bk_stats r.2 = bk_stats s).
Proof.
  intros r. subst r. unfold IndexBulkData_Add.
  destruct (Add_loop h docId f fd INDEXFLD_NUM_TYPES O s) as [ok s'] eqn:E.
  by apply Add_loop_records in E.
Qed.

Lemma Add_turn_numeric h docId f fd i s ok s' rt :
  IXFLDPOS_NUMERIC = INDEXTYPE_TO_POS INDEXFLD_T_NUMERIC ->
  IXFLDPOS_TAG <> IXFLDPOS_NUMERIC ->
  indexDatas s !! IXFLDPOS_NUMERIC = Some rt ->
  Add_turn h docId f fd i s = (ok, s') -> bulk_numeric rt s s'.
Proof.
  intros Hpos Hne Hrt.
  unfold Add_turn, bulk_numeric, tagIndexer, numericIndexer, geoIndexer.
  rewrite <- Hpos, Hrt.
  repeat case_match; intros; simplify_eq/=;
    (split;
     [ try done; unfold store_data; repeat case_match;
       rewrite ?lookup_insert_ne, ?lookup_delete_ne by done; done
     | first [ exists []; rewrite app_nil_r; split; [done|];
               intros ? ? ? X; by apply elem_of_nil in X
             | eexists [_]; split; [done|];
               intros ? ? ? X; apply list_elem_of_singleton in X; by simplify_eq ] ]).
Qed.

Lemma Add_loop_numeric h docId f fd rt n : forall i s ok s',
  IXFLDPOS_NUMERIC = INDEXTYPE_TO_POS INDEXFLD_T_NUMERIC ->
  IXFLDPOS_TAG <> IXFLDPOS_NUMERIC ->
  indexDatas s !! IXFLDPOS_NUMERIC = Some rt ->
  Add_loop h docId f fd n i s = (ok, s') -> bulk_numeric rt s s'.
Proof.
  induction n as [|n IH]; intros i s ok s' Hpos Hne Hrt; simpl.
  - intros [= <- <-]. split; [done|]. exists []. rewrite app_nil_r. split; [done|].
    intros ? ? ? X. by apply elem_of_nil in X.
  - destruct (Add_turn h docId f fd i s) as [rc s1] eqn:E1.
    apply (Add_turn_numeric _ _ _ _ _ _ _ _ rt Hpos Hne Hrt) in E1
      as (Hrt1 & new1 & C1 & N1).
    destruct rc.
    + intros E2. apply (IH _ _ _ _ Hpos Hne Hrt1) in E2 as (Hrt2 & new2 & C2 & N2).
      split; [done|]. exists (new1 ++ new2). split; [by rewrite C2, C1, app_assoc|].
      intros rt' d x X. apply elem_of_app in X as [X|X]; eauto.
    + intros [= <- <-]. split; [done|]. by exists new1.
Qed.

(** X19.  When the switch and [numericIndexer] agree on the position of the
    numeric type, a numeric index that is open stays the open one through
    an [Add], whatever the host would answer to another
    [OpenNumericIndex], and every numeric insert the [Add] makes goes to
    it. *)
Theorem IndexBulkData_Add_numeric_index h docId f fd s rt :
  IXFLDPOS_NUMERIC = INDEXTYPE_TO_POS INDEXFLD_T_NUMERIC ->
  IXFLDPOS_TAG <> IXFLDPOS_NUMERIC ->
  indexDatas s !! IXFLDPOS_NUMERIC = Some rt ->
  let r := IndexBulkData_Add h docId f fd s in
  indexDatas r.2 !! IXFLDPOS_NUMERIC = Some rt /\
  exists new,
    bk_calls r.2 = bk_calls s ++ new /\
    forall rt' d x, CallNumericAdd rt' d x ∈ new -> rt' = rt.
Proof.
  intros Hpos Hne Hrt r. subst r. unfold IndexBulkData_Add.
  destruct (Add_loop h docId f fd INDEXFLD_NUM_TYPES O s) as [ok s'] eqn:E.
  by apply (Add_loop_numeric _ _ _ _ rt _ _ _ _ _ Hpos Hne Hrt) in E.
Qed.

End BulkFacts.

(** ** The byte offsets from [SetDocument] to [AddToIndexes] *)

Section ByteOffsets.
Context {hdr : Headers} {host : Host}.

Lemma chained_app start mid stop r1 r2 :
  chained start r1 mid -> chained mid r2 stop -> chained start (r1 ++ r2) stop.
Proof.
  revert start. induction r1 as [|[[id a] b] r1 IH]; intros start; simpl.
  - by intros ->.
  - intros (-> & H1) H2. split; [done|]. by apply IH.
Qed.

Lemma offsets_step_same c c' :
  byteOffsets c' = byteOffsets c -> totalTokens c' = totalTokens c ->
  offsets_step c c' 0.
Proof.
  unfold offsets_step. intros -> ->. destruct (byteOffsets c) as [[cap rs]|]; [|done].
  exists []. by rewrite app_nil_r.
Qed.

Lemma offsets_step_trans c1 c2 c3 k1 k2 :
  offsets_step c1 c2 k1 -> offsets_step c2 c3 k2 -> offsets_step c1 c3 (k1 + k2).
Proof.
  unfold offsets_step. destruct (byteOffsets c1) as [[cap rs]|].
  - intros (n1 & -> & L1 & C1) (n2 & -> & L2 & C2). exists (n1 ++ n2).
    rewrite app_assoc, length_app. split_and!; [done|lia|by eapply chained_app].
  - by intros ->.
Qed.

Lemma offsets_step_le c c' k k' :
  (k <= k')%nat -> offsets_step c c' k -> offsets_step c c' k'.
Proof.
  unfold offsets_step. intros Hk. destruct (byteOffsets c) as [[cap rs]|]; [|done].
  intros (new & ? & ? & ?). exists new. split_and!; [done|lia|done].
Qed.

Lemma sv_Put_offsets c i x c' :
  sv_Put c i x = Ret c' -> byteOffsets c' = byteOffsets c /\ totalTokens c' = totalTokens c.
Proof. unfold sv_Put. destruct (sv c); by intros [= <-]. Qed.

(** The full-text handler is the one that writes the byte offsets. *)
Lemma FulltextPreprocessor_offsets fs e ok e' :
  FulltextPreprocessor fs e = Ret (ok, e') ->
  offsets_step (p_ctx e) (p_ctx e') (if IsIndexable fs then 1 else 0).
Proof.
  unfold FulltextPreprocessor. destruct (f_text (p_field e)) as [t|]; [|done].
  assert (Hidx : forall c1,
            byteOffsets c1 = byteOffsets (p_ctx e) ->
            totalTokens c1 = totalTokens (p_ctx e) ->
            offsets_step (p_ctx e)
              (if IsIndexable fs
               then
                 let '(toks, lastTokPos) := tokenize t (tokenize_options fs) in
                 let c' := set_fwIdx c1
                             (fwIdx c1 ++ map (fun t => (t, fs_ftId fs, fs_ftWeight fs)) toks) in
                 let c'' :=
                   match byteOffsets c' with
                   | Some (cap, regions) =>
                       set_byteOffsets c'
                         (Some (cap, regions ++ [(fs_ftId fs, totalTokens c' + 1, lastTokPos)]))
                   | None => c'
                   end in
                 set_totalTokens c'' lastTokPos
               else c1)
              (if IsIndexable fs then 1 else 0)).
  { intros c1 Hb Ht. destruct (IsIndexable fs); [|by apply offsets_step_same].
    destruct (tokenize _ _) as [toks lastp]. simpl. unfold offsets_step.
    rewrite <- Hb, <- Ht.
    destruct (byteOffsets c1) as [[cap regions]|] eqn:Hbb; simpl; rewrite ?Hbb; [|done].
    eexists [_]. split_and!; [done|simpl; lia|done]. }
  destruct (IsSortable fs).
  - destruct (sv_Put _ _ _) as [c1| | |] eqn:E1; simpl; [|done|done|done].
    apply sv_Put_offsets in E1 as (Hb & Ht). intros [= <- <-]. simpl. by apply Hidx.
  - simpl. intros [= <- <-]. simpl. by apply Hidx.
Qed.

Lemma NumericPreprocessor_offsets fs e ok e' :
  NumericPreprocessor fs e = Ret (ok, e') -> offsets_step (p_ctx e) (p_ctx e') 0.
Proof.
  unfold NumericPreprocessor. destruct (f_text (p_field e)) as [t|]; [|done].
  destruct (RedisModule_StringToDouble t) as [x|].
  - destruct (IsSortable fs).
    + destruct (sv_Put _ _ _) as [c1| | |] eqn:E1; simpl; [|done|done|done].
      apply sv_Put_offsets in E1 as (Hb & Ht). intros [= <- <-]. by apply offsets_step_same.
    + simpl. intros [= <- <-]. by apply offsets_step_same.
  - intros [= <- <-]. by apply offsets_step_same.
Qed.

Lemma GeoPreprocessor_offsets fs e ok e' :
  GeoPreprocessor fs e = Ret (ok, e') -> offsets_step (p_ctx e) (p_ctx e') 0.
Proof.
  unfold GeoPreprocessor. destruct (f_text (p_field e)) as [t|]; [|done].
  destruct (strpbrk t " ,") as [pos|]; intros [= <- <-]; by apply offsets_step_same.
Qed.

Lemma TagPreprocessor_offsets fs e ok e' :
  TagPreprocessor fs e = Ret (ok, e') -> offsets_step (p_ctx e) (p_ctx e') 0.
Proof.
  unfold TagPreprocessor. destruct (TagIndex_Tags _ _ _) as [|tg tgs].
  - intros [= <- <-]. by apply offsets_step_same.
  - destruct (IsSortable fs).
    + destruct (f_text (p_field e)) as [t|]; [|done].
      destruct (sv_Put _ _ _) as [c1| | |] eqn:E1; simpl; [|done|done|done].
      apply sv_Put_offsets in E1 as (Hb & Ht). intros [= <- <-]. by apply offsets_step_same.
    + intros [= <- <-]. by apply offsets_step_same.
Qed.

Lemma preprocess_offsets fs e ok e' :
  preprocess fs e = Ret (ok, e') ->
  offsets_step (p_ctx e) (p_ctx e')
    (if CheckIdx (p_field e) INDEXFLD_T_FULLTEXT && IsIndexable fs then 1 else 0).
Proof.
  unfold preprocess.
  destruct (when_idx INDEXFLD_T_FULLTEXT _ fs e) as [[ok1 e1]| | |] eqn:E1; simpl; [|done|done|done].
  assert (S1 : offsets_step (p_ctx e) (p_ctx e1)
                 (if CheckIdx (p_field e) INDEXFLD_T_FULLTEXT && IsIndexable fs
                  then 1 else 0)).
  { revert E1. unfold when_idx. destruct (CheckIdx _ _); simpl.
    - apply FulltextPreprocessor_offsets.
    - intros [= <- <-]. by apply offsets_step_same. }
  apply when_fulltext in E1 as (-> & _). simpl.
  set (k := if _ && _ then _ else _) in *.
  assert (Hrest : forall c2, offsets_step (p_ctx e1) c2 0 -> offsets_step (p_ctx e) c2 k).
  { intros c2 S2. pose proof (offsets_step_trans _ _ _ _ _ S1 S2) as S.
    by rewrite Nat.add_0_r in S. }
  clearbody k.
  destruct (when_idx INDEXFLD_T_NUMERIC _ fs e1) as [[ok2 e2]| | |] eqn:E2; simpl; [|done|done|done].
  assert (S2 : offsets_step (p_ctx e1) (p_ctx e2) 0).
  { revert E2. unfold when_idx. destruct (CheckIdx (p_field e1) INDEXFLD_T_NUMERIC).
    - apply NumericPreprocessor_offsets.
    - intros [= <- <-]. by apply offsets_step_same. }
  destruct ok2; simpl; [|intros [= <- <-]; by apply Hrest].
  destruct (when_idx INDEXFLD_T_GEO _ fs e2) as [[ok3 e3]| | |] eqn:E3; simpl; [|done|done|done].
  assert (S3 : offsets_step (p_ctx e2) (p_ctx e3) 0).
  { revert E3. unfold when_idx. destruct (CheckIdx (p_field e2) INDEXFLD_T_GEO).
    - apply GeoPreprocessor_offsets.
    - intros [= <- <-]. by apply offsets_step_same. }
  pose proof (offsets_step_trans _ _ _ _ _ S2 S3) as S23. simpl in S23.
  destruct ok3; simpl; [|intros [= <- <-]; by apply Hrest].
  intros E4.
  assert (S4 : offsets_step (p_ctx e3) (p_ctx e') 0).
  { revert E4. unfold when_idx. destruct (CheckIdx (p_field e3) INDEXFLD_T_TAG).
    - apply TagPreprocessor_offsets.
    - intros [= <- <-]. by apply offsets_step_same. }
  apply Hrest. pose proof (offsets_step_trans _ _ _ _ _ S23 S4) as S. by simpl in S.
Qed.

Lemma AddToIndexes_field_offsets i ff c ok c' fs :
  fspecs c !! i = Some fs ->
  AddToIndexes_field i ff c = Ret (ok, c') ->
  offsets_step c c' (if writes_region fs ff then 1 else 0).
Proof.
  unfold AddToIndexes_field, writes_region. intros ->.
  destruct (bool_decide (fs_name fs = EmptyString)); simpl.
  { intros [= <- <-]. by apply offsets_step_same. }
  destruct (f_indexAs ff =? 0).
  { intros [= <- <-]. eapply offsets_step_le; [|by apply offsets_step_same]. lia. }
  destruct (preprocess fs _) as [[ok1 e1]| | |] eqn:E1; simpl; [|done|done|done].
  apply preprocess_offsets in E1. simpl in E1. intros [= <- <-].
  unfold offsets_step in *. unfold commit. simpl. done.
Qed.

Lemma AddToIndexes_loop_offsets fl : forall i c ok c',
  AddToIndexes_loop i fl c = Ret (ok, c') ->
  offsets_step c c' (regions_bound (drop i (fspecs c)) fl).
Proof.
  induction fl as [|ff fl IH]; intros i c ok c'; simpl.
  - intros [= <- <-]. eapply offsets_step_le; [|by apply offsets_step_same]. lia.
  - destruct (AddToIndexes_field i ff c) as [[ok1 c1]| | |] eqn:E1; simpl; [|done|done|done].
    pose proof (AddToIndexes_field_facts _ _ _ _ _ E1) as (fs & Hfs & Ks & _).
    apply (AddToIndexes_field_offsets _ _ _ _ _ fs Hfs) in E1.
    rewrite (drop_S _ fs i) by done. simpl.
    destruct ok1.
    + intros E2. apply IH in E2. rewrite Ks in E2.
      by eapply offsets_step_trans.
    + intros [= <- <-]. eapply offsets_step_le; [|exact E1]. lia.
Qed.

Lemma regions_bound_text sp fl :
  (regions_bound (map (spec_of sp) fl) (map (resolve sp) fl) <= count_text sp fl)%nat.
Proof.
  unfold count_text. induction fl as [|f fl IH]; simpl; [lia|].
  assert (H : writes_region (spec_of sp f) (resolve sp f) = true -> text_field sp f = true).
  { unfold writes_region, spec_of, resolve, text_field, CheckIdx.
    destruct (live sp f) as [fs|]; simpl; [|done].
    intros H. apply andb_true_iff in H as (H & ->).
    apply andb_true_iff in H as (_ & ->). done. }
  destruct (writes_region _ _); destruct (text_field sp f); simpl; try lia.
Qed.

End ByteOffsets.

Section ByteOffsetsPipeline.
Context {hdr : Headers} {hdr_ok : HeadersOk} {host : Host} {alloc : Allocator}.

(** X15.  On a context that starts without byte offsets and with an empty
    [fspecs], the byte offsets that a successful [SetDocument] allocates
    are never overrun by [AddToIndexes]: the capacity is the number of text
    fields of the document, no more regions are added than that, and the
    regions tile the token positions from the token count the context
    started with to the one it ends with. *)
Theorem byteOffsets_capacity c sp d n c' d' st c'' :
  fspecs c = [] -> byteOffsets c = None ->
  SetDocument c sp d n = (true, c', d') ->
  AddToIndexes c' = Ret (st, c'') ->
  match byteOffsets c'' with
  | Some (cap, regions) =>
      cap = count_text sp (fields d) /\ (length regions <= cap)%nat /\
      chained (totalTokens c) regions (totalTokens c'')
  | None => byteOffsets c' = None
  end.
Proof.
  intros Hnil Hnone E EA.
  pose proof (SetDocument_ok_fspecs _ _ _ _ _ _ E) as (Hfs & Hdoc & _ & Hbo).
  pose proof (SetDocument_ok_bits _ _ _ _ _ _ E) as (Hd' & _).
  pose proof (SetDocument_totalTokens c sp d n) as Htt. rewrite E in Htt. simpl in Htt.
  rewrite Hnil in Hfs. simpl in Hfs. rewrite Hnone in Hbo.
  assert (S : offsets_step c' c'' (count_text sp (fields d))).
  { revert EA. unfold AddToIndexes.
    destruct (AddToIndexes_loop _ _ _) as [[ok cm]| | |] eqn:EL; simpl; [|done|done|done].
    apply AddToIndexes_loop_offsets in EL. rewrite drop_0, Hfs, Hdoc, Hd' in EL.
    simpl in EL.
    assert (S : offsets_step c' cm (count_text sp (fields d))).
    { eapply offsets_step_le; [apply regions_bound_text|exact EL]. }
    destruct ok; intros [= <- <-]; revert S; unfold offsets_step, AddToIndexes_cleanup,
      Finish, doReplyFinish; destruct (byteOffsets c') as [[cap rs]|];
      repeat case_match; simpl; done. }
  unfold offsets_step in S. rewrite Hbo in S.
  destruct (_ && _ && _).
  - destruct S as (new & -> & Hlen & Hch). simpl. rewrite <- Htt. done.
  - rewrite S. done.
Qed.

(** X9.  [handlePartialUpdate] takes the branch that merges and reindexes
    exactly when the document handed to [SetDocument] has a text field or
    an other field; a document of sortable or unknown fields only takes
    the branch that updates the metadata without reindexing. *)
Theorem handlePartialUpdate_reindexes_iff c sp d n c' d' :
  SetDocument c sp d n = (true, c', d') ->
  handlePartialUpdate_reindexes c'
  = existsb (text_field sp) (fields d) || existsb (other_field sp) (fields d).
Proof.
  intros E.
  pose proof bits_nonneg as (N1 & N2 & N3 & N4 & N5).
  apply SetDocument_ok_bits in E as (_ & _ & _ & _ & Hb).
  unfold handlePartialUpdate_reindexes, ACTX_F_INDEXABLES.
  rewrite c_test_bit, Hb by lia. by rewrite bool_decide_eq_true_2.
Qed.

End ByteOffsetsPipeline.

(* ===================================================================== *)
(** * Part III: the properties at work on the sample host and schema      *)
(* ===================================================================== *)

Import Sample.

(** ** [SetDocument] *)

#[export] Instance Sample_headers_ok : @HeadersOk Sample.headers.
Proof.
  split; unfold actx_bits; simpl.
  - repeat constructor; lia.
  - repeat (apply NoDup_cons; split; [set_solver|]). apply NoDup_nil_2.
Qed.

Lemma accepted_one `{Headers} sp f : conforms sp f -> accepted sp ∅ [f].
Proof.
  intros Hc. unfold accepted. rewrite live_indexes_cons.
  destruct (live sp f) as [fs|]; simpl.
  - split_and!; [apply NoDup_singleton | set_solver | by apply Forall_singleton].
  - split_and!; [apply NoDup_nil_2 | set_solver | by apply Forall_singleton].
Qed.

Lemma conforms_unspecified `{Headers} sp name text :
  conforms sp (mkDocumentField name text 0).
Proof. intros fs _. by left. Qed.

(** The run equations of the sample runs, from their verdicts. *)
Lemma SetDocument_returns_true `{Headers} `{Host} `{!Allocator} c sp d n :
  (SetDocument c sp d n).1.1 = true ->
  SetDocument c sp d n = (true, (SetDocument c sp d n).1.2, (SetDocument c sp d n).2).
Proof. destruct (SetDocument c sp d n) as [[ok c'] d']. simpl. by intros ->. Qed.

Lemma SetDocument_returns_false `{Headers} `{Host} `{!Allocator} c sp d n :
  (SetDocument c sp d n).1.1 = false ->
  SetDocument c sp d n = (false, (SetDocument c sp d n).1.2, (SetDocument c sp d n).2).
Proof. destruct (SetDocument c sp d n) as [[ok c'] d']. simpl. by intros ->. Qed.

(** What the constructor returns on the sample runs. *)
Lemma constructed_eq `{Headers} `{Host} r otherwise :
  returns_context r = true -> r = inl (Ret (constructed r otherwise)).
Proof. by destruct r as [[c| | |]|st]. Qed.


(** C10 as the spec words it fails on a context that is built again: the
    constructor resets the flag word before it calls [SetDocument].  The
    [SORTABLES] that the document with a title has set is not there after
    the same storage is built for a document without a sortable field, and
    the [EMPTY] that a document without a known field has set is not there
    after the storage is built for a document with a title.  A context
    with [EMPTY] is not handed to [ReplaceMerge] either. *)
Lemma SetDocument_sets_never_clears_counterexample :
  let sortable := Sample.document [Sample.field "title" "Widget"] in
  let plain := Sample.document [Sample.field "loc" "1.0,2.0"] in
  let unknown := Sample.document [Sample.field "color" "red"] in
  let c1 := constructed (AddDocumentCtx_new Sample.raw Sample.schema true sortable)
              Sample.raw in
  let c2 := constructed (AddDocumentCtx_new c1 Sample.schema true plain) Sample.raw in
  let e1 := constructed (AddDocumentCtx_new Sample.raw Sample.schema true unknown)
              Sample.raw in
  let e2 := constructed (AddDocumentCtx_new e1 Sample.schema true sortable) Sample.raw in
  (AddDocumentCtx_new Sample.raw Sample.schema true sortable = inl (Ret c1) /\
   AddDocumentCtx_new c1 Sample.schema true plain = inl (Ret c2) /\
   c_test (stateFlags c1) ACTX_F_SORTABLES = true /\
   c_test (stateFlags c2) ACTX_F_SORTABLES = false) /\
  (AddDocumentCtx_new Sample.raw Sample.schema true unknown = inl (Ret e1) /\
   AddDocumentCtx_new e1 Sample.schema true sortable = inl (Ret e2) /\
   c_test (stateFlags e1) ACTX_F_EMPTY = true /\
   handlePartialUpdate_reindexes e1 = false /\
   c_test (stateFlags e2) ACTX_F_EMPTY = false).
Proof.
  intros sortable plain unknown c1 c2 e1 e2.
  split_and!;
    first [ apply constructed_eq; vm_compute; reflexivity | vm_compute; reflexivity ].
Qed.



Lemma SetDocument_dupfield_witness :
  let f1 := Sample.field "title" "A" in
  let f2 := Sample.field "title" "B" in
  let r := SetDocument Sample.raw Sample.schema (Sample.document [f1; f2]) 0 in
  r.1.1 = false /\
  status r.1.2 = mkQueryError QUERY_EDUPFIELD (Some "Tried to insert `title` twice") /\
  r.2 = Sample.document [with_indexAs f1 INDEXFLD_T_FULLTEXT; f2].
Proof.
  intros f1 f2 r.
  destruct (SetDocument_dupfield Sample.raw Sample.schema (Sample.document [f1; f2]) 0
              [f1] f2 [] Sample.fs_title) as (c' & E & Hst & _).
  - reflexivity.
  - reflexivity.
  - apply accepted_one, conforms_unspecified.
  - reflexivity.
  - vm_compute. left.
  - subst r. rewrite E. simpl. split; [reflexivity|]. split; [exact Hst|reflexivity].
Defined.

(** C4 as the spec words it fails at two documents.  In the first the two
    fields have text and resolve to the spec [title], and the call is
    rejected with [UNSUPPTYPE] because of the [indexAs] of the first field;
    in the second the two fields resolve to [title] by name, the first has
    no text, and the call succeeds. *)
Lemma SetDocument_dupfield_counterexample :
  let f1 := mkDocumentField "title" (Some "A") INDEXFLD_T_GEO in
  let f2 := Sample.field "title" "B" in
  let g1 := mkDocumentField "title" None 0 in
  let r := SetDocument Sample.raw Sample.schema (Sample.document [f1; f2]) 0 in
  let q := SetDocument Sample.raw Sample.schema (Sample.document [g1; f2]) 0 in
  (live Sample.schema f1 = Some Sample.fs_title /\
   live Sample.schema f2 = Some Sample.fs_title /\
   r.1.1 = false /\ code (status r.1.2) = QUERY_EUNSUPPTYPE) /\
  (GetField Sample.schema (f_name g1) = Some Sample.fs_title /\
   GetField Sample.schema (f_name f2) = Some Sample.fs_title /\
   q.1.1 = true /\ code (status q.1.2) = QUERY_OK).
Proof. vm_compute. split_and!; reflexivity. Qed.

Lemma SetDocument_indexAs_witness :
  let f1 := mkDocumentField "title" (Some "A") INDEXFLD_T_GEO in
  let f2 := Sample.field "price" "9.99" in
  let r := SetDocument Sample.raw Sample.schema (Sample.document [f2; f1]) 0 in
  let q := SetDocument Sample.raw Sample.schema (Sample.document [f2]) 0 in
  (r.1.1 = false /\ code (status r.1.2) = QUERY_EUNSUPPTYPE) /\
  (q.1.1 = true /\
   exists f', fields q.2 !! 0%nat = Some f' /\ f_indexAs f' = INDEXFLD_T_NUMERIC).
Proof.
  intros f1 f2 r q.
  destruct (SetDocument_indexAs Sample.raw Sample.schema (Sample.document [f2; f1]) 0
              eq_refl) as (Hrej & _).
  destruct (SetDocument_indexAs Sample.raw Sample.schema (Sample.document [f2]) 0
              eq_refl) as (_ & Hacc).
  split.
  - destruct (Hrej [f2] f1 [] Sample.fs_title) as (c' & E & Hst).
    + reflexivity.
    + apply accepted_one, conforms_unspecified.
    + reflexivity.
    + vm_compute. set_solver.
    + discriminate.
    + vm_compute. discriminate.
    + subst r. rewrite E. simpl. split; [reflexivity|]. by rewrite Hst.
  - split; [reflexivity|].
    destruct (Hacc q.1.2 q.2) with (i := 0%nat) (f := f2) (fs := Sample.fs_price)
      as (f' & Hl & Hz & _); try reflexivity.
    exists f'. split; [exact Hl|]. apply Hz. reflexivity.
Defined.

(** C5 as the spec words it fails when the field with the unsupported
    [indexAs] also repeats an earlier field: the second field is matched to
    [title], its nonzero [indexAs] is not within the types of [title], and
    the document is rejected with [DUPFIELD]. *)
Lemma SetDocument_indexAs_counterexample :
  let f1 := Sample.field "title" "A" in
  let f2 := mkDocumentField "title" (Some "B") INDEXFLD_T_GEO in
  let r := SetDocument Sample.raw Sample.schema (Sample.document [f1; f2]) 0 in
  live Sample.schema f2 = Some Sample.fs_title /\
  f_indexAs f2 <> 0 /\
  ~ mask_subset (f_indexAs f2) (fs_types Sample.fs_title) /\
  r.1.1 = false /\ code (status r.1.2) = QUERY_EDUPFIELD.
Proof. vm_compute. split_and!; (reflexivity || discriminate). Qed.

(** ** The preprocessors and [AddToIndexes] *)

Lemma chars_of_40_7 a :
  str_mem a "40.7" = true -> a <> " "%char /\ a <> ","%char /\ a <> NUL.
Proof.
  simpl. rewrite !orb_true_iff. rewrite !Ascii.eqb_eq.
  intros [-> | [-> | [-> | [-> | [=]]]]]; split_and!; discriminate.
Qed.

Lemma chars_of_m74_0 a : str_mem a "-74.0" = true -> a <> NUL.
Proof.
  simpl. rewrite !orb_true_iff. rewrite !Ascii.eqb_eq.
  intros [-> | [-> | [-> | [-> | [-> | [=]]]]]]; discriminate.
Qed.

Lemma NumericPreprocessor_sortable_witness :
  let c := set_sv raw (Some [RS_NULL; RS_NULL]) in
  let e t := mkPreEnv c (field "price" t) FieldIndexerData_raw (status c) in
  (exists e' v',
     NumericPreprocessor fs_price (e "42.5") = Ret (true, e') /\
     sv (p_ctx e') = Some v' /\ v' !! 1%nat = Some (RS_NUM 42.5%Q)) /\
  (exists e',
     NumericPreprocessor fs_price (e "not-a-number") = Ret (false, e') /\
     code (p_status e') = QUERY_ENOTNUMERIC /\
     sv (p_ctx e') = Some [RS_NULL; RS_NULL]).
Proof.
  intros c e. split.
  - destruct (NumericPreprocessor_sortable fs_price (e "42.5") "42.5" [RS_NULL; RS_NULL])
      as (Hok & _); [reflexivity | reflexivity | reflexivity | simpl; lia |].
    destruct (Hok 42.5%Q) as (e' & v' & E & Hsv & Hv & _); [reflexivity|].
    by exists e', v'.
  - destruct (NumericPreprocessor_sortable fs_price (e "not-a-number") "not-a-number"
                [RS_NULL; RS_NULL])
      as (_ & Hfail); [reflexivity | reflexivity | reflexivity | simpl; lia |].
    destruct Hfail as (e' & E & Hc & _ & Hsv); [reflexivity | reflexivity |].
    by exists e'.
Defined.

Lemma GeoPreprocessor_split_witness :
  let e t := mkPreEnv raw (field "loc" t) FieldIndexerData_raw (status raw) in
  (exists e', GeoPreprocessor fs_loc (e "40.7,-74.0") = Ret (true, e') /\
              geo_lon e' = Some "40.7" /\ geo_lat e' = Some "-74.0") /\
  (exists e', GeoPreprocessor fs_loc (e "40.7 -74.0") = Ret (true, e') /\
              geo_lon e' = Some "40.7" /\ geo_lat e' = Some "-74.0") /\
  (exists e', GeoPreprocessor fs_loc (e "40.7") = Ret (false, e') /\
              code (p_status e') = QUERY_EGEOFORMAT).
Proof.
  intros e. split_and!.
  - destruct (GeoPreprocessor_split fs_loc (e "40.7,-74.0")) as (Hsplit & _).
    destruct (Hsplit "40.7" ","%char "-74.0") as (e' & E & Hlon & _ & Hlat & _);
      [reflexivity | by right | apply chars_of_40_7 |].
    exists e'. split_and!; [done | done | apply Hlat, chars_of_m74_0].
  - destruct (GeoPreprocessor_split fs_loc (e "40.7 -74.0")) as (Hsplit & _).
    destruct (Hsplit "40.7" " "%char "-74.0") as (e' & E & Hlon & _ & Hlat & _);
      [reflexivity | by left | apply chars_of_40_7 |].
    exists e'. split_and!; [done | done | apply Hlat, chars_of_m74_0].
  - destruct (GeoPreprocessor_split fs_loc (e "40.7")) as (_ & Hfail).
    destruct (Hfail "40.7") as (e' & E & Hc & _);
      [reflexivity | reflexivity | reflexivity | reflexivity |].
    by exists e'.
Defined.

Lemma AddToIndexes_failure_witness :
  let c fl := (SetDocument raw schema (document fl) 0).1.2 in
  (exists c',
     AddToIndexes (c [field "title" "Widget"; field "price" "abc"])
     = Ret (REDISMODULE_ERR, c') /\
     code (status c') = QUERY_ENOTNUMERIC /\
     events c' = [EvUnblockClient]) /\
  (exists c',
     AddToIndexes (c [field "loc" "40.7"; field "title" "Widget"])
     = Ret (REDISMODULE_ERR, c') /\
     code (status c') = QUERY_EGEOFORMAT /\
     events c' = [EvUnblockClient]).
Proof.
  intros c. split.
  - set (c0 := c _).
    destruct (AddToIndexes_failure c0 1 (mkDocumentField "price" (Some "abc") 2)
                fs_price "abc")
      as (cm & c' & E & _ & _ & Hev & _ & _ & Hcause & Hclean).
    + vm_compute; reflexivity.
    + vm_compute; reflexivity.
    + vm_compute; reflexivity.
    + discriminate.
    + reflexivity.
    + left. split; vm_compute; reflexivity.
    + exists c'. split; [exact E|].
      destruct Hclean as (_ & Hst); [vm_compute; reflexivity|].
      split; [|rewrite Hev; vm_compute; reflexivity].
      rewrite Hst.
      destruct Hcause as (k & ffk & fsk & tk & Hk & _ & _ & _ & [(_ & ->)|((Hg & _) & _)]).
      * vm_compute; reflexivity.
      * destruct k as [|[|k]]; vm_compute in Hk; try discriminate Hk;
          injection Hk as <-; vm_compute in Hg; discriminate Hg.
  - set (c0 := c _).
    destruct (AddToIndexes_failure c0 0 (mkDocumentField "loc" (Some "40.7") 4)
                fs_loc "40.7")
      as (cm & c' & E & _ & _ & Hev & _ & _ & Hcause & Hclean).
    + vm_compute; reflexivity.
    + vm_compute; reflexivity.
    + vm_compute; reflexivity.
    + discriminate.
    + reflexivity.
    + right. split; vm_compute; reflexivity.
    + exists c'. split; [exact E|].
      destruct Hclean as (_ & Hst); [vm_compute; reflexivity|].
      split; [|rewrite Hev; vm_compute; reflexivity].
      rewrite Hst.
      destruct Hcause as (k & ffk & fsk & tk & Hk & _ & _ & _ & [((Hn & _) & _)|(_ & ->)]).
      * destruct k as [|[|k]]; vm_compute in Hk; try discriminate Hk;
          injection Hk as <-; vm_compute in Hn; discriminate Hn.
      * vm_compute; reflexivity.
Defined.

(** ** The garbage collector *)

(** C2, at the input where the code departs from it: the collector is constructed for the spec with
    [uniqueId] 7 over storage whose member [specUniqueId] holds 8.  The
    pass runs on a spec with [uniqueId] 8: at the yield after the first
    repair the [uniqueId] of the spec, 8, differs from the 7 the collector
    was constructed with, and the pass goes on to a second repair on that
    spec and ends with the status [OK]. *)
Theorem CollectRandomTerm_ignores_constructor_id :
  let g := GarbageCollector_new raw_gc "idx" 10%Q 7 in
  let env := mkTermEnv 8 (Some "term") true
               [mkRound 1 2 10 8 true 0; mkRound 0 1 5 8 true 0] in
  specUniqueId g = 8 /\
  exists g' w',
    CollectRandomTerm g world env SPEC_STATUS_OK = Ret (3, SPEC_STATUS_OK, g', w') /\
    w_repairs w' = [(8, 0); (8, 1)].
Proof. split; [reflexivity|]. vm_compute. eexists _, _. split; reflexivity. Qed.

(** What the pass does hold to: the member.  With the same script and the
    member at 7, the yield ends the pass with [INVALID] after one repair. *)
Lemma CollectRandomTerm_invalid_at_yield :
  let g := mkGarbageCollector 10%Q "idx" (mkGCStats 0 0 0) true false 7 [] in
  let env := mkTermEnv 7 (Some "term") true
               [mkRound 1 2 10 8 true 0; mkRound 0 1 5 8 true 0] in
  exists n g' w',
    CollectRandomTerm g world env SPEC_STATUS_OK = Ret (n, SPEC_STATUS_INVALID, g', w') /\
    length (w_repairs w') = 1%nat.
Proof.
  intros g env. unfold CollectRandomTerm. simpl.
  destruct (CollectRandomTerm_loop_invalid (num := gc_num) []
              (mkRound 1 2 10 8 true 0) [mkRound 0 1 5 8 true 0]
              7 0 0 SPEC_STATUS_OK g world) as (n & g' & w' & E & Hlen);
    [constructor | discriminate | reflexivity |].
  exists n, g', w'. split; [exact E | exact Hlen].
Qed.

(** [<] of IEEE 754 is asymmetric. *)
Lemma Ieee_ok : @GcNumOk Ieee.gc_num.
Proof.
  constructor. intros a b. cbn [wlt Ieee.gc_num].
  unfold SpecFloat.SFltb, SpecFloat.SFcompare.
  destruct a as [sa|sa| |sa ma ea], b as [sb|sb| |sb mb eb];
    try done; try (by destruct sa); try (by destruct sb); try (by destruct sa, sb).
  change (Pos.compare_cont Eq ma mb) with (Pos.compare ma mb).
  change (Pos.compare_cont Eq mb ma) with (Pos.compare mb ma).
  rewrite (Z.compare_antisym ea eb), (Pos.compare_antisym ma mb).
  destruct sa, sb; try done;
    destruct (ea ?= eb); simpl; try done; by destruct (ma ?= mb)%positive.
Qed.

Lemma PeriodicCallback_adapts_witness :
  let g hz0 := @mkGarbageCollector Ieee.gc_num (Ieee.of_Z hz0) "idx"
                 (mkGCStats 0 0 0) true false 8 [] in
  let quiet := mkPassEnv false (mkTermEnv 8 None true [])
                 (mkNumericEnv 8 [] 0 []) (mkTagEnv 8 false false false []) in
  let busy := mkPassEnv false
                (mkTermEnv 8 (Some "term") true [mkRound 0 3 30 8 true 0])
                (mkNumericEnv 8 [] 0 []) (mkTagEnv 8 false false false []) in
  (* 10 * 1.2 is below the maximum *)
  (exists g' w', PeriodicCallback (g 10) world busy = Ret (true, g', w') /\
                 hz g' = Ieee.of_Z 12) /\
  (* 90 * 1.2 is above it *)
  (exists g' w', PeriodicCallback (g 90) world busy = Ret (true, g', w') /\
                 hz g' = Ieee.of_Z 100) /\
  (* 10 * 0.99 is above the minimum: the float next to 9.9 *)
  (exists g' w', PeriodicCallback (g 10) world quiet = Ret (true, g', w') /\
                 hz g' = SpecFloat.S754_finite false 10380902 (-20)) /\
  (* 1 * 0.99 is below it *)
  (exists g' w', PeriodicCallback (g 1) world quiet = Ret (true, g', w') /\
                 hz g' = Ieee.of_Z 1) /\
  hz (OnDelete (g 10)) = Ieee.of_Z 15 /\
  hz (OnDelete (g 80)) = Ieee.of_Z 100.
Proof.
  intros g quiet busy. split_and!.
  - edestruct (PeriodicCallback_adapts (num_ok := Ieee_ok) (g 10) world busy 3 SPEC_STATUS_OK)
      as ((g' & m & E & Hhz & Hup & _) & _); [reflexivity | reflexivity |].
    eexists g', _. split; [exact E|]. rewrite Hhz.
    destruct Hup as ([-> | ->] & H1 & H2); [lia | vm_compute; reflexivity |].
    vm_compute in H1. discriminate H1.
  - edestruct (PeriodicCallback_adapts (num_ok := Ieee_ok) (g 90) world busy 3 SPEC_STATUS_OK)
      as ((g' & m & E & Hhz & Hup & _) & _); [reflexivity | reflexivity |].
    eexists g', _. split; [exact E|]. rewrite Hhz.
    destruct Hup as ([-> | ->] & H1 & H2); [lia | | vm_compute; reflexivity].
    vm_compute in H2. discriminate H2.
  - edestruct (PeriodicCallback_adapts (num_ok := Ieee_ok) (g 10) world quiet 0 SPEC_STATUS_OK)
      as ((g' & m & E & Hhz & _ & Hdown) & _); [reflexivity | reflexivity |].
    eexists g', _. split; [exact E|]. rewrite Hhz.
    destruct Hdown as ([-> | ->] & H1 & H2); [lia | vm_compute; reflexivity |].
    vm_compute in H1. discriminate H1.
  - edestruct (PeriodicCallback_adapts (num_ok := Ieee_ok) (g 1) world quiet 0 SPEC_STATUS_OK)
      as ((g' & m & E & Hhz & _ & Hdown) & _); [reflexivity | reflexivity |].
    eexists g', _. split; [exact E|]. rewrite Hhz.
    destruct Hdown as ([-> | ->] & H1 & H2); [lia | | vm_compute; reflexivity].
    vm_compute in H2. discriminate H2.
  - destruct (PeriodicCallback_adapts (num_ok := Ieee_ok) (g 10) world quiet 0 SPEC_STATUS_OK
                (set_rdbPossiblyLoading (g 10) false) world) as (_ & m & Hhz & Hdel);
      [reflexivity | reflexivity |].
    rewrite Hhz. destruct Hdel as ([-> | ->] & H1 & H2); [vm_compute; reflexivity|].
    vm_compute in H1. discriminate H1.
  - destruct (PeriodicCallback_adapts (num_ok := Ieee_ok) (g 80) world quiet 0 SPEC_STATUS_OK
                (set_rdbPossiblyLoading (g 80) false) world) as (_ & m & Hhz & Hdel);
      [reflexivity | reflexivity |].
    rewrite Hhz. destruct Hdel as ([-> | ->] & H1 & H2); [|vm_compute; reflexivity].
    vm_compute in H2. discriminate H2.
Defined.

Lemma numeric_gc_guards_witness :
  let tree := mkNumericRangeTree 1 0
                [mkNumericRangeNode 1 None; mkNumericRangeNode 2 (Some 20)] in
  let bare := mkNumericRangeTree 1 0 [mkNumericRangeNode 1 None] in
  let w := mkWorld (mkSpecStats 0 0) (<[100 := tree]> (<[200 := bare]> ∅)) [] in
  let cached := [mkNumericFieldGC 100 1 []; mkNumericFieldGC 200 1 []] in
  let g := mkGarbageCollector 10%Q "idx" (mkGCStats 0 0 0) false false 8 cached in
  let shrunk := mkNumericEnv 8 [Some 100] 0 [] in
  NextGcNode (w_trees w) (mkNumericFieldGC 100 1 [])
  = Ret (mkNumericRangeNode 2 (Some 20), mkNumericFieldGC 100 1 []) /\
  NextGcNode_loop 5 (w_trees w) (mkNumericFieldGC 200 1 []) false O
  = (Throw "Second iterator should return result", 1%nat) /\
  CollectNumericIndex g w shrunk SPEC_STATUS_OK = Throw "it is not possible to remove fields".
Proof.
  intros tree bare w cached g shrunk.
  destruct (numeric_gc_guards g w shrunk SPEC_STATUS_OK) as (Hnext & Hsync).
  split_and!.
  - reflexivity.
  - destruct (Hnext 5%nat (mkNumericFieldGC 200 1 [])) as (_ & _ & Hthrow); [lia|].
    apply (Hthrow eq_refl bare); reflexivity.
  - destruct Hsync as (_ & Hfields); [reflexivity|].
    destruct Hfields as (Hless & _); [discriminate|].
    apply Hless. simpl. lia.
Defined.

(** C9 as the spec words it fails when the last numeric field is gone:
    the cached array holds two entries, the spec has no numeric field, and
    the pass returns zero with the status as it was; nothing is thrown. *)
Lemma numeric_gc_guards_counterexample :
  let cached := [mkNumericFieldGC 100 1 []; mkNumericFieldGC 200 1 []] in
  let g := mkGarbageCollector 10%Q "idx" (mkGCStats 0 0 0) false false 8 cached in
  let env := mkNumericEnv 8 [] 0 [] in
  (length (ne_fields env) < length (numericGC g))%nat /\
  CollectNumericIndex g world env SPEC_STATUS_OK = Ret (0, SPEC_STATUS_OK, g, world).
Proof. split; [simpl; lia | reflexivity]. Qed.

(** ** More of [SetDocument], [AddToIndexes] and [ReplaceMerge] *)


Lemma SetDocument_fspecs_witness :
  let d := document [field "title" "Widget"; field "color" "red"; field "price" "9.99"] in
  let r := SetDocument raw schema d 0 in
  let r2 := SetDocument r.1.2 schema (document [field "price" "1"]) 3 in
  map fs_name (fspecs r.1.2) = ["title"; EmptyString; "price"] /\
  r2.1.1 = true /\
  fs_name <$> fspecs r2.1.2 !! 0%nat = Some "title".
Proof.
  intros d r r2.
  assert (E : SetDocument raw schema d 0 = (true, r.1.2, r.2)).
  { apply SetDocument_returns_true. vm_compute. reflexivity. }
  assert (E2 : SetDocument r.1.2 schema (document [field "price" "1"]) 3
               = (true, r2.1.2, r2.2)).
  { apply SetDocument_returns_true. vm_compute. reflexivity. }
  destruct (SetDocument_fspecs _ _ _ _ _ _ E) as (Hfs & _).
  destruct (SetDocument_fspecs _ _ _ _ _ _ E2) as (_ & Hold & _).
  split; [rewrite Hfs; vm_compute; reflexivity|].
  split; [vm_compute; reflexivity|].
  rewrite (Hold 0%nat fs_title); [reflexivity|].
  rewrite Hfs. vm_compute. reflexivity.
Defined.

Lemma SetDocument_byteOffsets_witness :
  let sp := mkIndexSpec (GetField schema) Index_StoreByteOffsets 2 7 in
  let d := document [field "title" "a b"; field "price" "1"] in
  byteOffsets (SetDocument raw sp d 0).1.2 = Some (1%nat, []) /\
  byteOffsets (SetDocument raw schema d 0).1.2 = None.
Proof.
  intros sp d.
  assert (E1 : SetDocument raw sp d 0
               = (true, (SetDocument raw sp d 0).1.2, (SetDocument raw sp d 0).2)).
  { apply SetDocument_returns_true. vm_compute. reflexivity. }
  assert (E2 : SetDocument raw schema d 0
               = (true, (SetDocument raw schema d 0).1.2, (SetDocument raw schema d 0).2)).
  { apply SetDocument_returns_true. vm_compute. reflexivity. }
  pose proof (SetDocument_byteOffsets _ _ _ _ _ _ E1) as H1.
  pose proof (SetDocument_byteOffsets _ _ _ _ _ _ E2) as H2.
  split; [etrans; [exact H1|] | etrans; [exact H2|]]; vm_compute; reflexivity.
Defined.

Lemma SetDocument_docFlags_witness :
  let d1 := document [field "title" "Widget"; field "loc" "1.0,2.0"] in
  let d2 := document [field "title" "Widget"] in
  let c0 := set_docFlags raw 5 in
  docFlags (SetDocument c0 schema d1 0).1.2 = Document_HasOnDemandDeletable /\
  docFlags (SetDocument c0 schema d2 0).1.2 = 5.
Proof.
  intros d1 d2 c0.
  assert (E1 : SetDocument c0 schema d1 0
               = (true, (SetDocument c0 schema d1 0).1.2, (SetDocument c0 schema d1 0).2)).
  { apply SetDocument_returns_true. vm_compute. reflexivity. }
  assert (E2 : SetDocument c0 schema d2 0
               = (true, (SetDocument c0 schema d2 0).1.2, (SetDocument c0 schema d2 0).2)).
  { apply SetDocument_returns_true. vm_compute. reflexivity. }
  pose proof (SetDocument_docFlags _ _ _ _ _ _ E1) as H1.
  pose proof (SetDocument_docFlags _ _ _ _ _ _ E2) as H2.
  split; [etrans; [exact H1|] | etrans; [exact H2|]]; vm_compute; reflexivity.
Defined.

Lemma SetDocument_accepts_iff_witness :
  (SetDocument raw schema (document [field "title" "Widget"]) 0).1.1 = true /\
  ~ accepted schema ∅ [field "title" "A"; field "title" "B"].
Proof.
  split.
  - apply (proj2 (SetDocument_accepts_iff raw schema
                    (document [field "title" "Widget"]) 0)).
    apply accepted_one, conforms_unspecified.
  - intros Ha.
    apply (proj2 (SetDocument_accepts_iff raw schema
                    (document [field "title" "A"; field "title" "B"]) 0)) in Ha.
    vm_compute in Ha. discriminate Ha.
Defined.

Lemma SetDocument_failure_witness :
  let d := document [field "title" "A"; mkDocumentField "price" (Some "1") INDEXFLD_T_GEO;
                     field "tags" "x"] in
  let r := SetDocument raw schema d 0 in
  r.1.1 = false /\
  (code (status r.1.2) = QUERY_EDUPFIELD \/ code (status r.1.2) = QUERY_EUNSUPPTYPE) /\
  sv r.1.2 = None /\ fields (doc r.1.2) = [] /\ length (fspecs r.1.2) = 2%nat.
Proof.
  intros d r.
  assert (E : SetDocument raw schema d 0 = (false, r.1.2, r.2)).
  { apply SetDocument_returns_false. vm_compute. reflexivity. }
  destruct (SetDocument_failure raw schema d 0 _ _ eq_refl E)
    as (Hcode & Hdoc & Hsv & _ & _ & pre & f & rest & Hd & _ & Hlen).
  split; [vm_compute; reflexivity|]. split; [exact Hcode|].
  split; [rewrite Hsv; reflexivity|]. split; [rewrite Hdoc; reflexivity|].
  vm_compute. reflexivity.
Defined.

Lemma AddToIndexes_success_witness :
  let c0 := (SetDocument raw schema
               (document [field "title" "Widget"; field "price" "9.99"]) 0).1.2 in
  exists c',
    AddToIndexes c0 = Ret (REDISMODULE_OK, c') /\
    events c' = [EvIndexerAdd] /\ code (status c') = QUERY_OK.
Proof.
  intros c0.
  assert (Hobs : observe (AddToIndexes c0) = Some (REDISMODULE_OK, QUERY_OK, [EvIndexerAdd]))
    by (vm_compute; reflexivity).
  destruct (AddToIndexes c0) as [[st c']| | |] eqn:E; try discriminate Hobs.
  simpl in Hobs. assert (st = REDISMODULE_OK) as -> by congruence.
  destruct (AddToIndexes_success c0 c' E) as (Hev & Hst & _).
  exists c'. split; [reflexivity|]. split; [rewrite Hev; reflexivity|].
  rewrite Hst. reflexivity.
Defined.

Lemma AddToIndexes_numeric_data_witness :
  let c0 := (SetDocument raw schema
               (document [field "title" "Widget"; field "price" "9.99"]) 0).1.2 in
  exists c',
    AddToIndexes c0 = Ret (REDISMODULE_OK, c') /\
    exists x, fd_numeric (fdata_at (fdatas c') 1) = Some x /\ Qeq x 9.99%Q.
Proof.
  intros c0.
  assert (Hobs : observe (AddToIndexes c0) = Some (REDISMODULE_OK, QUERY_OK, [EvIndexerAdd]))
    by (vm_compute; reflexivity).
  destruct (AddToIndexes c0) as [[st c']| | |] eqn:E; try discriminate Hobs.
  simpl in Hobs. assert (st = REDISMODULE_OK) as -> by congruence.
  destruct (AddToIndexes_numeric_data c0 c' 1
              (mkDocumentField "price" (Some "9.99") INDEXFLD_T_NUMERIC) fs_price E)
    as (t & x & Ht & Hx & Hfd);
    [vm_compute; reflexivity | vm_compute; reflexivity | discriminate | reflexivity |].
  exists c'. split; [reflexivity|]. exists x. split; [exact Hfd|].
  simpl in Ht. injection Ht as <-. vm_compute in Hx. injection Hx as <-. reflexivity.
Defined.

Lemma AddToIndexes_failure_cause_witness :
  let c0 := (SetDocument raw schema
               (document [field "title" "Widget"; field "price" "abc"]) 0).1.2 in
  exists c' i ff t,
    AddToIndexes c0 = Ret (REDISMODULE_ERR, c') /\
    fields (doc c0) !! i = Some ff /\ f_text ff = Some t /\
    (CheckIdx ff INDEXFLD_T_NUMERIC = true /\ RedisModule_StringToDouble t = None
     \/
     CheckIdx ff INDEXFLD_T_GEO = true /\ strpbrk t " ," = None).
Proof.
  intros c0.
  assert (Hobs : observe (AddToIndexes c0)
                 = Some (REDISMODULE_ERR, QUERY_ENOTNUMERIC, [EvUnblockClient]))
    by (vm_compute; reflexivity).
  destruct (AddToIndexes c0) as [[st c']| | |] eqn:E; try discriminate Hobs.
  simpl in Hobs. assert (st = REDISMODULE_ERR) as -> by congruence.
  destruct (AddToIndexes_failure_cause c0 c' E) as (i & ff & fs & t & Hi & _ & _ & Ht & Hc).
  exists c', i, ff, t. split; [reflexivity|]. split; [exact Hi|]. split; [exact Ht|exact Hc].
Defined.

Lemma AddToIndexes_skips_witness :
  let c0 := (SetDocument raw schema
               (document [field "color" "red"; mkDocumentField "title" None 0]) 0).1.2 in
  observe (AddToIndexes c0) = Some (REDISMODULE_OK, QUERY_OK, [EvIndexerAdd]).
Proof.
  intros c0. rewrite (AddToIndexes_skips c0).
  - vm_compute. reflexivity.
  - intros k ff Hk. exists FieldSpec_none.
    destruct k as [|[|k]]; [| |vm_compute in Hk; discriminate Hk].
    + split; [vm_compute; reflexivity|left; reflexivity].
    + split; [vm_compute; reflexivity|left; reflexivity].
Defined.

Lemma SetDocument_then_AddToIndexes_witness :
  let d := document [field "title" "Widget"; field "price" "9.99";
                     field "loc" "1.0,2.0"; field "tags" "red,blue"] in
  exists st c'', AddToIndexes (SetDocument raw schema d 0).1.2 = Ret (st, c'').
Proof.
  intros d.
  apply (SetDocument_then_AddToIndexes raw schema d 0 _ (SetDocument raw schema d 0).2).
  - reflexivity.
  - apply SetDocument_returns_true. vm_compute. reflexivity.
Defined.

Lemma GeoPreprocessor_consumes_separator_witness :
  let e := mkPreEnv raw (field "loc" "40.7,-74.0") FieldIndexerData_raw (status raw) in
  exists e1 e2,
    GeoPreprocessor fs_loc e = Ret (true, e1) /\
    GeoPreprocessor fs_loc e1 = Ret (false, e2) /\
    code (p_status e2) = QUERY_EGEOFORMAT.
Proof.
  intros e. eexists _, _. split; [reflexivity|]. split.
  - apply (GeoPreprocessor_consumes_separator fs_loc fs_loc e). reflexivity.
  - reflexivity.
Defined.

Lemma ReplaceMerge_verdict_witness :
  let c0 := (SetDocument raw schema (document [field "title" "Widget"]) 0).1.2 in
  let fl := [field "title" "A"; field "title" "B"] in
  let r := ReplaceMerge c0 schema (Some fl) in
  r.1 = false /\ events r.2 = [] /\
  (code (status r.2) = QUERY_EDUPFIELD \/ code (status r.2) = QUERY_EUNSUPPTYPE) /\
  fs_name <$> fspecs r.2 !! 0%nat = Some "title".
Proof.
  intros c0 fl r.
  destruct (ReplaceMerge_verdict c0 schema (Some fl)) as (Hret & Hpre & _ & Hsome).
  destruct (Hsome fl eq_refl) as (Hev & _ & Hrej).
  split; [vm_compute; reflexivity|]. split; [vm_compute; reflexivity|]. split.
  - apply Hrej; [|vm_compute; reflexivity].
    intros (Hnd & _). vm_compute in Hnd. apply NoDup_cons in Hnd as (Hn & _).
    apply Hn. left.
  - vm_compute. reflexivity.
Defined.

(** ** More of the constructor and of [Document::GetField] *)

Lemma AddDocumentCtx_new_verdict_witness :
  let d := document [field "title" "Widget"; field "loc" "1.0,2.0"] in
  let bad := document [field "title" "A"; field "title" "B"] in
  (exists c', AddDocumentCtx_new raw schema true d = inl (Ret c') /\
              docId (doc c') = 0 /\ docFlags c' = Document_HasOnDemandDeletable) /\
  (exists st, AddDocumentCtx_new raw schema true bad = inr st /\
              (code st = QUERY_EDUPFIELD \/ code st = QUERY_EUNSUPPTYPE)) /\
  AddDocumentCtx_new raw schema false bad = inl (Throw "No indexer").
Proof.
  intros d bad. split_and!.
  - pose proof (AddDocumentCtx_new_verdict raw schema true d) as H.
    assert (Hobs : match AddDocumentCtx_new raw schema true d with
                   | inl (Ret _) => true
                   | _ => false
                   end = true) by (vm_compute; reflexivity).
    destruct (AddDocumentCtx_new raw schema true d) as [[c'| | |]|st];
      try discriminate Hobs.
    destruct H as (_ & _ & _ & Hid & _ & _ & _ & _ & Hdf).
    exists c'. split; [reflexivity|]. split; [exact Hid|]. rewrite Hdf. reflexivity.
  - pose proof (AddDocumentCtx_new_verdict raw schema true bad) as H.
    assert (Hobs : match AddDocumentCtx_new raw schema true bad with
                   | inr _ => true
                   | _ => false
                   end = true) by (vm_compute; reflexivity).
    destruct (AddDocumentCtx_new raw schema true bad) as [[c'| | |]|st];
      try discriminate Hobs.
    destruct H as (_ & _ & Hcode). exists st. split; [reflexivity|exact Hcode].
  - reflexivity.
Defined.

Lemma Document_GetField_case_insensitive_witness :
  let d := document [field "Price" "1"; field "TITLE" "Widget"; field "title" "Other"] in
  Document_GetField d (Some "Title") = Document_GetField d (Some "tItLe") /\
  f_text <$> Document_GetField d (Some "Title") = Some (Some "Widget").
Proof.
  intros d. split.
  - apply Document_GetField_case_insensitive. vm_compute. reflexivity.
  - vm_compute. reflexivity.
Defined.

(** ** More of the garbage collector *)

Lemma PeriodicCallback_books_witness :
  let g := mkGarbageCollector 10%Q "idx" (mkGCStats 0 0 0) true false 8 [] in
  let busy := mkPassEnv false
                (mkTermEnv 8 (Some "term") true
                   [mkRound 1 2 10 8 true 0; mkRound 0 1 20 8 true 0])
                (mkNumericEnv 8 [] 0 []) (mkTagEnv 8 false false false []) in
  exists b g' w',
    PeriodicCallback g world busy = Ret (b, g', w') /\
    numRecords (w_stats w') = 97 /\ invertedSize (w_stats w') = 970 /\
    stats g' = mkGCStats 30 1 1.
Proof.
  intros g busy.
  assert (Hobs : match PeriodicCallback g world busy with
                 | Ret (_, g', w') =>
                     (numRecords (w_stats w') =? 97) && (invertedSize (w_stats w') =? 970)
                     && (totalCollected (stats g') =? 30)
                 | _ => false
                 end = true) by (vm_compute; reflexivity).
  destruct (PeriodicCallback g world busy) as [[[b g'] w']| | |] eqn:E;
    try discriminate Hobs.
  apply andb_true_iff in Hobs as (Hobs & Htc). apply andb_true_iff in Hobs as (Hnr & His).
  apply Z.eqb_eq in Hnr, His, Htc.
  destruct (PeriodicCallback_books g world busy b g' w' eq_refl E) as (Hn & He & _).
  exists b, g', w'. split; [reflexivity|]. split; [exact Hnr|]. split; [exact His|].
  rewrite Hnr in He. destruct (stats g') as [tc nc ec]. simpl in *.
  rewrite Hn, He, Htc. reflexivity.
Defined.

Lemma PeriodicCallback_repairs_witness :
  let g := mkGarbageCollector 10%Q "idx" (mkGCStats 0 0 0) true false 8 [] in
  let busy := mkPassEnv false
                (mkTermEnv 8 (Some "term") true
                   [mkRound 1 2 10 8 true 0; mkRound 0 1 20 8 true 0])
                (mkNumericEnv 8 [] 0 []) (mkTagEnv 8 false false false []) in
  exists b g' w',
    PeriodicCallback g world busy = Ret (b, g', w') /\
    specUniqueId g' = 8 /\ length (w_repairs w') = 2%nat /\
    Forall (fun p => p.1 = 8) (w_repairs w').
Proof.
  intros g busy.
  assert (Hobs : match PeriodicCallback g world busy with
                 | Ret (_, _, w') => (length (w_repairs w') =? 2)%nat
                 | _ => false
                 end = true) by (vm_compute; reflexivity).
  destruct (PeriodicCallback g world busy) as [[[b g'] w']| | |] eqn:E;
    try discriminate Hobs.
  apply Nat.eqb_eq in Hobs.
  destruct (PeriodicCallback_repairs g world busy b g' w' E) as (Hid & _ & new & Hnew & F).
  exists b, g', w'. split; [reflexivity|]. split; [exact Hid|]. split; [exact Hobs|].
  rewrite Hnew. exact F.
Defined.

Lemma PeriodicCallback_rdb_latch_witness :
  let g := mkGarbageCollector 10%Q "idx" (mkGCStats 0 0 0) true false 8 [] in
  let quiet loading :=
    mkPassEnv loading (mkTermEnv 8 None true [])
      (mkNumericEnv 8 [] 0 []) (mkTagEnv 8 false false false []) in
  PeriodicCallback g world (quiet true) = Ret (true, g, world) /\
  exists b g' w',
    PeriodicCallback g world (quiet false) = Ret (b, g', w') /\
    rdbPossiblyLoading g' = false /\
    PeriodicCallback g' w' (quiet true) = PeriodicCallback g' w' (quiet false).
Proof.
  intros g quiet. split; [reflexivity|].
  assert (Hobs : match PeriodicCallback g world (quiet false) with
                 | Ret _ => true
                 | _ => false
                 end = true) by (vm_compute; reflexivity).
  destruct (PeriodicCallback g world (quiet false)) as [[[b g'] w']| | |] eqn:E;
    try discriminate Hobs.
  destruct (PeriodicCallback_rdb_latch g world (quiet false) b g' w' E) as (_ & Hrun).
  destruct (Hrun eq_refl) as (Hoff & Hsame).
  exists b, g', w'. split; [reflexivity|]. split; [exact Hoff|].
  exact (Hsame w' (quiet false) true).
Defined.

Lemma PeriodicCallback_cycles_witness :
  let g := mkGarbageCollector 10%Q "idx" (mkGCStats 0 5 2) false false 8 [] in
  let quiet :=
    mkPassEnv false (mkTermEnv 8 None true [])
      (mkNumericEnv 8 [] 0 []) (mkTagEnv 8 false false false []) in
  exists b g' w',
    PeriodicCallback g world quiet = Ret (b, g', w') /\
    0 <= effectiveCycles (stats g') <= numCycles (stats g') /\
    5 <= numCycles (stats g') <= 6.
Proof.
  intros g quiet.
  assert (Hobs : match PeriodicCallback g world quiet with
                 | Ret _ => true
                 | _ => false
                 end = true) by (vm_compute; reflexivity).
  destruct (PeriodicCallback g world quiet) as [[[b g'] w']| | |] eqn:E;
    try discriminate Hobs.
  destruct (PeriodicCallback_cycles g world quiet b g' w' E) as (H1 & H2);
    [simpl; lia | simpl; lia |].
  exists b, g', w'. split; [reflexivity|]. split; [exact H1|exact H2].
Defined.



Lemma NextGcNode_first_with_range_witness :
  let tree := mkNumericRangeTree 1 0
                [mkNumericRangeNode 1 None; mkNumericRangeNode 2 (Some 20);
                 mkNumericRangeNode 3 (Some 30)] in
  let trees : gmap Z NumericRangeTree := <[100 := tree]> ∅ in
  exists n ngc',
    NextGcNode trees (mkNumericFieldGC 100 1 [mkNumericRangeNode 9 None]) = Ret (n, ngc') /\
    is_Some (node_range n) /\ ngc_rt ngc' = 100.
Proof.
  intros tree trees. eexists _, _. split; [reflexivity|].
  destruct (NextGcNode_first_with_range trees
              (mkNumericFieldGC 100 1 [mkNumericRangeNode 9 None]) _ _ eq_refl)
    as (Hr & Hrt & _).
  split; [exact Hr|exact Hrt].
Defined.

Lemma sync_numericGC_idempotent_witness :
  let tree := mkNumericRangeTree 1 0 [mkNumericRangeNode 2 (Some 20)] in
  let w := mkWorld (mkSpecStats 0 0) (<[100 := tree]> (<[200 := tree]> ∅)) [] in
  let g := mkGarbageCollector 10%Q "idx" (mkGCStats 0 0 0) false false 8 [] in
  let env := mkNumericEnv 8 [Some 100; Some 200] 0 [] in
  exists g',
    sync_numericGC g w env = Ret g' /\
    length (numericGC g') = 2%nat /\ sync_numericGC g' w env = Ret g'.
Proof.
  intros tree w g env. eexists. split; [reflexivity|].
  apply (sync_numericGC_idempotent g w env). reflexivity.
Defined.

(** ** [IndexBulkData::Add] *)

Import SampleBulk.

Lemma Sample_positions_named : positions_named.
Proof.
  intros i Hi. simpl in Hi. destruct i as [|[|[|[|i]]]]; simpl; auto. lia.
Qed.

Lemma IndexBulkData_Add_status_witness :
  let f := mkDocumentField "price" (Some "9.99") INDEXFLD_T_NUMERIC in
  let fd := mkFieldIndexerData (Some 9.99%Q) None None [] in
  let closed := mkBulkHost None 0 None 0 REDISMODULE_OK in
  let r := IndexBulkData_Add closed 1 f fd bulk in
  r.1 = false /\ code (bk_status r.2) = QUERY_EGENERIC /\ bk_calls r.2 = [].
Proof.
  intros f fd closed r.
  destruct (IndexBulkData_Add_status closed 1 f fd bulk) as (_ & Hfail).
  destruct Hfail as (_ & Hnamed); [reflexivity|reflexivity|].
  split; [reflexivity|]. split; [apply Hnamed, Sample_positions_named|reflexivity].
Defined.

Lemma IndexBulkData_Add_records_witness :
  let f := mkDocumentField "spot" (Some "1.0,2.0")
             (Z.lor INDEXFLD_T_NUMERIC INDEXFLD_T_GEO) in
  let fd := mkFieldIndexerData (Some 1%Q) (Some 0%nat) (Some 4%nat) [] in
  let h := mkBulkHost (Some 500) 16 (Some 600) 8 REDISMODULE_OK in
  let r := IndexBulkData_Add h 1 f fd bulk in
  length (bk_calls r.2) = 2%nat /\
  size_t (numRecords (bk_stats r.2) - 100) = 1.
Proof.
  intros f fd h r.
  destruct (IndexBulkData_Add_records h 1 f fd bulk) as (new & Hcalls & Hrec & _).
  fold r in Hcalls, Hrec. simpl in Hcalls.
  split; [reflexivity|].
  change (numRecords (bk_stats bulk)) with 100 in Hrec. rewrite Hrec.
  assert (Hnew : new = bk_calls r.2) by (symmetry; exact Hcalls).
  rewrite Hnew. reflexivity.
Defined.

Lemma IndexBulkData_Add_numeric_index_witness :
  let f := mkDocumentField "price" (Some "9.99") INDEXFLD_T_NUMERIC in
  let fd := mkFieldIndexerData (Some 9.99%Q) None None [] in
  let other := mkBulkHost (Some 999) 16 None 0 REDISMODULE_OK in
  let s := mkBulkState (<[1%nat := 500]> ∅) (mkSpecStats 100 1000)
             (mkQueryError QUERY_OK None) [] in
  let r := IndexBulkData_Add other 1 f fd s in
  indexDatas r.2 !! 1%nat = Some 500 /\
  bk_calls r.2 = [CallNumericAdd 500 1 (Some 9.99%Q)].
Proof.
  intros f fd other s r.
  destruct (IndexBulkData_Add_numeric_index other 1 f fd s 500) as (Hrt & _);
    [reflexivity | discriminate | reflexivity |].
  split; [exact Hrt|reflexivity].
Defined.

(** ** The byte offsets, and [handlePartialUpdate] *)

Lemma byteOffsets_capacity_witness :
  let sp := mkIndexSpec (GetField schema) Index_StoreByteOffsets 2 7 in
  let d := document [field "title" "a b c"; field "price" "1"] in
  let c' := (SetDocument raw sp d 0).1.2 in
  exists st c'',
    AddToIndexes c' = Ret (st, c'') /\
    byteOffsets c'' = Some (1%nat, [(1, 1, 3)]) /\ totalTokens c'' = 3.
Proof.
  intros sp d c'.
  assert (E : SetDocument raw sp d 0 = (true, c', (SetDocument raw sp d 0).2)).
  { apply SetDocument_returns_true. vm_compute. reflexivity. }
  assert (Hobs : match AddToIndexes c' with
                 | Ret (_, c'') => byteOffsets c''
                 | _ => None
                 end = Some (1%nat, [(1, 1, 3)])) by (vm_compute; reflexivity).
  destruct (AddToIndexes c') as [[st c'']| | |] eqn:EA; try discriminate Hobs.
  pose proof (byteOffsets_capacity raw sp d 0 c' _ st c'' eq_refl eq_refl E EA) as H.
  rewrite Hobs in H. destruct H as (_ & _ & _ & Hstop).
  exists st, c''. split; [reflexivity|]. split; [exact Hobs|exact Hstop].
Defined.

Lemma handlePartialUpdate_reindexes_iff_witness :
  let d1 := document [field "title" "Widget"] in
  let d2 := document [field "color" "red"] in
  handlePartialUpdate_reindexes (SetDocument raw schema d1 0).1.2 = true /\
  handlePartialUpdate_reindexes (SetDocument raw schema d2 0).1.2 = false.
Proof.
  intros d1 d2.
  assert (E1 : SetDocument raw schema d1 0
               = (true, (SetDocument raw schema d1 0).1.2, (SetDocument raw schema d1 0).2)).
  { apply SetDocument_returns_true. vm_compute. reflexivity. }
  assert (E2 : SetDocument raw schema d2 0
               = (true, (SetDocument raw schema d2 0).1.2, (SetDocument raw schema d2 0).2)).
  { apply SetDocument_returns_true. vm_compute. reflexivity. }
  pose proof (handlePartialUpdate_reindexes_iff _ _ _ _ _ _ E1) as H1.
  pose proof (handlePartialUpdate_reindexes_iff _ _ _ _ _ _ E2) as H2.
  split; [etrans; [exact H1|] | etrans; [exact H2|]]; vm_compute; reflexivity.
Defined.
